(** * Akahu to budget synchronisation

    A shallow embedding of the synchronisation engine of
    [modules/transaction_handler.py] and [modules/sync_handler.py]:
    the paginated Akahu reader, the two transcoders, the write paths into
    Actual Budget and YNAB, the balance adjustment of tracking accounts and
    the two sync passes with their batched timestamp update.

    Python values are modelled as the code has them: a [float] is an IEEE
    binary64 number ([spec_float] of the Standard Library, with the
    library's own rounding), a [decimal.Decimal] is a coefficient and a
    decimal exponent, a [dict] read with [.get] is a record of options, the
    mapping file is a finite map, a set of account ids is a [gset].
    Effects (network calls, the Actual session, the mapping file, logging,
    exceptions) are threaded through a state-and-exception monad over an
    explicit [World]. *)

From Stdlib Require Import ZArith Lia SpecFloat.
From stdpp Require Import gmap strings list.

#[local] Set Warnings "-clear-no-such-hyp".
Local Open Scope Z_scope.

(** ** Python numbers *)

Module pyfloat.

Definition prec : Z := 53.
Definition emax : Z := 1024.

(** [float(n)] for a Python int [n] (exact for |n| < 2^53). *)
Definition of_int (n : Z) : spec_float := binary_normalize prec emax n 0 false.

(** [x * y] on floats: correctly rounded, ties to even. *)
Definition mul (x y : spec_float) : spec_float := SFmul prec emax x y.

(** The magnitude of a finite float, rounded toward zero. *)
Definition trunc_mag (m : positive) (e : Z) : Z :=
  if 0 <=? e then Z.pos m * 2 ^ e else Z.pos m / 2 ^ (- e).

(** [int(x)]: truncation toward zero; [None] stands for the
    [ValueError] / [OverflowError] raised on NaN and infinities. *)
Definition to_int (x : spec_float) : option Z :=
  match x with
  | S754_zero _ => Some 0
  | S754_finite s m e => Some (cond_Zopp s (trunc_mag m e))
  | S754_nan | S754_infinity _ => None
  end.

(** The real number [m * 2^e] lies within half a unit in the last place
    of the decimal [num / 10^digits]: the float is (one of) the binary64
    numbers nearest to that decimal literal. Stated over integers. *)
Definition nearest_to (m : positive) (e : Z) (num : Z) (digits : Z) : Prop :=
  e < 0 ∧ 2 * Z.abs (Z.pos m * 10 ^ digits - num * 2 ^ (- e)) ≤ 10 ^ digits.

End pyfloat.

Module pydecimal.

(** A [decimal.Decimal]: [Finite c e] is [c * 10^e]. *)
Inductive Decimal :=
| Finite (coef : Z) (exp : Z)
| NaN
| Infinity (negative : bool).

(** Division of [a] by a positive [b], rounded to nearest, ties to even
    (ROUND_HALF_EVEN, the rounding of the default context). *)
Definition round_half_even (a b : Z) : Z :=
  let q := a / b in
  match 2 * (a mod b) ?= b with
  | Lt => q
  | Gt => q + 1
  | Eq => if Z.even q then q else q + 1
  end.

(** [c * 10^e] expressed in units of [10^target], rounded half-even. *)
Definition rescale (c e target : Z) : Z :=
  if target <=? e then c * 10 ^ (e - target)
  else round_half_even c (10 ^ (target - e)).

(** [decimal.Decimal(x)] for a float [x]: the exact value. *)
Definition from_float (x : spec_float) : Decimal :=
  match x with
  | S754_zero _ => Finite 0 0
  | S754_finite s m e =>
      if 0 <=? e then Finite (cond_Zopp s (Z.pos m * 2 ^ e)) 0
      else Finite (cond_Zopp s (Z.pos m * 5 ^ (- e))) e
  | S754_nan => NaN
  | S754_infinity s => Infinity s
  end.

(** [d.quantize(q)] in the default context (28 digits, half-even):
    [None] stands for [decimal.InvalidOperation]. *)
Definition quantize (d q : Decimal) : option Decimal :=
  match d, q with
  | Finite c e, Finite _ target =>
      let n := rescale c e target in
      if Z.abs n <? 10 ^ 28 then Some (Finite n target) else None
  | NaN, _ | _, NaN => Some NaN
  | Infinity s, Infinity _ => Some (Infinity s)
  | Infinity _, Finite _ _ | Finite _ _, Infinity _ => None
  end.

(** [d * n] for a Python int [n] (exact while the coefficient stays
    within the 28 digits of the context). *)
Definition mul_int (d : Decimal) (n : Z) : Decimal :=
  match d with
  | Finite c e => Finite (c * n) e
  | NaN => NaN
  | Infinity s => Infinity (xorb s (n <? 0))
  end.

(** [int(d)]: truncation toward zero; [None] on NaN and infinities. *)
Definition to_int (d : Decimal) : option Z :=
  match d with
  | Finite c e => Some (if 0 <=? e then c * 10 ^ e else Z.quot c (10 ^ (- e)))
  | NaN | Infinity _ => None
  end.

End pydecimal.

Import pydecimal.

(** ** Data model *)

(** *** Records delivered by the Akahu feed

    A row of the DataFrame built from the ["items"] of the pages of a
    feed. The rows of one frame have the same columns: under a column
    that no item of the feed has, every row is [NoColumn], which [txn.get]
    reads as [None] and on which [row[...]] raises [KeyError]; a frame
    without rows has no columns. *)

Inductive Cell (A : Type) :=
| NoColumn
| Holds (v : A).

Arguments NoColumn {A}.
Arguments Holds {A} v.

(** [row.get(column)] *)
Definition cell_get {A} (c : Cell A) (none : A) : A :=
  match c with
  | Holds v => v
  | NoColumn => none
  end.

(** What a row holds under ["date"]: [None] for a JSON null, the NaN with
    which the frame fills the row of an item that has no date, or a
    string. *)
Inductive DateValue :=
| DateNone
| DateNaN
| DateStr (s : string).

(** What a row holds under ["merchant"], when it is neither [None] nor
    NaN: a JSON object, with no ["name"] ([None]), a null one
    ([Some None]) or a string, or else a JSON string, or a JSON number or
    boolean. *)
Inductive Merchant :=
| MerchantObject (name : option (option string))
| MerchantString (s : string)
| MerchantNumber.

(** An id and a description are strings, [None] for a JSON null; an amount
    is a float (NaN for an item without amount), [None] when the column
    holds nothing but nulls. What becomes of a NaN under ["_id"] or
    ["description"] is decided inside the libraries of the destinations:
    such rows are left out. [txn_merchant] is [None] when the frame has no
    such column and when the row holds [None] or NaN under it, which the
    code does not tell apart. *)
Record AkahuTxn := {
  txn_id : Cell (option string);             (* "_id" *)
  txn_date : Cell DateValue;                 (* "date", ISO timestamp, UTC *)
  txn_description : Cell (option string);    (* "description" *)
  txn_amount : Cell (option spec_float);     (* "amount", dollars *)
  txn_merchant : option Merchant;            (* "merchant" *)
}.

(** The ["cursor"] member of a page: JSON [null], or an object whose
    ["next"] member is absent ([None]), [null] ([Some None]) or a token. *)
Inductive Cursor :=
| CursorNull
| CursorObj (next : option (option string)).

Record Page := {
  items : list AkahuTxn;
  cursor : option Cursor;             (* [None]: no "cursor" key *)
}.

(** *** Account mapping

    One entry of the mapping, a dict read with [.get]: an absent key is
    [None]. *)

Record MappingEntry := {
  akahu_name : option string;
  account_type : option string;
  actual_budget_id : option string;
  actual_account_id : option string;
  actual_account_name : option string;
  actual_do_not_map : option bool;
  actual_synced_datetime : option string;
  ynab_budget_id : option string;
  ynab_account_id : option string;
  ynab_account_name : option string;
  ynab_do_not_map : option bool;
  ynab_synced_datetime : option string;
  akahu_balance : option spec_float;
}.

Definition set_actual_synced_datetime (t : string) (e : MappingEntry) : MappingEntry :=
  {| akahu_name := akahu_name e; account_type := account_type e;
     actual_budget_id := actual_budget_id e; actual_account_id := actual_account_id e;
     actual_account_name := actual_account_name e; actual_do_not_map := actual_do_not_map e;
     actual_synced_datetime := Some t;
     ynab_budget_id := ynab_budget_id e; ynab_account_id := ynab_account_id e;
     ynab_account_name := ynab_account_name e; ynab_do_not_map := ynab_do_not_map e;
     ynab_synced_datetime := ynab_synced_datetime e; akahu_balance := akahu_balance e |}.

Definition set_ynab_synced_datetime (t : string) (e : MappingEntry) : MappingEntry :=
  {| akahu_name := akahu_name e; account_type := account_type e;
     actual_budget_id := actual_budget_id e; actual_account_id := actual_account_id e;
     actual_account_name := actual_account_name e; actual_do_not_map := actual_do_not_map e;
     actual_synced_datetime := actual_synced_datetime e;
     ynab_budget_id := ynab_budget_id e; ynab_account_id := ynab_account_id e;
     ynab_account_name := ynab_account_name e; ynab_do_not_map := ynab_do_not_map e;
     ynab_synced_datetime := Some t; akahu_balance := akahu_balance e |}.

Definition set_akahu_balance (b : option spec_float) (e : MappingEntry) : MappingEntry :=
  {| akahu_name := akahu_name e; account_type := account_type e;
     actual_budget_id := actual_budget_id e; actual_account_id := actual_account_id e;
     actual_account_name := actual_account_name e; actual_do_not_map := actual_do_not_map e;
     actual_synced_datetime := actual_synced_datetime e;
     ynab_budget_id := ynab_budget_id e; ynab_account_id := ynab_account_id e;
     ynab_account_name := ynab_account_name e; ynab_do_not_map := ynab_do_not_map e;
     ynab_synced_datetime := ynab_synced_datetime e; akahu_balance := b |}.

(** Python truth values of what the mapping holds. *)
Definition truthy_flag (b : option bool) : bool := default false b.

Definition truthy_str (s : option string) : bool :=
  match s with
  | Some s => negb (String.eqb s "")
  | None => false
  end.

(** *** The Actual Budget session

    A row of the [transactions] table. [financial_id] holds the imported
    id and [imported_description] the imported payee, [amount] is in cents
    and [tombstone] marks a deleted row, as the repository's own tester
    reads them; [pending] is what [changed()] answers: the row has
    modifications that the session has not flushed yet. A query of the
    session flushes them, and so does a commit; the engine asks
    [changed()] after a match only, which is the query at which the model
    flushes. *)

Record Transactions := {
  id : nat;
  date : Z;                            (* calendar day number *)
  acct : string;
  payee : option string;
  notes : option string;
  category : option string;
  amount : Z;
  financial_id : option string;
  imported_description : option string;
  cleared : bool;
  tombstone : bool;
  pending : bool;
}.

#[global] Instance Transactions_eq_dec : EqDecision Transactions.
Proof. solve_decision. Defined.

(** What a rule may set on a transaction. *)
Inductive Mutation :=
| SetCategory (c : option string)
| SetPayee (p : option string)
| SetNotes (n : option string)
| SetCleared (b : bool)
| SetDate (d : Z)
| SetAmount (a : Z)
| SetAccount (a : string).

Record Rule := {
  condition : Transactions → bool;
  action : Mutation;
}.

Record Session := {
  rows : list Transactions;
  next_row : nat;
  ruleset : option (list Rule);
  category_names : list (string * string);
  payee_names : list (string * string);
}.

(** *** The YNAB budgets *)

Record YnabTransaction := {
  y_account_id : option string;
  y_date : option Z;
  y_amount : Z;                        (* milliunits *)
  y_payee_name : option string;
  y_memo : option string;
  y_import_id : option string;
  y_cleared : string;
  y_flag_color : string;
  y_approved : bool;
}.

(** *** Logging and external calls *)

Inductive Level := DEBUG | INFO | WARNING | ERROR.

Inductive Dest := ActualBudget | YNAB.

#[global] Instance Dest_eq_dec : EqDecision Dest.
Proof. solve_decision. Defined.

Inductive Msg :=
| SkipDoNotMap (d : Dest) (akahu_account_id : string)
| SkipMissingIds (d : Dest) (akahu_account_id : string)
| Processing (d : Dest) (akahu_account_id : string)
| LastSynced (last_reconciled_at : string)
| UnknownTypeForAccount (akahu_account_id : string)
| UnknownTypeTreatedAsTracking (account_type : string)
| NoBalanceForTracking (akahu_name : string)
| Text (s : string).

Inductive ActualOp :=
| GetCategories | GetPayees | GetRuleset | GetAccount | GetBalance
| MatchTransaction | CreateTransaction | ReconcileTransaction
| Commit | SyncSync | DownloadUserFile | DownloadBudget | Sync | CloseSession.

Inductive Call :=
| AkahuGetTransactions (akahu_account_id start : string) (cursor : option string)
| AkahuGetBalance (akahu_account_id : string)
| YnabGetBalance (budget_id account_id : string)
| YnabPostTransactions (budget_id : string) (sent : list YnabTransaction)
| YnabPostTransaction (budget_id : string) (sent : YnabTransaction)
| ActualCall (op : ActualOp)
| LoadMapping
| SaveMapping.

Inductive Event :=
| Log (l : Level) (m : Msg)
| Request (c : Call).

(** *** The world a pass runs in

    [actual] is the Actual client object, [ynab] the remote budgets,
    [mapping_file] the ["mapping"] member of the persisted mapping file,
    [mapping_list] the dict of mappings the caller loaded and passes to the
    sync functions (the entries are shared, mutable objects: the functions
    that receive a [mapping_entry] are given its key). [trace] records log
    lines and external calls, oldest first; [calls] counts the external
    calls and [clock] the readings of the wall clock. *)

Record World := {
  actual : Session;
  ynab : list (string * YnabTransaction);
  mapping_file : gmap string MappingEntry;
  mapping_list : list (string * MappingEntry);
  trace : list Event;
  calls : nat;
  clock : nat;
}.

Definition set_actual (f : Session → Session) (w : World) : World :=
  {| actual := f (actual w); ynab := ynab w; mapping_file := mapping_file w;
     mapping_list := mapping_list w; trace := trace w; calls := calls w; clock := clock w |}.

Definition set_ynab (f : list (string * YnabTransaction) → list (string * YnabTransaction))
    (w : World) : World :=
  {| actual := actual w; ynab := f (ynab w); mapping_file := mapping_file w;
     mapping_list := mapping_list w; trace := trace w; calls := calls w; clock := clock w |}.

Definition set_mapping_file (m : gmap string MappingEntry) (w : World) : World :=
  {| actual := actual w; ynab := ynab w; mapping_file := m;
     mapping_list := mapping_list w; trace := trace w; calls := calls w; clock := clock w |}.

Definition set_mapping_list (f : list (string * MappingEntry) → list (string * MappingEntry))
    (w : World) : World :=
  {| actual := actual w; ynab := ynab w; mapping_file := mapping_file w;
     mapping_list := f (mapping_list w); trace := trace w; calls := calls w; clock := clock w |}.

Definition add_event (e : Event) (w : World) : World :=
  {| actual := actual w; ynab := ynab w; mapping_file := mapping_file w;
     mapping_list := mapping_list w; trace := trace w ++ [e]; calls := calls w;
     clock := clock w |}.

Definition count_call (w : World) : World :=
  {| actual := actual w; ynab := ynab w; mapping_file := mapping_file w;
     mapping_list := mapping_list w; trace := trace w; calls := S (calls w);
     clock := clock w |}.

Definition tick (w : World) : World :=
  {| actual := actual w; ynab := ynab w; mapping_file := mapping_file w;
     mapping_list := mapping_list w; trace := trace w; calls := calls w;
     clock := S (clock w) |}.

(** *** The environment of a pass

    What the code reads but does not own: the configuration flags, the
    answers of the Akahu service, the wall clock, the library functions on
    dates and floats, and which external calls fail. *)

Record Env := {
  FORCE_REFRESH : bool;
  DEBUG_SYNC : bool;
  (** the JSON body Akahu answers to a transactions request *)
  akahu_page : string → string → option string → Page;
  (** the balance Akahu reports for an account, [None] when it has none *)
  akahu_account_balance : string → option spec_float;
  (** whether the n-th external call of the run fails *)
  fault : nat → bool;
  (** [datetime.utcnow()] at the n-th reading, formatted as a Z timestamp ... *)
  utc_stamp : nat → string;
  (** ... and as a calendar day; [datetime.now()] likewise *)
  utc_day : nat → Z;
  local_day : nat → Z;
  (** [datetime.strptime(s, "%Y-%m-%dT%H:%M:%SZ")] in seconds since the
      epoch, [None] for the [ValueError] *)
  strptime : string → option Z;
  (** the ISO timestamp one week before an ISO timestamp, [None] when
      [datetime.fromisoformat] raises *)
  week_before : string → option string;
  (** [decimal.Decimal(str(x))]: the shortest decimal that reads back as [x] *)
  decimal_of_str : spec_float → Decimal;
  (** the format specifications [:.2f] and [:,.2f] *)
  format_2f : Decimal → string;
  format_grouped_2f : Decimal → string;
}.

(** ** Exceptions, outcomes and the monad of the engine *)

Inductive Exn :=
| RuntimeError (msg : string)
| RequestException
| SessionError
| TypeError
| ValueError
| KeyError (key : string)
| OverflowError
| InvalidOperation.

(** [Spin]: a loop did not finish within the fuel it was given. *)
Inductive Outcome (A : Type) :=
| Ret (a : A)
| Raise (e : Exn)
| Spin.

Arguments Ret {A} a.
Arguments Raise {A} e.
Arguments Spin {A}.

Definition M (A : Type) : Type := World → Outcome A * World.

Definition ret {A} (a : A) : M A := λ w, (Ret a, w).

Definition bind {A B} (m : M A) (k : A → M B) : M B := λ w,
  match m w with
  | (Ret a, w') => k a w'
  | (Raise e, w') => (Raise e, w')
  | (Spin, w') => (Spin, w')
  end.

Definition raise {A} (e : Exn) : M A := λ w, (Raise e, w).

Definition spin {A} : M A := λ w, (Spin, w).

(** [try: m  except ...: h e] *)
Definition try_except {A} (m : M A) (h : Exn → M A) : M A := λ w,
  match m w with
  | (Raise e, w') => h e w'
  | r => r
  end.

Definition get_world : M World := λ w, (Ret w, w).

Definition modify (f : World → World) : M unit := λ w, (Ret tt, f w).

Notation "x <- m ;; k" := (bind m (λ x, k))
  (at level 100, m at next level, right associativity,
   format "'[v' x  <-  m  ;;  '/' k ']'").
Notation "m ;;; k" := (bind m (λ _, k))
  (at level 100, right associativity, format "'[v' m  ;;;  '/' k ']'").

(** [for x in l: acc = body x acc] *)
Fixpoint for_each {A S} (l : list A) (body : A → S → M S) (acc : S) : M S :=
  match l with
  | [] => ret acc
  | x :: l' => acc' <- body x acc ;; for_each l' body acc'
  end.

Definition of_option {A} (o : option A) (e : Exn) : M A :=
  match o with
  | Some a => ret a
  | None => raise e
  end.

(** [row[column]] *)
Definition getitem {A} (column : string) (c : Cell A) : M A :=
  match c with
  | Holds v => ret v
  | NoColumn => raise (KeyError column)
  end.

(** [[f(x) for x in l]] with the effects of [f] in list order. *)
Fixpoint map_m {A B} (f : A → M B) (l : list A) : M (list B) :=
  match l with
  | [] => ret []
  | x :: l' => y <- f x ;; ys <- map_m f l' ;; ret (y :: ys)
  end.

(** The empty-list test behind [df.empty] and [if not xs]. *)
Definition is_nil {A} (l : list A) : bool :=
  match l with
  | [] => true
  | _ :: _ => false
  end.

(** ** Pure helpers of the engine *)

(** [sorted(items, key=...)] is a stable sort: elements with equal keys
    keep their order. Insertion of the head in front of the first element
    whose key is not smaller computes it. *)
Fixpoint insert_by_key {A} (kx : Z * A) (l : list (Z * A)) : list (Z * A) :=
  match l with
  | [] => [kx]
  | ky :: l' => if kx.1 <=? ky.1 then kx :: l else ky :: insert_by_key kx l'
  end.

Definition stable_sort {A} (l : list (Z * A)) : list (Z * A) :=
  foldr insert_by_key [] l.

(** The key is computed once per element, in list order, before sorting. *)
Definition sorted {A} (l : list A) (key : A → M Z) : M (list A) :=
  keyed <- map_m (λ x, k <- key x ;; ret (k, x)) l ;;
  ret (map snd (stable_sort keyed)).

Definition lookup_entry (key : string) (l : list (string * MappingEntry)) : option MappingEntry :=
  snd <$> List.find (λ kv, String.eqb kv.1 key) l.

(** [mapping_list[key][field] = value] on the shared entry. *)
Definition update_entry (key : string) (f : MappingEntry → MappingEntry)
    (l : list (string * MappingEntry)) : list (string * MappingEntry) :=
  map (λ kv, if String.eqb kv.1 key then (kv.1, f kv.2) else kv) l.

(** [date_str[:date_str.index(".")] + "Z"] when the string has a dot. *)
Definition strip_milliseconds (date_str : string) : string :=
  match String.index 0 "." date_str with
  | Some i => String.append (String.substring 0 i date_str) "Z"
  | None => date_str
  end.

(** [int(x * 1000)] of [clean_txn_for_ynab]. *)
Definition milliunits (x : spec_float) : option Z :=
  pyfloat.to_int (pyfloat.mul x (pyfloat.of_int 1000)).

(** What [int] raises on a float that it refuses: [OverflowError] on an
    infinity, [ValueError] on NaN. *)
Definition int_refuses (x : spec_float) : Exn :=
  match x with
  | S754_infinity _ => OverflowError
  | _ => ValueError
  end.

(** [datetime.max], in seconds since the epoch: the last second of the
    year 9999. *)
Definition datetime_max : Z := 253402300799.

(** [decimal.Decimal(x).quantize(decimal.Decimal("0.0001"))] of
    [load_transactions_into_actual]. *)
Definition quantized_amount (x : spec_float) : option Decimal :=
  quantize (from_float x) (Finite 1 (-4)).

(** [int(decimal.Decimal(str(x)) * 100)] of [handle_tracking_account_actual],
    with [decimal.Decimal(str(x))] given. *)
Definition cents_of_dollars (d : Decimal) : option Z :=
  pydecimal.to_int (mul_int d 100).

(** *** The Actual client library, as the engine uses it *)

(** Modelled from the spec: the conversion of a dollar amount handed to
    [create_transaction] into the cents a row stores (the library is not
    part of the repository); a non-finite amount is refused. *)
Definition cents_of_decimal (d : Decimal) : option Z :=
  match d with
  | Finite c e => Some (rescale c e (-2))
  | NaN | Infinity _ => None
  end.

(** Modelled from the spec: the match of [match_transaction], exact
    equality of destination account, payee, amount and idempotency key
    with a row that is not deleted; the date does not take part. *)
Definition same_transaction (account : string) (payee_name : option string) (cents : Z)
    (imported_id : option string) (r : Transactions) : bool :=
  negb (tombstone r) && bool_decide (acct r = account) && bool_decide (payee r = payee_name)
  && (amount r =? cents) && bool_decide (financial_id r = imported_id).

Definition edit (r : Transactions) (date' : Z) (acct' : string)
    (payee' notes' category' : option string) (amount' : Z) (cleared' : bool) : Transactions :=
  {| id := id r; date := date'; acct := acct'; payee := payee'; notes := notes';
     category := category'; amount := amount'; financial_id := financial_id r;
     imported_description := imported_description r; cleared := cleared';
     tombstone := tombstone r; pending := true |}.

Definition apply_mutation (m : Mutation) (r : Transactions) : Transactions :=
  match m with
  | SetCategory c => edit r (date r) (acct r) (payee r) (notes r) c (amount r) (cleared r)
  | SetPayee p => edit r (date r) (acct r) p (notes r) (category r) (amount r) (cleared r)
  | SetNotes n => edit r (date r) (acct r) (payee r) n (category r) (amount r) (cleared r)
  | SetCleared b => edit r (date r) (acct r) (payee r) (notes r) (category r) (amount r) b
  | SetDate d => edit r d (acct r) (payee r) (notes r) (category r) (amount r) (cleared r)
  | SetAmount a => edit r (date r) (acct r) (payee r) (notes r) (category r) a (cleared r)
  | SetAccount a => edit r (date r) a (payee r) (notes r) (category r) (amount r) (cleared r)
  end.

(** Modelled from the spec: [ruleset.run], an ordered list of
    predicate-to-mutation rules applied to one transaction. *)
Definition run_rules (rs : list Rule) (r : Transactions) : Transactions :=
  fold_left (λ r rule, if condition rule r then apply_mutation (action rule) r else r) rs r.

Definition committed (r : Transactions) : Transactions :=
  {| id := id r; date := date r; acct := acct r; payee := payee r; notes := notes r;
     category := category r; amount := amount r; financial_id := financial_id r;
     imported_description := imported_description r; cleared := cleared r;
     tombstone := tombstone r; pending := false |}.

Definition with_rows (f : list Transactions → list Transactions) (s : Session) : Session :=
  {| rows := f (rows s); next_row := next_row s; ruleset := ruleset s;
     category_names := category_names s; payee_names := payee_names s |}.

Definition add_row (r : Transactions) (s : Session) : Session :=
  {| rows := rows s ++ [r]; next_row := S (next_row s); ruleset := ruleset s;
     category_names := category_names s; payee_names := payee_names s |}.

Definition replace_row (r : Transactions) (l : list Transactions) : list Transactions :=
  map (λ r0, if Nat.eqb (id r0) (id r) then r else r0) l.

(** Modelled from the spec: the balance of an account in cents, the sum of
    its rows that are not deleted ([get_actual_balance] of
    [modules/account_fetcher.py] is not part of the sources). *)
Definition account_balance (account : string) (l : list Transactions) : Z :=
  foldr (λ r total, if negb (tombstone r) && bool_decide (acct r = account)
                    then amount r + total else total) 0 l.

(** *** The YNAB service, as the engine uses it *)

Definition ynab_known_import (budget_id : string) (t : YnabTransaction)
    (store : list (string * YnabTransaction)) : bool :=
  match y_import_id t with
  | None => false
  | Some _ =>
      existsb (λ bu, String.eqb bu.1 budget_id
                     && bool_decide (y_account_id bu.2 = y_account_id t)
                     && bool_decide (y_import_id bu.2 = y_import_id t)) store
  end.

(** Modelled from the spec: the answer to a batch POST. A transaction whose
    import id the budget already holds for that account is reported under
    [duplicate_import_ids] and not created; the others are created. The
    result is (created, duplicate_import_ids, new store). *)
Fixpoint ynab_import (budget_id : string) (sent : list YnabTransaction)
    (store : list (string * YnabTransaction))
    : list YnabTransaction * list (option string) * list (string * YnabTransaction) :=
  match sent with
  | [] => ([], [], store)
  | t :: sent' =>
      if ynab_known_import budget_id t store then
        let '(created, dups, store') := ynab_import budget_id sent' store in
        (created, y_import_id t :: dups, store')
      else
        let '(created, dups, store') := ynab_import budget_id sent' (store ++ [(budget_id, t)]) in
        (t :: created, dups, store')
  end.

(** Modelled from the spec: the balance of a YNAB account in milliunits
    ([get_ynab_balance] of [modules/account_fetcher.py] is not part of the
    sources). *)
Definition ynab_account_balance (budget_id account_id : string)
    (store : list (string * YnabTransaction)) : Z :=
  foldr (λ bu total, if String.eqb bu.1 budget_id
                        && bool_decide (y_account_id bu.2 = Some account_id)
                     then y_amount bu.2 + total else total) 0 store.

(** The account class [get_account_priority] sorts by. *)
Definition priority_of (e : MappingEntry) : Z :=
  if String.eqb (default "On Budget" (account_type e)) "On Budget" then 0 else 1.

(** ** The engine *)

Section Engine.

Context (env : Env).

Definition log (l : Level) (m : Msg) : M unit := modify (add_event (Log l m)).

(** An external call is recorded and counted; it raises [e] when the
    environment makes it fail. *)
Definition external (c : Call) (e : Exn) : M unit := λ w,
  let w' := count_call (add_event (Request c) w) in
  if fault env (calls w) then (Raise e, w') else (Ret tt, w').

Definition actual_call (op : ActualOp) : M unit :=
  external (ActualCall op) SessionError.

(** A reading of the wall clock. *)
Definition now : M nat := λ w, (Ret (clock w), tick w).

Definition entry_of (key : string) : M MappingEntry :=
  w <- get_world ;;
  of_option (lookup_entry key (mapping_list w)) (KeyError key).

(** *** modules/account_fetcher.py and modules/account_mapper.py *)

(** Modelled from the spec: [get_akahu_balance], the balance the source
    reports for an account, or [None]. *)
Definition get_akahu_balance (akahu_account_id : string) : M (option spec_float) :=
  external (AkahuGetBalance akahu_account_id) RequestException ;;;
  ret (akahu_account_balance env akahu_account_id).

(** Modelled from the spec: [get_ynab_balance], the balance of a
    destination-A account in milliunits. *)
Definition get_ynab_balance (ynab_budget_id ynab_account_id : string) : M Z :=
  external (YnabGetBalance ynab_budget_id ynab_account_id) RequestException ;;;
  w <- get_world ;;
  ret (ynab_account_balance ynab_budget_id ynab_account_id (ynab w)).

(** Modelled from the spec: [get_actual_balance], the balance of a
    destination-B account in cents. *)
Definition get_actual_balance (actual_account_id : string) : M Z :=
  actual_call GetBalance ;;;
  w <- get_world ;;
  ret (account_balance actual_account_id (rows (actual w))).

(** Modelled from the spec: [load_existing_mapping] reads the persisted
    mapping and [save_mapping] writes it; the three account lists of the
    file are written back as they were read and are left out. *)
Definition load_existing_mapping : M (gmap string MappingEntry) :=
  external LoadMapping SessionError ;;;
  w <- get_world ;;
  ret (mapping_file w).

Definition save_mapping (mappings : gmap string MappingEntry) : M unit :=
  external SaveMapping SessionError ;;;
  modify (set_mapping_file mappings).

(** *** The Actual client library *)

(** Modelled from the spec: [create_transaction] adds a row carrying the
    idempotency key, payee, memo and amount; the new row is pending
    until the session is flushed. *)
Definition create_transaction (date : Z) (account : string)
    (payee_name notes category : option string) (amount : Decimal)
    (imported_id : option string) (cleared : bool) (imported_payee : option string)
    : M Transactions :=
  actual_call CreateTransaction ;;;
  cents <- of_option (cents_of_decimal amount) ValueError ;;
  w <- get_world ;;
  let r := {| id := next_row (actual w); date := date; acct := account;
              payee := payee_name; notes := notes; category := category;
              amount := cents; financial_id := imported_id;
              imported_description := imported_payee; cleared := cleared;
              tombstone := false; pending := true |} in
  modify (set_actual (add_row r)) ;;;
  ret r.

(** Modelled from the spec: [match_transaction] looks for a match among
    the rows of the session and the transactions already materialised in
    this batch. It is a query of the session, which first flushes what is
    pending: from then on [changed()] answers no for every row there is,
    those of [already_matched] among them, which are rows of the
    session. *)
Definition match_transaction (date : Z) (account : string) (payee_name : option string)
    (amount : Decimal) (imported_id : option string) (already_matched : list Transactions)
    : M (option Transactions) :=
  actual_call MatchTransaction ;;;
  modify (set_actual (with_rows (map committed))) ;;;
  cents <- of_option (cents_of_decimal amount) ValueError ;;
  w <- get_world ;;
  ret (List.find (same_transaction account payee_name cents imported_id)
         (rows (actual w) ++ map committed already_matched)).

(** Modelled from the spec: [reconcile_transaction] with
    [update_existing=False], the only way the engine calls it: a match is
    returned as it is, otherwise a new row is created. *)
Definition reconcile_transaction (date : Z) (account : string)
    (payee_name notes : option string) (amount : Decimal) (imported_id : option string)
    (cleared : bool) (imported_payee : option string) (already_matched : list Transactions)
    : M Transactions :=
  found <- match_transaction date account payee_name amount imported_id already_matched ;;
  match found with
  | Some r => ret r
  | None =>
      create_transaction date account payee_name notes None amount imported_id cleared
        imported_payee
  end.

(** Modelled from the spec: [ruleset.run] mutates the transaction in the
    session. *)
Definition ruleset_run (rs : list Rule) (r : Transactions) : M Transactions :=
  let r' := run_rules rs r in
  modify (set_actual (with_rows (replace_row r'))) ;;;
  ret r'.

(** Modelled from the spec: [actual.commit()] flushes the pending changes
    and makes them durable. *)
Definition commit : M unit :=
  actual_call Commit ;;;
  modify (set_actual (with_rows (map committed))).

(** *** The YNAB service *)

Definition ynab_post_transactions (budget_id : string) (sent : list YnabTransaction)
    : M (list YnabTransaction * list (option string)) :=
  external (YnabPostTransactions budget_id sent) RequestException ;;;
  w <- get_world ;;
  let '(created, duplicates, store) := ynab_import budget_id sent (ynab w) in
  modify (set_ynab (λ _, store)) ;;;
  ret (created, duplicates).

Definition ynab_post_transaction (budget_id : string) (sent : YnabTransaction) : M unit :=
  external (YnabPostTransaction budget_id sent) RequestException ;;;
  modify (set_ynab (λ store, store ++ [(budget_id, sent)])).

(** *** modules/transaction_handler.py *)

Definition get_cached_names : M (list (option string * string) * list (string * string)) :=
  try_except
    (actual_call GetCategories ;;;
     w <- get_world ;;
     let categories := category_names (actual w) in
     let category_names :=
       map (λ c, (Some c.1, c.2)) categories ++ [(None, "Uncategorized")] in
     (if is_nil categories
      then log INFO (Text "No categories found in Actual Budget")
      else ret tt) ;;;
     actual_call GetPayees ;;;
     w <- get_world ;;
     let payees := payee_names (actual w) in
     (if is_nil payees
      then log INFO (Text "No payees found in Actual Budget")
      else ret tt) ;;;
     ret (category_names, payees))
    (λ e,
      log ERROR (Text "Error accessing Actual Budget database") ;;;
      raise (RuntimeError "Failed to access Actual Budget database")).

Definition log_balance_comparison (source_name : string) (source_balance : spec_float)
    (dest_name : string) (dest_balance : Decimal) (dest_in_cents : bool) : M unit :=
  source_cents <- of_option (cents_of_dollars (decimal_of_str env source_balance)) ValueError ;;
  dest_cents <- of_option
    (if dest_in_cents then pydecimal.to_int dest_balance
     else cents_of_dollars dest_balance) ValueError ;;
  log INFO (Text (String.concat ""
    ["Balances (in dollars) - "; source_name; ": $";
     format_grouped_2f env (Finite source_cents (-2)); " | "; dest_name; ": $";
     format_grouped_2f env (Finite dest_cents (-2))])).

(** One turn of the [while] loop of [get_all_akahu] per unit of fuel.
    [next_cursor] starts as ["first time"]; [cursor_param] is
    [query_params["cursor"]], which is only set from the second request
    on. The result is [res] with [total_txn]. *)
Fixpoint get_all_akahu_pages (fuel : nat) (akahu_account_id start next_cursor : string)
    (cursor_param : option string) (res : option (list AkahuTxn)) (total_txn : nat)
    : M (list AkahuTxn * nat) :=
  match fuel with
  | O => spin
  | S fuel' =>
      let cursor_param :=
        if String.eqb next_cursor "first time" then cursor_param else Some next_cursor in
      akahu_txn_json <-
        try_except
          (external (AkahuGetTransactions akahu_account_id start cursor_param)
             RequestException ;;;
           ret (akahu_page env akahu_account_id start cursor_param))
          (λ e,
            match e with
            | RequestException =>
                log ERROR (Text "Failed to fetch transactions from Akahu") ;;;
                raise (RuntimeError "Failed to fetch Akahu transactions")
            | _ => raise e
            end) ;;
      let akahu_txn := items akahu_txn_json in
      let res := match res with
                 | None => akahu_txn
                 | Some r => r ++ akahu_txn
                 end in
      let num_txn := length akahu_txn in
      let total_txn := (total_txn + num_txn)%nat in
      (* has_more_pages, and the cursor that follows *)
      next_cursor <-
        (if is_nil akahu_txn then ret None
         else match cursor akahu_txn_json with
              | None => ret None
              | Some CursorNull => raise TypeError
              | Some (CursorObj None) => ret None
              | Some (CursorObj (Some next)) => ret next
              end) ;;
      match next_cursor with
      | Some next =>
          get_all_akahu_pages fuel' akahu_account_id start next cursor_param (Some res)
            total_txn
      | None => ret (res, total_txn)
      end
  end.

(** [get_all_akahu]; [fuel] bounds the number of page requests. The
    endpoint and the headers are those of the environment. *)
Definition get_all_akahu (fuel : nat) (akahu_account_id : string)
    (last_reconciled_at : option string) : M (list AkahuTxn) :=
  start <-
    (if truthy_str last_reconciled_at
     then of_option (week_before env (default "" last_reconciled_at)) ValueError
     else ret "2025-05-05T00:00:00Z") ;;
  fetched <- get_all_akahu_pages fuel akahu_account_id start "first time" None None 0 ;;
  (if (0 <? fetched.2)%nat
   then log INFO (Text "Fetched transactions from Akahu.")
   else ret tt) ;;;
  ret fetched.1.

(** [get_payee_name]. On a merchant that is a string, ["name" in ...] is
    a search for the substring and [...["name"]] raises [TypeError]; on a
    number, ["name" in ...] raises it. *)
Definition get_payee_name (row : AkahuTxn) : M (option string) :=
  try_except
    (res <-
       match txn_merchant row with
       | Some (MerchantObject (Some name)) => ret name
       | Some (MerchantObject None) => ret None
       | Some (MerchantString s) =>
           if String.index 0 "name" s is Some _ then raise TypeError else ret None
       | Some MerchantNumber => raise TypeError
       | None => ret None
       end ;;
     match res with
     | Some name => ret (Some name)
     | None => getitem "description" (txn_description row)
     end)
    (λ e,
      match e with
      | TypeError | ValueError =>
          log ERROR (Text "Error extracting payee name from row") ;;;
          ret (Some "Unknown")
      | _ => raise e
      end).

(** [convert_to_nzt]: the ["%Y-%m-%d"] string it returns is modelled by
    the number of the calendar day. On a NaN, ["." in date_str] raises
    [TypeError]; the sum with the thirteen hours raises [OverflowError]
    past [datetime.max]; only a [ValueError] is handled. *)
Definition convert_to_nzt (date_str : DateValue) : M (option Z) :=
  match date_str with
  | DateNone => log WARNING (Text "Input date string is None.") ;;; ret None
  | DateNaN => raise TypeError
  | DateStr date_str =>
      match strptime env (strip_milliseconds date_str) with
      | Some utc_time =>
          if utc_time + 13 * 3600 <=? datetime_max
          then ret (Some ((utc_time + 13 * 3600) / 86400))
          else raise OverflowError
      | None => log ERROR (Text "Error converting date string to NZT") ;;; ret None
      end
  end.

(** The body of the [for] loop of [load_transactions_into_actual] for one
    row; the result is [imported_transactions] after the turn. *)
Definition load_one_into_actual (actual_account_id : string) (ruleset : option (list Rule))
    (debug_mode : option string) (txn : AkahuTxn) (imported_transactions : list Transactions)
    : M (list Transactions) :=
  let transaction_date := cell_get (txn_date txn) DateNone in
  let payee_name := cell_get (txn_description txn) None in
  let notes := cell_get (txn_description txn) None in
  x <- of_option (cell_get (txn_amount txn) None) TypeError ;;
  amount <- of_option (quantized_amount x) InvalidOperation ;;
  let imported_id := cell_get (txn_id txn) None in
  let cleared := true in
  reconciled <-
    try_except
      (nzt_date_str <- convert_to_nzt transaction_date ;;
       parsed_date <- of_option nzt_date_str TypeError ;;
       (if bool_decide (debug_mode = Some "all") || bool_decide (debug_mode = imported_id)
        then log INFO (Text "Processing transaction")
        else ret tt) ;;;
       reconciled_transaction <-
         (if bool_decide (debug_mode = imported_id) then
            log INFO (Text "DEBUG: Verbose logging for transaction") ;;;
            actual_call GetAccount ;;;
            let account := actual_account_id in
            found <- match_transaction parsed_date account payee_name amount imported_id
                       imported_transactions ;;
            log INFO (Text "DEBUG: Looking for matching transaction...") ;;;
            match found with
            | Some matched =>
                log INFO (Text "DEBUG: Found duplicate - not updating fields") ;;;
                ret matched
            | None =>
                log INFO (Text "DEBUG: No matching transaction found, will create new") ;;;
                create_transaction parsed_date account payee_name notes None amount
                  imported_id cleared payee_name
            end
          else
            reconcile_transaction parsed_date actual_account_id payee_name notes amount
              imported_id cleared payee_name imported_transactions) ;;
       if negb (pending reconciled_transaction) then
         (if bool_decide (debug_mode = imported_id)
          then log INFO (Text "DEBUG: Transaction was not modified")
          else if bool_decide (debug_mode = Some "all")
          then log INFO (Text "Skipped duplicate transaction")
          else log DEBUG (Text "Transaction already exists, skipping rule application and import.")) ;;;
         ret None                                    (* continue *)
       else
         after_rules <-
           match ruleset with
           | Some rs =>
               let pre_rules_state := reconciled_transaction in
               post_rules_state <- ruleset_run rs reconciled_transaction ;;
               (if bool_decide (committed pre_rules_state = committed post_rules_state)
                then log DEBUG (Text "Rules did not modify transaction")
                else log INFO (Text "Rules modified transaction")) ;;;
               ret post_rules_state
           | None => ret reconciled_transaction
           end ;;
         ret (Some (parsed_date, after_rules)))
      (λ e,
        log ERROR (Text "Failed to reconcile transaction into Actual") ;;;
        raise (RuntimeError "Failed to process transaction into Actual")) ;;
  match reconciled with
  | None => ret imported_transactions
  | Some (parsed_date, reconciled_transaction) =>
      if pending reconciled_transaction then
        log INFO (Text "Imported new transaction") ;;;
        (if bool_decide (notes = payee_name) then ret tt
         else log DEBUG (Text "Transaction notes")) ;;;
        ret (imported_transactions ++ [reconciled_transaction])
      else
        log INFO (Text "Skipped existing transaction") ;;;
        ret imported_transactions
  end.

(** The [try] block around [get_ruleset] in
    [load_transactions_into_actual]: no rule set is a valid state, a
    failing read aborts. *)
Definition get_ruleset_or_abort : M (option (list Rule)) :=
  try_except
    (actual_call GetRuleset ;;;
     w <- get_world ;;
     let ruleset := ruleset (actual w) in
     (if ruleset is None
      then log INFO (Text "No ruleset found in Actual Budget")
      else ret tt) ;;;
     ret ruleset)
    (λ e,
      log ERROR (Text "Database error while getting ruleset") ;;;
      raise (RuntimeError "Failed to access Actual Budget database")).

(** [load_transactions_into_actual]. [mapping_entry] is the key of the
    shared entry; the result is [None] for the bare [return] and
    [Some n] for [len(imported_transactions)]. *)
Definition load_transactions_into_actual (transactions : list AkahuTxn)
    (mapping_entry : string) (debug_mode : option string) : M (option Z) :=
  if is_nil transactions then
    log INFO (Text "No transactions to load into Actual.") ;;;
    ret None
  else
    entry <- entry_of mapping_entry ;;
    actual_account_id <- of_option (actual_account_id entry) (KeyError "actual_account_id") ;;
    names <- get_cached_names ;;
    ruleset <- get_ruleset_or_abort ;;
    imported_transactions <-
      for_each transactions (load_one_into_actual actual_account_id ruleset debug_mode) [] ;;
    t <- now ;;
    modify (set_mapping_list
              (update_entry mapping_entry (set_actual_synced_datetime (utc_stamp env t)))) ;;;
    try_except
      (commit ;;;
       log INFO (Text "Successfully committed changes to Actual Budget"))
      (λ e,
        log ERROR (Text "Failed to commit changes to Actual Budget") ;;;
        raise (RuntimeError "Failed to commit changes to Actual")) ;;;
    ret (Some (Z.of_nat (length imported_transactions))).

(** [handle_tracking_account_actual]. The quotient
    [(akahu_balance_cents - actual_balance_cents) / 100] is kept as the
    exact two-digit decimal it stands for. *)
Definition handle_tracking_account_actual (mapping_entry : string) : M Z :=
  entry <- entry_of mapping_entry ;;
  actual_account_id <- of_option (actual_account_id entry) (KeyError "actual_account_id") ;;
  akahu_account_name <- of_option (akahu_name entry) (KeyError "akahu_name") ;;
  try_except
    (akahu_balance_dollars <- of_option (akahu_balance entry) (KeyError "akahu_balance") ;;
     actual_balance_cents <- get_actual_balance actual_account_id ;;
     log_balance_comparison "Akahu" akahu_balance_dollars "Actual"
       (Finite actual_balance_cents 0) true ;;;
     akahu_balance_cents <-
       of_option (cents_of_dollars (decimal_of_str env akahu_balance_dollars)) ValueError ;;
     if bool_decide (akahu_balance_cents ≠ actual_balance_cents) then
       let adjustment_dollars := Finite (akahu_balance_cents - actual_balance_cents) (-2) in
       t <- now ;;
       let transaction_date := utc_day env t in
       let payee_name := "Balance Adjustment" in
       let old_balance := format_grouped_2f env (Finite actual_balance_cents (-2)) in
       let new_balance := format_grouped_2f env (Finite akahu_balance_cents (-2)) in
       let notes := String.concat ""
         ["Adjusted from $"; old_balance; " to $"; new_balance;
          " to reconcile tracking account"] in
       t' <- now ;;
       create_transaction transaction_date actual_account_id (Some payee_name) (Some notes)
         None adjustment_dollars (Some (String.append "adjustment_" (utc_stamp env t')))
         true (Some payee_name) ;;;
       try_except
         (commit ;;;
          log INFO (Text "Created and committed balance adjustment transaction") ;;;
          ret 1)
         (λ e,
           log ERROR (Text "Failed to commit balance adjustment to Actual Budget") ;;;
           raise (RuntimeError "Failed to commit balance adjustment to Actual"))
     else ret 0)
    (λ e,
      log ERROR (Text (String.append "Error handling tracking account " akahu_account_name)) ;;;
      raise e).

(** [clean_txn_for_ynab]: the columns are computed one after the other,
    each over all rows. On a frame without rows, and so without columns,
    [apply] gives an empty frame, which cannot be assigned to a column:
    [ValueError]. The selection of the columns raises [KeyError] for those
    that the frame does not have. The ["amount"] column holds
    [str(int(x * 1000))], the decimal text of an integer, modelled by that
    integer. *)
Definition clean_txn_for_ynab (akahu_txn : list AkahuTxn) (ynab_account_id : option string)
    : M (list YnabTransaction) :=
  if is_nil akahu_txn then raise ValueError
  else
    payee_names <- map_m get_payee_name akahu_txn ;;
    memos <- map_m (λ row, getitem "description" (txn_description row)) akahu_txn ;;
    useful <- map_m (λ row,
                id <- getitem "_id" (txn_id row) ;;
                date <- getitem "date" (txn_date row) ;;
                amount <- getitem "amount" (txn_amount row) ;;
                ret (id, date, amount)) akahu_txn ;;
    amounts <- map_m (λ u,
                 x <- of_option u.2 TypeError ;;
                 of_option (milliunits x)
                   (int_refuses (pyfloat.mul x (pyfloat.of_int 1000)))) useful ;;
    dates <- map_m (λ u, convert_to_nzt u.1.2) useful ;;
    ret (map (λ c,
           let '(u, payee_name, memo, amount, date) := c in
           {| y_account_id := ynab_account_id; y_date := date; y_amount := amount;
              y_payee_name := payee_name; y_memo := memo;
              y_import_id := u.1.1; y_cleared := "cleared"; y_flag_color := "red";
              y_approved := false |})
         (zip (zip (zip (zip useful payee_names) memos) amounts) dates)).

Definition load_transactions_into_ynab (akahu_txn : list YnabTransaction)
    (ynab_budget_id ynab_account_id : string) (debug_mode : option string) : M Z :=
  let transactions_list := akahu_txn in
  (if bool_decide (debug_mode = Some "all")
   then for_each transactions_list (λ _ _, log INFO (Text "Processing transaction")) tt
   else ret tt) ;;;
  ynab_response <-
    try_except (ynab_post_transactions ynab_budget_id transactions_list)
      (λ e,
        match e with
        | RequestException =>
            log ERROR (Text "Failed to post transactions to YNAB") ;;;
            raise (RuntimeError "Failed to load transactions into YNAB")
        | _ => raise e
        end) ;;
  let duplicates := ynab_response.2 in
  let new_txns := ynab_response.1 in
  (if is_nil duplicates then ret tt
   else if bool_decide (debug_mode = Some "all")
   then log INFO (Text "Skipped duplicates")
   else ret tt) ;;;
  (if is_nil new_txns
   then log INFO (Text "No new transactions loaded to YNAB")
   else log INFO (Text "Successfully loaded transactions to YNAB")) ;;;
  ret (Z.of_nat (length new_txns)).

(** [create_adjustment_txn_ynab]; both balances are in milliunits. *)
Definition create_adjustment_txn_ynab (ynab_budget_id ynab_account_id : string)
    (akahu_balance ynab_balance : Z) : M unit :=
  try_except
    (let balance_difference := akahu_balance - ynab_balance in
     if balance_difference =? 0 then
       log INFO (Text "No adjustment needed; balances are already in sync.")
     else
       t <- now ;;
       let transaction :=
         {| y_account_id := Some ynab_account_id;
            y_date := Some (local_day env t);
            y_amount := balance_difference;
            y_payee_name := Some "Balance Adjustment";
            y_memo := Some (String.concat ""
              ["Adjusted from $"; format_2f env (Finite ynab_balance (-3)); " to $";
               format_2f env (Finite akahu_balance (-3)); " based on retrieved balance"]);
            y_import_id := None;
            y_cleared := "cleared";
            y_flag_color := "red";
            y_approved := true |} in
       ynab_post_transaction ynab_budget_id transaction ;;;
       log INFO (Text "Created YNAB balance adjustment transaction"))
    (λ e,
      match e with
      | RequestException =>
          log ERROR (Text "Failed to create balance adjustment transaction") ;;;
          raise e
      | _ => raise e
      end).

(** *** modules/sync_handler.py *)

Definition get_account_priority (account_entry : string * MappingEntry) : M Z :=
  let account_type := default "On Budget" (account_type account_entry.2) in
  if String.eqb account_type "On Budget" then ret 0
  else if String.eqb account_type "Tracking" then ret 1
  else
    log WARNING (UnknownTypeTreatedAsTracking account_type) ;;;
    ret 1.

(** One turn of a loop of [update_mapping_timestamps]: the entry of
    [akahu_id], when the mapping has one that is not flagged, gets the
    timestamp. *)
Definition stamp_synced (do_not_map : MappingEntry → option bool)
    (stamp : MappingEntry → MappingEntry) (akahu_id : string)
    (mappings : gmap string MappingEntry) : gmap string MappingEntry :=
  match mappings !! akahu_id with
  | Some e => if truthy_flag (do_not_map e) then mappings else <[akahu_id := stamp e]> mappings
  | None => mappings
  end.

(** [update_mapping_timestamps] on the default mapping file; an argument
    left out is [None]. *)
Definition update_mapping_timestamps (successful_ab_syncs successful_ynab_syncs : option (gset string))
    : M unit :=
  mappings <- load_existing_mapping ;;
  t <- now ;;
  let current_time := utc_stamp env t in
  let mappings :=
    match successful_ab_syncs with
    | Some ids =>
        set_fold (stamp_synced actual_do_not_map (set_actual_synced_datetime current_time))
          mappings ids
    | None => mappings
    end in
  let mappings :=
    match successful_ynab_syncs with
    | Some ids =>
        set_fold (stamp_synced ynab_do_not_map (set_ynab_synced_datetime current_time))
          mappings ids
    | None => mappings
    end in
  save_mapping mappings.

(** The body of the [for] loop of [sync_to_ynab]; the accumulator is
    [(successful_syncs, transactions_uploaded)]. *)
Definition sync_to_ynab_account (fuel : nat) (debug_mode : option string)
    (item : string * MappingEntry) (acc : gset string * Z) : M (gset string * Z) :=
  let akahu_account_id := item.1 in
  let mapping_entry := item.2 in
  let successful_syncs := acc.1 in
  let transactions_uploaded := acc.2 in
  let ynab_budget_id := ynab_budget_id mapping_entry in
  let ynab_account_id := ynab_account_id mapping_entry in
  let account_type := default "On Budget" (account_type mapping_entry) in
  let last_reconciled_at := default "2025-05-05T00:00:00Z" (ynab_synced_datetime mapping_entry) in
  if truthy_flag (ynab_do_not_map mapping_entry) then
    log DEBUG (SkipDoNotMap YNAB akahu_account_id) ;;;
    ret acc                                                     (* continue *)
  else if negb (truthy_str ynab_budget_id && truthy_str ynab_account_id) then
    log WARNING (SkipMissingIds YNAB akahu_account_id) ;;;
    ret acc                                                     (* continue *)
  else
    let budget_id := default "" ynab_budget_id in
    let account_id := default "" ynab_account_id in
    log INFO (Processing YNAB akahu_account_id) ;;;
    log INFO (LastSynced last_reconciled_at) ;;;
    if String.eqb account_type "Tracking" then
      log INFO (Text "Working on tracking account") ;;;
      akahu_balance <- get_akahu_balance akahu_account_id ;;
      modify (set_mapping_list (update_entry akahu_account_id (set_akahu_balance akahu_balance))) ;;;
      ynab_balance_milliunits <- get_ynab_balance budget_id account_id ;;
      akahu_balance <- get_akahu_balance akahu_account_id ;;
      (* [str(None)] is no decimal: the comparison raises on a missing balance *)
      akahu_balance <- of_option akahu_balance InvalidOperation ;;
      log_balance_comparison "Akahu" akahu_balance "YNAB"
        (Finite ynab_balance_milliunits (-3)) false ;;;
      akahu_balance_milliunits <- of_option (milliunits akahu_balance) ValueError ;;
      transactions_uploaded <-
        (if bool_decide (ynab_balance_milliunits ≠ akahu_balance_milliunits) then
           create_adjustment_txn_ynab budget_id account_id akahu_balance_milliunits
             ynab_balance_milliunits ;;;
           log INFO (Text "Created balance adjustment") ;;;
           ret (transactions_uploaded + 1)
         else ret transactions_uploaded) ;;
      ret ({[akahu_account_id]} ∪ successful_syncs, transactions_uploaded)
    else if String.eqb account_type "On Budget" then
      akahu_df <- get_all_akahu fuel akahu_account_id (Some last_reconciled_at) ;;
      if negb (is_nil akahu_df) then
        cleaned_txn <- clean_txn_for_ynab akahu_df ynab_account_id ;;
        uploaded <- load_transactions_into_ynab cleaned_txn budget_id account_id debug_mode ;;
        ret ({[akahu_account_id]} ∪ successful_syncs, transactions_uploaded + uploaded)
      else ret acc
    else
      log ERROR (UnknownTypeForAccount akahu_account_id) ;;;
      ret acc.

(** The loop of [sync_to_ynab] over the sorted accounts. *)
Definition sync_to_ynab_accounts (fuel : nat) (debug_mode : option string)
    (sorted_accounts : list (string * MappingEntry)) : M (gset string * Z) :=
  for_each sorted_accounts (sync_to_ynab_account fuel debug_mode) (∅, 0).

(** [sync_to_ynab]; [mapping_list] is the one of the world. *)
Definition sync_to_ynab (fuel : nat) (debug_mode : option string) : M Z :=
  w <- get_world ;;
  sorted_accounts <- sorted (mapping_list w) get_account_priority ;;
  done <- sync_to_ynab_accounts fuel debug_mode sorted_accounts ;;
  let successful_syncs := done.1 in
  let transactions_uploaded := done.2 in
  (if bool_decide (successful_syncs ≠ ∅)
   then update_mapping_timestamps None (Some successful_syncs)
   else ret tt) ;;;
  ret transactions_uploaded.

(** The body of the [for] loop of [sync_to_ab]; the accumulator is
    [(successful_ab_syncs, transactions_uploaded)]. The bare [raise] of the
    last branch has no exception to re-raise: the interpreter raises a
    [RuntimeError]. *)
Definition sync_to_ab_account (fuel : nat) (debug_mode : option string)
    (item : string * MappingEntry) (acc : gset string * Z) : M (gset string * Z) :=
  let akahu_account_id := item.1 in
  let mapping_entry := item.2 in
  let successful_ab_syncs := acc.1 in
  let transactions_uploaded := acc.2 in
  let account_type := default "On Budget" (account_type mapping_entry) in
  let last_reconciled_at :=
    default "2025-05-05T00:00:00Z" (actual_synced_datetime mapping_entry) in
  if truthy_flag (actual_do_not_map mapping_entry) then
    log DEBUG (SkipDoNotMap ActualBudget akahu_account_id) ;;;
    ret acc                                                     (* continue *)
  else if negb (truthy_str (actual_budget_id mapping_entry)
                && truthy_str (actual_account_id mapping_entry)) then
    log WARNING (SkipMissingIds ActualBudget akahu_account_id) ;;;
    ret acc                                                     (* continue *)
  else
    log INFO (Processing ActualBudget akahu_account_id) ;;;
    log INFO (LastSynced last_reconciled_at) ;;;
    if String.eqb account_type "Tracking" then
      akahu_balance <- get_akahu_balance akahu_account_id ;;
      match akahu_balance with
      | None =>
          name <- of_option (akahu_name mapping_entry) (KeyError "akahu_name") ;;
          log ERROR (NoBalanceForTracking name) ;;;
          ret acc                                               (* continue *)
      | Some _ =>
          modify (set_mapping_list
                    (update_entry akahu_account_id (set_akahu_balance akahu_balance))) ;;;
          adjusted <- handle_tracking_account_actual akahu_account_id ;;
          ret ({[akahu_account_id]} ∪ successful_ab_syncs, transactions_uploaded + adjusted)
      end
    else if String.eqb account_type "On Budget" then
      akahu_df <- get_all_akahu fuel akahu_account_id (Some last_reconciled_at) ;;
      if negb (is_nil akahu_df) then
        log INFO (Text "About to load transactions into Actual Budget...") ;;;
        loaded <- load_transactions_into_actual akahu_df akahu_account_id debug_mode ;;
        loaded <- of_option loaded TypeError ;;
        ret ({[akahu_account_id]} ∪ successful_ab_syncs, transactions_uploaded + loaded)
      else ret acc
    else
      log ERROR (UnknownTypeForAccount akahu_account_id) ;;;
      raise (RuntimeError "No active exception to reraise").

(** The loop of [sync_to_ab] over the sorted accounts. *)
Definition sync_to_ab_accounts (fuel : nat) (debug_mode : option string)
    (sorted_accounts : list (string * MappingEntry)) : M (gset string * Z) :=
  for_each sorted_accounts (sync_to_ab_account fuel debug_mode) (∅, 0).

(** [sync_to_ab]; [actual] and [mapping_list] are those of the world.
    Closing the session of the client has no counterpart in the model. *)
Definition sync_to_ab (fuel : nat) (debug_mode : option string) : M Z :=
  (if FORCE_REFRESH env then
     log INFO (Text "Force refresh requested") ;;;
     actual_call DownloadBudget ;;;
     actual_call Sync ;;;
     log INFO (Text "Budget refresh complete")
   else ret tt) ;;;
  w <- get_world ;;
  sorted_accounts <- sorted (mapping_list w) get_account_priority ;;
  done <- sync_to_ab_accounts fuel debug_mode sorted_accounts ;;
  let successful_ab_syncs := done.1 in
  let transactions_uploaded := done.2 in
  let any_transactions_processed := 0 <? transactions_uploaded in
  (if any_transactions_processed then
     (if DEBUG_SYNC env
      then log INFO (Text "Finished processing all accounts, about to commit...")
      else ret tt) ;;;
     try_except
       (commit ;;;
        (if DEBUG_SYNC env then log INFO (Text "Commit result") else ret tt) ;;;
        t <- now ;;
        actual_call SyncSync ;;;
        (if DEBUG_SYNC env then log INFO (Text "Sync changes") else ret tt) ;;;
        actual_call DownloadUserFile ;;;
        (if DEBUG_SYNC env then log INFO (Text "Downloaded budget size") else ret tt) ;;;
        actual_call DownloadBudget)
       (λ e,
         log ERROR (Text "Error during commit") ;;;
         log ERROR (Text "Error type") ;;;
         raise e)
   else ret tt) ;;;
  (if bool_decide (successful_ab_syncs ≠ ∅)
   then update_mapping_timestamps (Some successful_ab_syncs) None
   else ret tt) ;;;
  ret transactions_uploaded.

End Engine.

(** ** Reports and endpoints *)

(** [max(xs, default=d)] on strings: the first of the greatest, in the
    order of the code points. *)
Definition max_str (xs : list string) (default : string) : string :=
  match xs with
  | [] => default
  | x :: xs' => fold_left (λ best y, if String.ltb best y then y else best) xs' x
  end.

(** The members of the JSON body of a report. *)
Record Stats := {
  accounts : nat;
  transactions_created : Z;
  last_sync : string;
}.

(** ["summary"] is a text built from the time of the report and from the
    numbers of the two [Stats]; it is kept as the time it holds. *)
Record Report := {
  stats_actual : Stats;
  stats_ynab : Stats;
  summary : string;
}.

(** What an endpoint answers: [(jsonify(report), 200)], or
    [(jsonify({"status": "error", "error": str(e)}), 500)]. *)
Inductive Response :=
| Success (report : Report)
| Failure (e : Exn).

Section Endpoints.

Context (env : Env).

(** [datetime.now().isoformat()] at the n-th reading of the clock. *)
Context (isoformat : nat → string).

(** The configuration flags of [modules/config.py], and the order in which
    the items of the mapping file come out of [load_existing_mapping]. *)
Context (RUN_SYNC_TO_AB RUN_SYNC_TO_YNAB : bool).
Context (items_of : gmap string MappingEntry → list (string * MappingEntry)).

(** *** modules/sync_status.py *)

Definition generate_sync_report (mapping_list : list (string * MappingEntry))
    (actual_count ynab_count : Z) : M Response :=
  let values := map snd mapping_list in
  (* sum(1 for m in values if ...) *)
  let actual_accounts :=
    fold_left (λ total m,
                 if truthy_str (actual_account_id m) && negb (truthy_flag (actual_do_not_map m))
                 then (total + 1)%nat else total) values 0%nat in
  let ynab_accounts :=
    fold_left (λ total m,
                 if truthy_str (ynab_account_id m) && negb (truthy_flag (ynab_do_not_map m))
                 then (total + 1)%nat else total) values 0%nat in
  let actual_last_sync :=
    max_str (map (λ m, default "2025-05-05T00:00:00Z" (actual_synced_datetime m))
               (List.filter (λ m, truthy_str (actual_account_id m)) values)) "Never" in
  let ynab_last_sync :=
    max_str (map (λ m, default "2025-05-05T00:00:00Z" (ynab_synced_datetime m))
               (List.filter (λ m, truthy_str (ynab_account_id m)) values)) "Never" in
  t <- now ;;
  ret (Success
         {| stats_actual := {| accounts := actual_accounts;
                               transactions_created := actual_count;
                               last_sync := actual_last_sync |};
            stats_ynab := {| accounts := ynab_accounts;
                             transactions_created := ynab_count;
                             last_sync := ynab_last_sync |};
            summary := isoformat t |}).

(** *** modules/webhook_handler.py *)

(** The endpoint [/sync]. The mapping it loads is the one it hands to the
    two passes: it becomes the [mapping_list] of the world. *)
Definition run_full_sync (fuel : nat) : M Response :=
  let actual_count := 0 in
  let ynab_count := 0 in
  try_except
    (mappings <- load_existing_mapping env ;;
     modify (set_mapping_list (λ _, items_of mappings)) ;;;
     actual_count <-
       (if RUN_SYNC_TO_AB then
          actual_call env DownloadBudget ;;;
          sync_to_ab env fuel None
        else ret actual_count) ;;
     ynab_count <-
       (if RUN_SYNC_TO_YNAB then sync_to_ynab env fuel None else ret ynab_count) ;;
     w <- get_world ;;
     generate_sync_report (mapping_list w) actual_count ynab_count)
    (λ e,
      log ERROR (Text "Sync failed") ;;;
      ret (Failure e)).

(** The body of the first loop of the endpoint [/transactions]; the
    accumulator is [all_transactions], each batch with the name of its
    account. *)
Definition view_transactions_account (fuel : nat) (item : string * MappingEntry)
    (all_transactions : list (string * list AkahuTxn)) : M (list (string * list AkahuTxn)) :=
  let akahu_account_id := item.1 in
  let mapping_entry := item.2 in
  let akahu_account_name := default "Unknown Account" (akahu_name mapping_entry) in
  let last_synced :=
    default (default "2025-05-05T00:00:00Z" (ynab_synced_datetime mapping_entry))
      (actual_synced_datetime mapping_entry) in
  if truthy_flag (actual_do_not_map mapping_entry)
     && truthy_flag (ynab_do_not_map mapping_entry) then
    ret all_transactions                                        (* continue *)
  else
    try_except
      (transactions_df <- get_all_akahu env fuel akahu_account_id (Some last_synced) ;;
       if negb (is_nil transactions_df)
       then ret (all_transactions ++ [(akahu_account_name, transactions_df)])
       else ret all_transactions)
      (λ e,
        log ERROR (Text "Error fetching transactions") ;;;
        ret all_transactions).                                  (* continue *)

(** The first part of [view_transactions]: the mapping is loaded and the
    transactions of every account are fetched. *)
Definition view_transactions_fetch (fuel : nat) : M (list (string * list AkahuTxn)) :=
  mappings <- load_existing_mapping env ;;
  for_each (items_of mappings) (view_transactions_account fuel) [].

End Endpoints.


(** ** Sample data

    A small environment and world on which the statements below are
    exercised. *)

Module sample.

(** The binary64 numbers nearest to 2.01, 12.345 and 100.0. *)
Definition f2_01 : spec_float := S754_finite false 0x10147ae147ae14 (-51).
Definition f12_345 : spec_float := S754_finite false 0x18b0a3d70a3d71 (-49).
Definition f100 : spec_float := S754_finite false 0x19000000000000 (-46).

Definition txn (i d : string) (x : spec_float) : AkahuTxn :=
  {| txn_id := Holds (Some i); txn_date := Holds (DateStr "2025-06-01T10:00:00Z");
     txn_description := Holds (Some d); txn_amount := Holds (Some x);
     txn_merchant := None |}.

Definition entry (type : option string) (actual_id ynab_id : option string)
    (actual_flag : option bool) (balance : option spec_float) : MappingEntry :=
  {| akahu_name := Some "Everyday"; account_type := type;
     actual_budget_id := Some "budget-b"; actual_account_id := actual_id;
     actual_account_name := Some "Everyday (Actual)"; actual_do_not_map := actual_flag;
     actual_synced_datetime := None;
     ynab_budget_id := Some "budget-a"; ynab_account_id := ynab_id;
     ynab_account_name := Some "Everyday (YNAB)"; ynab_do_not_map := None;
     ynab_synced_datetime := None; akahu_balance := balance |}.

(** Akahu serves two pages for account ["acc_1"], one transaction each;
    for account ["acc_4"] it has one transaction, of January 2025, which it
    serves to a reader whose window starts then and not to one whose
    window starts later; it has nothing for the other accounts. The
    balance of every account is 100 dollars. *)
Definition page (account start : string) (cursor : option string) : Page :=
  if String.eqb account "acc_1" then
    match cursor with
    | None => {| items := [txn "t1" "COFFEE" f2_01];
                 cursor := Some (CursorObj (Some (Some "page-2"))) |}
    | Some _ => {| items := [txn "t2" "BOOKS" f12_345]; cursor := None |}
    end
  else if String.eqb account "acc_4" && String.eqb start "2025-01-01T00:00:00Z" then
    {| items := [txn "t0" "RENT" f100]; cursor := None |}
  else {| items := []; cursor := Some (CursorObj (Some None)) |}.

Definition env : Env :=
  {| FORCE_REFRESH := false; DEBUG_SYNC := false;
     akahu_page := page;
     akahu_account_balance := λ _, Some f100;
     fault := λ _, false;
     utc_stamp := λ _, "2025-06-02T00:00:00Z";
     utc_day := λ _, 20241;
     local_day := λ _, 20241;
     strptime := λ _, Some 1748772000;
     week_before := λ _, Some "2025-04-28T00:00:00Z";
     decimal_of_str := from_float;
     format_2f := λ _, "0.00";
     format_grouped_2f := λ _, "0.00" |}.

(** The same environment, in which the [k]-th external call fails. *)
Definition env_failing (k : nat) : Env :=
  {| FORCE_REFRESH := false; DEBUG_SYNC := false;
     akahu_page := page;
     akahu_account_balance := λ _, Some f100;
     fault := λ n, Nat.eqb n k;
     utc_stamp := λ _, "2025-06-02T00:00:00Z";
     utc_day := λ _, 20241;
     local_day := λ _, 20241;
     strptime := λ _, Some 1748772000;
     week_before := λ _, Some "2025-04-28T00:00:00Z";
     decimal_of_str := from_float;
     format_2f := λ _, "0.00";
     format_grouped_2f := λ _, "0.00" |}.

(** The same environment, in which Akahu reports no balance. *)
Definition env_without_balance : Env :=
  {| FORCE_REFRESH := false; DEBUG_SYNC := false;
     akahu_page := page;
     akahu_account_balance := λ _, None;
     fault := λ _, false;
     utc_stamp := λ _, "2025-06-02T00:00:00Z";
     utc_day := λ _, 20241;
     local_day := λ _, 20241;
     strptime := λ _, Some 1748772000;
     week_before := λ _, Some "2025-04-28T00:00:00Z";
     decimal_of_str := from_float;
     format_2f := λ _, "0.00";
     format_grouped_2f := λ _, "0.00" |}.

Definition session : Session :=
  {| rows := []; next_row := 0; ruleset := None; category_names := []; payee_names := [] |}.

Definition world (mappings : list (string * MappingEntry)) : World :=
  {| actual := session; ynab := []; mapping_file := list_to_map mappings;
     mapping_list := mappings; trace := []; calls := 0; clock := 0 |}.

(** A budget with one rule, which files every coffee under a category. *)
Definition coffee_rule : Rule :=
  {| condition := λ r, bool_decide (payee r = Some "COFFEE");
     action := SetCategory (Some "eating-out") |}.

Definition world_with_rules (mappings : list (string * MappingEntry)) : World :=
  set_actual (λ s, {| rows := rows s; next_row := next_row s; ruleset := Some [coffee_rule];
                      category_names := [("eating-out", "Eating out")];
                      payee_names := payee_names s |})
    (world mappings).

(** A budget with one rule, which rewrites every coffee. *)
Definition rewriting_rule (m : Mutation) : Rule :=
  {| condition := λ r, bool_decide (imported_description r = Some "COFFEE");
     action := m |}.

Definition world_with_rule (rule : Rule) (mappings : list (string * MappingEntry)) : World :=
  set_actual (λ s, {| rows := rows s; next_row := next_row s; ruleset := Some [rule];
                      category_names := category_names s;
                      payee_names := [("cafe", "Cafe")] |})
    (world mappings).

End sample.

(** * The vocabulary of the statements *)

(** [preserves R m]: a run of [m], whatever its outcome, takes a world to
    one related to it by [R]. *)
Definition preserves {A} (R : World → World → Prop) (m : M A) : Prop :=
  ∀ w, R w (m w).2.

(** What an event of the trace is about: the turn of a pass to an account,
    a request to Akahu about an account, or anything else. *)
Inductive Tag :=
| Visit (d : Dest) (akahu_account_id : string)
| Fetch (akahu_account_id : string)
| Plain.

Definition tag (e : Event) : Tag :=
  match e with
  | Log _ (SkipDoNotMap d i) | Log _ (SkipMissingIds d i) | Log _ (Processing d i) => Visit d i
  | Request (AkahuGetTransactions i _ _) | Request (AkahuGetBalance i) => Fetch i
  | _ => Plain
  end.

(** [quiet P w w']: from [w] to [w'] the mapping file is untouched and the
    trace has grown by events none of which [P] singles out. *)
Definition quiet (P : Tag → bool) (w w' : World) : Prop :=
  mapping_file w' = mapping_file w
  ∧ ∃ evs, trace w' = trace w ++ evs ∧ Forall (λ e, P (tag e) = false) evs.

(** [returns Q m]: whenever a run of [m] returns a value, the value
    satisfies [Q]. *)
Definition returns {A} (Q : A → Prop) (m : M A) : Prop :=
  ∀ w a w', m w = (Ret a, w') → Q a.

Definition on_budget (item : string * MappingEntry) : bool := priority_of item.2 =? 0.

(** On-Budget accounts first, each class in the order of the mapping. *)
Definition priority_order (l : list (string * MappingEntry)) : list (string * MappingEntry) :=
  filter (λ item, on_budget item = true) l ++ filter (λ item, on_budget item = false) l.

(** The accounts a trace shows a pass to a destination has turned to, in order. *)
Definition visit_of (d : Dest) (e : Event) : option string :=
  match tag e with
  | Visit d' i => if bool_decide (d' = d) then Some i else None
  | _ => None
  end.

Definition visits (d : Dest) (tr : list Event) : list string := omap (visit_of d) tr.

(** The requests to Akahu about an account that a trace holds. *)
Definition is_fetch_of (i : string) (t : Tag) : bool :=
  match t with
  | Fetch i' => String.eqb i' i
  | _ => false
  end.

Definition is_visit (t : Tag) : bool :=
  match t with
  | Visit _ _ => true
  | _ => false
  end.

Definition nothing (t : Tag) : bool := false.

(** The batch update of the timestamps of a set of accounts. *)
Definition stamped (do_not_map : MappingEntry → option bool)
    (stamp : string → MappingEntry → MappingEntry) (t : string) (ids : gset string)
    (mappings : gmap string MappingEntry) : gmap string MappingEntry :=
  set_fold (stamp_synced do_not_map (stamp t)) mappings ids.

(** The end of a pass: the batch update of the timestamps, then the count. *)
Definition persist_ab (env : Env) (done : gset string * Z) : M Z :=
  (if bool_decide (done.1 ≠ ∅)
   then update_mapping_timestamps env (Some done.1) None
   else ret tt) ;;;
  ret done.2.

Definition persist_ynab (env : Env) (done : gset string * Z) : M Z :=
  (if bool_decide (done.1 ≠ ∅)
   then update_mapping_timestamps env None (Some done.1)
   else ret tt) ;;;
  ret done.2.

(** How a run of a pass unfolds. *)
Inductive PassRun (env : Env) (loop : list (string * MappingEntry) → M (gset string * Z))
    (persist : gset string * Z → M Z) (w : World) (r : Outcome Z * World) : Prop :=
| stopped_before_loop :
    (∀ n, r.1 ≠ Ret n) →
    (∀ P, P Plain = false → quiet P w r.2) →
    PassRun env loop persist w r
| stopped_in_loop w1 :
    (∀ P, P Plain = false → quiet P w w1) →
    (∀ done, (loop (priority_order (mapping_list w)) w1).1 ≠ Ret done) →
    (∀ n, r.1 ≠ Ret n) →
    r.2 = (loop (priority_order (mapping_list w)) w1).2 →
    PassRun env loop persist w r
| stopped_in_commit w1 done w2 :
    (∀ P, P Plain = false → quiet P w w1) →
    loop (priority_order (mapping_list w)) w1 = (Ret done, w2) →
    (∀ n, r.1 ≠ Ret n) →
    (∀ P, P Plain = false → quiet P w2 r.2) →
    PassRun env loop persist w r
| reached_persist w1 done w2 w3 :
    (∀ P, P Plain = false → quiet P w w1) →
    loop (priority_order (mapping_list w)) w1 = (Ret done, w2) →
    (∀ P, P Plain = false → quiet P w2 w3) →
    r = persist done w3 →
    PassRun env loop persist w r.

(** [traces P w w']: the trace has grown by events that [P] does not
    single out. *)
Definition traces (P : Tag → bool) (w w' : World) : Prop :=
  ∃ evs, trace w' = trace w ++ evs ∧ Forall (λ e, P (tag e) = false) evs.

(** The log line of a turn that skips its account. *)
Definition skip_line (d : Dest) (do_not_map : option bool) (i : string) : Event :=
  if truthy_flag do_not_map then Log DEBUG (SkipDoNotMap d i)
  else Log WARNING (SkipMissingIds d i).

(** The three log lines of a turn that reaches the dispatch on the account
    type and finds none that it knows. *)
Definition unknown_type_lines (d : Dest) (i : string) (last : option string) (w : World) : World :=
  add_event (Log ERROR (UnknownTypeForAccount i))
    (add_event (Log INFO (LastSynced (default "2025-05-05T00:00:00Z" last)))
       (add_event (Log INFO (Processing d i)) w)).

(** The page that ends the loop: no records, no ["cursor"] member, or a
    cursor without a ["next"] token. *)
Definition last_page (p : Page) : Prop :=
  items p = [] ∨ cursor p = None ∨ cursor p = Some (CursorObj None)
  ∨ cursor p = Some (CursorObj (Some None)).

(** [query_params["cursor"]] of the request that follows a page whose
    token is [next]. *)
Definition next_param (param : option string) (next : string) : option string :=
  if String.eqb next "first time" then param else Some next.

(** [feed_pages env account start param pages]: [pages] are what Akahu
    serves, one after the other, to a reader that starts with the cursor
    parameter [param] and follows the tokens. *)
Inductive feed_pages (env : Env) (account start : string) : option string → list Page → Prop :=
| feed_last param :
    last_page (akahu_page env account start param) →
    feed_pages env account start param [akahu_page env account start param]
| feed_next param next pages :
    items (akahu_page env account start param) ≠ [] →
    cursor (akahu_page env account start param) = Some (CursorObj (Some (Some next))) →
    feed_pages env account start (next_param param next) pages →
    feed_pages env account start param (akahu_page env account start param :: pages).

(** The start of the window of a fetch. *)
Definition start_of (env : Env) (last_reconciled_at : option string) : option string :=
  if truthy_str last_reconciled_at
  then week_before env (default "" last_reconciled_at)
  else Some "2025-05-05T00:00:00Z".

(** The requests for pages of an account that a trace holds. *)
Definition is_page_request (account : string) (ev : Event) : bool :=
  match ev with
  | Request (AkahuGetTransactions a _ _) => String.eqb a account
  | _ => false
  end.

Definition page_requests (account : string) (tr : list Event) : nat :=
  length (List.filter (is_page_request account) tr).

(** The adjustment row that [handle_tracking_account_actual] leaves in
    the session, from a world [w], for the two balances in cents. *)
Definition adjustment_row (env : Env) (account : string) (akahu_cents actual_cents : Z)
    (w : World) : Transactions :=
  {| id := next_row (actual w);
     date := utc_day env (clock w);
     acct := account;
     payee := Some "Balance Adjustment";
     notes := Some (String.concat ""
       ["Adjusted from $"; format_grouped_2f env (Finite actual_cents (-2)); " to $";
        format_grouped_2f env (Finite akahu_cents (-2)); " to reconcile tracking account"]);
     category := None;
     amount := akahu_cents - actual_cents;
     financial_id := Some (String.append "adjustment_" (utc_stamp env (S (clock w))));
     imported_description := Some "Balance Adjustment";
     cleared := true;
     tombstone := false;
     pending := false |}.

(** The adjustment that [create_adjustment_txn_ynab] posts in a world [w]. *)
Definition adjustment_ynab (env : Env) (account : string) (akahu_milli ynab_milli : Z)
    (w : World) : YnabTransaction :=
  {| y_account_id := Some account;
     y_date := Some (local_day env (clock w));
     y_amount := akahu_milli - ynab_milli;
     y_payee_name := Some "Balance Adjustment";
     y_memo := Some (String.concat ""
       ["Adjusted from $"; format_2f env (Finite ynab_milli (-3)); " to $";
        format_2f env (Finite akahu_milli (-3)); " based on retrieved balance"]);
     y_import_id := None;
     y_cleared := "cleared";
     y_flag_color := "red";
     y_approved := true |}.

(** The rules that leave alone what a transaction is matched by. *)
Definition keeps_identity (m : Mutation) : bool :=
  match m with
  | SetPayee _ | SetAmount _ | SetAccount _ => false
  | _ => true
  end.

Definition rules_keep_identity (rs : option (list Rule)) : Prop :=
  ∀ l, rs = Some l → Forall (λ rule, keeps_identity (action rule) = true) l.

(** The row of the session that a source transaction is matched with, for
    an account of Actual. *)
Definition imported_as (account : string) (t : AkahuTxn) (r : Transactions) : bool :=
  match cell_get (txn_amount t) None with
  | Some x =>
      match quantized_amount x with
      | Some amount =>
          match cents_of_decimal amount with
          | Some cents =>
              same_transaction account (cell_get (txn_description t) None) cents
                (cell_get (txn_id t) None) r
          | None => false
          end
      | None => false
      end
  | None => false
  end.

(** [steady w w']: the session, the mappings in memory and the clock are
    those of [w]. *)
Definition steady (w w' : World) : Prop :=
  actual w' = actual w ∧ mapping_list w' = mapping_list w ∧ clock w' = clock w.

(** What a row is matched by, with the id of the row. *)
Definition row_key (r : Transactions) : nat * (bool * string * option string * Z * option string) :=
  (id r, (tombstone r, acct r, payee r, amount r, financial_id r)).

Definition row_keys (s : Session) : list (nat * (bool * string * option string * Z * option string)) :=
  map row_key (rows s).

(** [settled w w']: the session of [w'] has the rows of [w], but for
    what is pending on them; the mappings in memory and the clock are
    those of [w]. *)
Definition settled (w w' : World) : Prop :=
  row_keys (actual w') = row_keys (actual w) ∧ next_row (actual w') = next_row (actual w)
  ∧ mapping_list w' = mapping_list w ∧ clock w' = clock w.

(** A session is well formed when the ids of its rows differ and lie below
    the counter that numbers the next row. *)
Definition session_ok (s : Session) : Prop :=
  NoDup (map id (rows s)) ∧ Forall (λ r, (id r < next_row s)%nat) (rows s).

(** What the loop of a load keeps true of the session and of the
    transactions imported so far: a row id stands for one row, and an
    imported transaction is a row of the session. *)
Definition coherent (s : Session) (im : list Transactions) : Prop :=
  Forall (λ k, (k.1 < next_row s)%nat) (row_keys s)
  ∧ (∀ k1 k2, k1 ∈ row_keys s → k2 ∈ row_keys s → k1.1 = k2.1 → k1 = k2)
  ∧ (∀ r, r ∈ im → row_key r ∈ row_keys s).

(** The date of a source transaction is one that the load can read. *)
Definition parses (env : Env) (t : AkahuTxn) : Prop :=
  ∃ ds secs, cell_get (txn_date t) DateNone = DateStr ds
             ∧ strptime env (strip_milliseconds ds) = Some secs
             ∧ secs + 13 * 3600 ≤ datetime_max.

(** The row that [create_transaction] adds. *)
Definition created_row (w : World) (d : Z) (a : string) (p n cat : option string) (c : Z)
    (i : option string) (cl : bool) (ip : option string) : Transactions :=
  {| id := next_row (actual w); date := d; acct := a; payee := p; notes := n;
     category := cat; amount := c; financial_id := i; imported_description := ip;
     cleared := cl; tombstone := false; pending := true |}.

(** What [convert_to_nzt] does with a date: it returns a day, or no day
    after a line of the log, or it raises. *)
Inductive Converted :=
| Day (d : Z)
| NoDay (l : Level) (m : Msg)
| Refused (e : Exn).

Definition nzt_day (env : Env) (date_str : DateValue) : Converted :=
  match date_str with
  | DateNone => NoDay WARNING (Text "Input date string is None.")
  | DateNaN => Refused TypeError
  | DateStr s =>
      match strptime env (strip_milliseconds s) with
      | Some secs =>
          if secs + 13 * 3600 <=? datetime_max
          then Day (secs / 86400 + (if 11 * 3600 <=? secs mod 86400 then 1 else 0))
          else Refused OverflowError
      | None => NoDay ERROR (Text "Error converting date string to NZT")
      end
  end.

Definition day_of (c : Converted) : option Z :=
  match c with
  | Day d => Some d
  | _ => None
  end.

(** The payee that [get_payee_name] gives for a row that has a
    description: the name of the merchant, when it is an object with a
    name, ["Unknown"] for a merchant on which the lookup of the name
    fails, and else the description. *)
Definition payee_of (description : option string) (merchant : option Merchant)
    : option string :=
  match merchant with
  | Some (MerchantObject (Some (Some name))) => Some name
  | Some MerchantNumber => Some "Unknown"
  | Some (MerchantString s) =>
      if String.index 0 "name" s is Some _ then Some "Unknown" else description
  | _ => description
  end.

(** [transcoded env account t y]: [y] is the row of [clean_txn_for_ynab]
    for the source transaction [t]. *)
Definition transcoded (env : Env) (ynab_account_id : option string) (t : AkahuTxn)
    (y : YnabTransaction) : Prop :=
  txn_id t = Holds (y_import_id y)
  ∧ y_account_id y = ynab_account_id
  ∧ txn_description t = Holds (y_memo y)
  ∧ y_payee_name y = payee_of (y_memo y) (txn_merchant t)
  ∧ (∃ x, txn_amount t = Holds (Some x) ∧ milliunits x = Some (y_amount y))
  ∧ (∃ d, txn_date t = Holds d ∧ (∀ e, nzt_day env d ≠ Refused e)
          ∧ y_date y = day_of (nzt_day env d))
  ∧ y_cleared y = "cleared" ∧ y_flag_color y = "red" ∧ y_approved y = false.

(** What makes [clean_txn_for_ynab] raise on a row: a column that the
    frame does not have, an amount that [int(x * 1000)] refuses, or a date
    that [convert_to_nzt] refuses. *)
Definition untranscodable (env : Env) (t : AkahuTxn) (e : Exn) : Prop :=
  (e = KeyError "description" ∧ txn_description t = NoColumn)
  ∨ (e = KeyError "_id" ∧ txn_id t = NoColumn)
  ∨ (e = KeyError "date" ∧ txn_date t = NoColumn)
  ∨ (e = KeyError "amount" ∧ txn_amount t = NoColumn)
  ∨ (e = TypeError ∧ txn_amount t = Holds None)
  ∨ (∃ x, txn_amount t = Holds (Some x) ∧ milliunits x = None
          ∧ e = int_refuses (pyfloat.mul x (pyfloat.of_int 1000)))
  ∨ (∃ d, txn_date t = Holds d ∧ nzt_day env d = Refused e).

(** What [update_mapping_timestamps] does to the entry of [i]: it is
    stamped when [i] is among the ids given and the entry is not flagged. *)
Definition stamp_for (ids : option (gset string)) (do_not_map : MappingEntry → option bool)
    (stamp : MappingEntry → MappingEntry) (i : string) (e : MappingEntry) : MappingEntry :=
  match ids with
  | Some ids =>
      if bool_decide (i ∈ ids) && negb (truthy_flag (do_not_map e)) then stamp e else e
  | None => e
  end.

(** The start of the window of the fetch of a pass for an account whose
    timestamp for the destination of the pass is [last]. *)
Definition window_start (env : Env) (last : option string) : option string :=
  start_of env (Some (default "2025-05-05T00:00:00Z" last)).

(** An account that a pass has something to do for, [last] being its
    timestamp for the destination of the pass: a Tracking account whose
    balance Akahu reports, or an On-Budget account for which the first page
    of the feed, in the window of the pass, holds a transaction. *)
Definition has_news (env : Env) (i : string) (e : MappingEntry) (last : option string) : Prop :=
  if String.eqb (default "On Budget" (account_type e)) "Tracking"
  then akahu_account_balance env i ≠ None
  else default "On Budget" (account_type e) = "On Budget"
       ∧ ∃ start, window_start env last = Some start
                  ∧ items (akahu_page env i start None) ≠ [].

(** What an event of the trace asks of the outside. *)
Inductive Kind :=
| LogLine
| AkahuRead
| YnabCall
| ActualOpCall (op : ActualOp)
| FileRead
| FileWrite.

Definition kind (e : Event) : Kind :=
  match e with
  | Log _ _ => LogLine
  | Request (AkahuGetTransactions _ _ _) | Request (AkahuGetBalance _) => AkahuRead
  | Request (YnabGetBalance _ _) | Request (YnabPostTransactions _ _)
  | Request (YnabPostTransaction _ _) => YnabCall
  | Request (ActualCall op) => ActualOpCall op
  | Request LoadMapping => FileRead
  | Request SaveMapping => FileWrite
  end.

(** The operations on the local session of Actual, as opposed to those
    that reach the server. *)
Definition session_op (op : ActualOp) : bool :=
  match op with
  | SyncSync | DownloadUserFile | DownloadBudget | Sync | CloseSession => false
  | _ => true
  end.

(** What a computation may do: the kinds of events it may leave in the
    trace and the parts of the world it may change. *)
Record Footprint := {
  may_call : Kind → bool;
  may_touch_actual : bool;
  may_touch_ynab : bool;
  may_touch_file : bool;
  may_touch_list : bool;
}.

(** [within f w w']: from [w] to [w'] the trace has grown by events of
    the kinds that [f] allows, and the parts of the world that [f] does
    not allow to be touched are those of [w]. *)
Definition within (f : Footprint) (w w' : World) : Prop :=
  (∃ evs, trace w' = trace w ++ evs ∧ Forall (λ e, may_call f (kind e) = true) evs)
  ∧ (may_touch_actual f = false → actual w' = actual w)
  ∧ (may_touch_ynab f = false → ynab w' = ynab w)
  ∧ (may_touch_file f = false → mapping_file w' = mapping_file w)
  ∧ (may_touch_list f = false → mapping_list w' = mapping_list w).

(** A pass to YNAB stays away from Actual, and a pass to Actual from
    YNAB. *)
Definition away_from_actual : Footprint :=
  {| may_call := λ k, match k with ActualOpCall _ => false | _ => true end;
     may_touch_actual := false; may_touch_ynab := true; may_touch_file := true;
     may_touch_list := true |}.

Definition away_from_ynab : Footprint :=
  {| may_call := λ k, match k with YnabCall => false | _ => true end;
     may_touch_actual := true; may_touch_ynab := false; may_touch_file := true;
     may_touch_list := true |}.

(** Reading from Akahu, and nothing else. *)
Definition fetching : Footprint :=
  {| may_call := λ k, match k with LogLine | AkahuRead => true | _ => false end;
     may_touch_actual := false; may_touch_ynab := false; may_touch_file := false;
     may_touch_list := false |}.

(** Reading from Akahu and from the mapping file, and nothing else. *)
Definition read_only : Footprint :=
  {| may_call := λ k, match k with LogLine | AkahuRead | FileRead => true | _ => false end;
     may_touch_actual := false; may_touch_ynab := false; may_touch_file := false;
     may_touch_list := false |}.

(** Anything but the synchronisation with the server of Actual. *)
Definition no_remote_sync : Footprint :=
  {| may_call := λ k, match k with ActualOpCall SyncSync => false | _ => true end;
     may_touch_actual := true; may_touch_ynab := true; may_touch_file := true;
     may_touch_list := true |}.

(** [grows w w']: the trace of [w'] continues that of [w]. *)
Definition grows (w w' : World) : Prop := ∃ evs, trace w' = trace w ++ evs.

(** What a load into Actual does before its commit: it reads and writes
    the local session. *)
Definition before_commit : Footprint :=
  {| may_call := λ k, match k with
                      | LogLine => true
                      | ActualOpCall Commit => false
                      | ActualOpCall op => session_op op
                      | _ => false
                      end;
     may_touch_actual := true; may_touch_ynab := false; may_touch_file := false;
     may_touch_list := false |}.

(** The adjustment row before the commit. *)
Definition pending_row (r : Transactions) : Transactions :=
  {| id := id r; date := date r; acct := acct r; payee := payee r; notes := notes r;
     category := category r; amount := amount r; financial_id := financial_id r;
     imported_description := imported_description r; cleared := cleared r;
     tombstone := tombstone r; pending := true |}.

(** * Properties

    ** Unit conversion *)

Lemma f2_01_nearest : pyfloat.nearest_to 0x10147ae147ae14 (-51) 201 2.
Proof. split; [lia | vm_compute; discriminate]. Qed.

Lemma f12_345_nearest : pyfloat.nearest_to 0x18b0a3d70a3d71 (-49) 12345 3.
Proof. split; [lia | vm_compute; discriminate]. Qed.

(** The example of the specification: 12.345 dollars are 12345 milliunits
    for YNAB and the decimal 12.3450 for Actual. *)
Example amount_12_345 :
  milliunits sample.f12_345 = Some 12345
  ∧ quantized_amount sample.f12_345 = Some (Finite 123450 (-4)).
Proof. split; vm_compute; reflexivity. Qed.

(** The quantized amount is the multiple of 0.0001 nearest to the float:
    with [x = m * 2^e], [e < 0], the result [n] satisfies
    [|n * 2^-e - m * 10^4| * 2 <= 2^-e]. *)
Lemma round_half_even_nearest (a b : Z) :
  0 < b → 2 * Z.abs (round_half_even a b * b - a) ≤ b.
Proof.
  intros Hb. unfold round_half_even.
  pose proof (Z.div_mod a b ltac:(lia)) as Hdm.
  pose proof (Z.mod_pos_bound a b Hb) as Hr.
  remember (a / b) as q. remember (a mod b) as r.
  destruct (Z.compare_spec (2 * r) b) as [Hc|Hc|Hc]; [destruct (Z.even q)| |]; nia.
Qed.

(** ** Reasoning about runs *)

Section Preserves.

Context (R : World → World → Prop) `{!Reflexive R} `{!Transitive R}.

Lemma preserves_ret {A} (a : A) : preserves R (ret a).
Proof. intros w. reflexivity. Qed.

Lemma preserves_raise {A} (e : Exn) : preserves R (@raise A e).
Proof. intros w. reflexivity. Qed.

Lemma preserves_spin {A} : preserves R (@spin A).
Proof. intros w. reflexivity. Qed.

Lemma preserves_get_world : preserves R get_world.
Proof. intros w. reflexivity. Qed.

Lemma preserves_of_option {A} (o : option A) (e : Exn) : preserves R (of_option o e).
Proof. destruct o; intros w; reflexivity. Qed.

Lemma preserves_modify (f : World → World) : (∀ w, R w (f w)) → preserves R (modify f).
Proof. intros H w. apply H. Qed.

Lemma preserves_bind {A B} (m : M A) (k : A → M B) :
  preserves R m → (∀ a, preserves R (k a)) → preserves R (bind m k).
Proof.
  intros Hm Hk w. unfold bind. specialize (Hm w).
  destruct (m w) as [[a|e|] w1]; simpl in *; [|assumption..].
  etransitivity; [exact Hm | apply Hk].
Qed.

Lemma preserves_try_except {A} (m : M A) (h : Exn → M A) :
  preserves R m → (∀ e, preserves R (h e)) → preserves R (try_except m h).
Proof.
  intros Hm Hh w. unfold try_except. specialize (Hm w).
  destruct (m w) as [[a|e|] w1]; simpl in *; [assumption| |assumption].
  etransitivity; [exact Hm | apply Hh].
Qed.

Lemma preserves_for_each {A S} (l : list A) (body : A → S → M S) (acc : S) :
  (∀ x s, x ∈ l → preserves R (body x s)) → preserves R (for_each l body acc).
Proof.
  revert acc. induction l as [|x l IH]; intros acc H; simpl.
  - apply preserves_ret.
  - apply preserves_bind.
    + apply H. left.
    + intros a. apply IH. intros y s Hy. apply H. right. exact Hy.
Qed.

Lemma preserves_map_m {A B} (f : A → M B) (l : list A) :
  (∀ x, x ∈ l → preserves R (f x)) → preserves R (map_m f l).
Proof.
  induction l as [|x l IH]; intros H; simpl.
  - apply preserves_ret.
  - apply preserves_bind; [apply H; left|].
    intros b. apply preserves_bind; [|intros; apply preserves_ret].
    apply IH. intros y Hy. apply H. right. exact Hy.
Qed.

End Preserves.

(** *** What a run leaves in the trace *)

#[global] Instance quiet_refl P : Reflexive (quiet P).
Proof. intros w. split; [reflexivity|]. exists []. rewrite app_nil_r. auto. Qed.

#[global] Instance quiet_trans P : Transitive (quiet P).
Proof.
  intros w1 w2 w3 [Hf1 (ev1 & Ht1 & Hp1)] [Hf2 (ev2 & Ht2 & Hp2)]. split; [congruence|].
  exists (ev1 ++ ev2). rewrite Ht2, Ht1, app_assoc. split; [reflexivity|].
  apply Forall_app; auto.
Qed.

Lemma quiet_add_event P e w : P (tag e) = false → quiet P w (add_event e w).
Proof. intros H. split; [reflexivity|]. exists [e]. split; [reflexivity|]. auto. Qed.

Lemma quiet_set_actual P f w : quiet P w (set_actual f w).
Proof. split; [reflexivity|]. exists []. simpl. rewrite app_nil_r. auto. Qed.

Lemma quiet_set_ynab P f w : quiet P w (set_ynab f w).
Proof. split; [reflexivity|]. exists []. simpl. rewrite app_nil_r. auto. Qed.

Lemma quiet_set_mapping_list P f w : quiet P w (set_mapping_list f w).
Proof. split; [reflexivity|]. exists []. simpl. rewrite app_nil_r. auto. Qed.

Lemma quiet_tick P w : quiet P w (tick w).
Proof. split; [reflexivity|]. exists []. simpl. rewrite app_nil_r. auto. Qed.

Lemma quiet_count_call P w : quiet P w (count_call w).
Proof. split; [reflexivity|]. exists []. simpl. rewrite app_nil_r. auto. Qed.

Lemma quiet_log P l m : P (tag (Log l m)) = false → preserves (quiet P) (log l m).
Proof. intros H w. apply quiet_add_event, H. Qed.

Lemma quiet_external env P c e :
  P (tag (Request c)) = false → preserves (quiet P) (external env c e).
Proof.
  intros H w. unfold external. destruct (fault env (calls w)); simpl;
    (etransitivity; [apply quiet_add_event, H | apply quiet_count_call]).
Qed.

Lemma quiet_now P : preserves (quiet P) now.
Proof. intros w. apply quiet_tick. Qed.

Section QuietStructure.

Context (P : Tag → bool).

Lemma quiet_bind {A B} (m : M A) (k : A → M B) :
  preserves (quiet P) m → (∀ a, preserves (quiet P) (k a)) → preserves (quiet P) (bind m k).
Proof. apply preserves_bind; apply _. Qed.

Lemma quiet_try_except {A} (m : M A) (h : Exn → M A) :
  preserves (quiet P) m → (∀ e, preserves (quiet P) (h e)) →
  preserves (quiet P) (try_except m h).
Proof. apply preserves_try_except; apply _. Qed.

Lemma quiet_for_each {A S} (l : list A) (body : A → S → M S) (acc : S) :
  (∀ x s, x ∈ l → preserves (quiet P) (body x s)) → preserves (quiet P) (for_each l body acc).
Proof. apply preserves_for_each; apply _. Qed.

Lemma quiet_map_m {A B} (f : A → M B) (l : list A) :
  (∀ x, x ∈ l → preserves (quiet P) (f x)) → preserves (quiet P) (map_m f l).
Proof. apply preserves_map_m; apply _. Qed.

Lemma quiet_ret {A} (a : A) : preserves (quiet P) (ret a).
Proof. apply preserves_ret; apply _. Qed.

Lemma quiet_raise {A} (e : Exn) : preserves (quiet P) (@raise A e).
Proof. apply preserves_raise; apply _. Qed.

Lemma quiet_spin {A} : preserves (quiet P) (@spin A).
Proof. apply preserves_spin; apply _. Qed.

Lemma quiet_get_world : preserves (quiet P) get_world.
Proof. apply preserves_get_world; apply _. Qed.

Lemma quiet_of_option {A} (o : option A) (e : Exn) : preserves (quiet P) (of_option o e).
Proof. apply preserves_of_option; apply _. Qed.

End QuietStructure.

(** The structural steps of a proof that a computation is quiet. *)
Ltac quiet_step :=
  lazymatch goal with
  | |- preserves _ (bind _ _) => apply quiet_bind; [|intros ?]
  | |- preserves _ (try_except _ _) => apply quiet_try_except; [|intros ?]
  | |- preserves _ (ret _) => apply quiet_ret
  | |- preserves _ (raise _) => apply quiet_raise
  | |- preserves _ spin => apply quiet_spin
  | |- preserves _ get_world => apply quiet_get_world
  | |- preserves _ (of_option _ _) => apply quiet_of_option
  | |- preserves _ (getitem _ _) => unfold getitem
  | |- preserves _ now => apply quiet_now
  | |- preserves _ (log _ _) => apply quiet_log
  | |- preserves _ (external _ _ _) => apply quiet_external
  | |- preserves _ (actual_call _ _) => apply quiet_external
  | |- preserves _ (modify (set_actual _)) => apply preserves_modify; intros ?; apply quiet_set_actual
  | |- preserves _ (modify (set_ynab _)) => apply preserves_modify; intros ?; apply quiet_set_ynab
  | |- preserves _ (modify (set_mapping_list _)) =>
      apply preserves_modify; intros ?; apply quiet_set_mapping_list
  | |- preserves _ (for_each _ _ _) => apply quiet_for_each; intros ? ? ?
  | |- preserves _ (map_m _ _) => apply quiet_map_m; intros ? ?
  | |- preserves _ (if ?b then _ else _) => destruct b
  | |- preserves _ (match ?x with _ => _ end) => destruct x
  | |- preserves _ (let _ := _ in _) => cbv zeta
  end.

Create HintDb quiet.

Ltac quiet_tac :=
  repeat first
    [ progress quiet_step
    | solve [simpl; assumption]
    | solve [auto with quiet] ].

Section Quiet.

Context (env : Env) (P : Tag → bool) (HPlain : P Plain = false).

Lemma quiet_entry_of key : preserves (quiet P) (entry_of key).
Proof. unfold entry_of. quiet_tac. Qed.

Lemma quiet_get_akahu_balance i :
  P (Fetch i) = false → preserves (quiet P) (get_akahu_balance env i).
Proof. intros. unfold get_akahu_balance. quiet_tac. Qed.

Lemma quiet_get_ynab_balance b a : preserves (quiet P) (get_ynab_balance env b a).
Proof. unfold get_ynab_balance. quiet_tac. Qed.

Lemma quiet_get_actual_balance a : preserves (quiet P) (get_actual_balance env a).
Proof. unfold get_actual_balance. quiet_tac. Qed.

Lemma quiet_load_existing_mapping : preserves (quiet P) (load_existing_mapping env).
Proof. unfold load_existing_mapping. quiet_tac. Qed.

Lemma quiet_create_transaction d a p n c x i cl ip :
  preserves (quiet P) (create_transaction env d a p n c x i cl ip).
Proof. unfold create_transaction. quiet_tac. Qed.

Lemma quiet_match_transaction d a p x i am :
  preserves (quiet P) (match_transaction env d a p x i am).
Proof. unfold match_transaction. quiet_tac. Qed.

Lemma quiet_reconcile_transaction d a p n x i cl ip am :
  preserves (quiet P) (reconcile_transaction env d a p n x i cl ip am).
Proof.
  unfold reconcile_transaction.
  pose proof quiet_match_transaction. pose proof quiet_create_transaction. quiet_tac.
Qed.

Lemma quiet_ruleset_run rs r : preserves (quiet P) (ruleset_run rs r).
Proof. unfold ruleset_run. quiet_tac. Qed.

Lemma quiet_commit : preserves (quiet P) (commit env).
Proof. unfold commit. quiet_tac. Qed.

Lemma quiet_ynab_post_transactions b l : preserves (quiet P) (ynab_post_transactions env b l).
Proof. unfold ynab_post_transactions. quiet_tac. Qed.

Lemma quiet_ynab_post_transaction b t : preserves (quiet P) (ynab_post_transaction env b t).
Proof. unfold ynab_post_transaction. quiet_tac. Qed.

Lemma quiet_get_cached_names : preserves (quiet P) (get_cached_names env).
Proof. unfold get_cached_names. quiet_tac. Qed.

Lemma quiet_log_balance_comparison s x d y c :
  preserves (quiet P) (log_balance_comparison env s x d y c).
Proof. unfold log_balance_comparison. quiet_tac. Qed.

Lemma quiet_get_all_akahu_pages fuel i start next param res total :
  P (Fetch i) = false →
  preserves (quiet P) (get_all_akahu_pages env fuel i start next param res total).
Proof.
  intros Hi. revert next param res total.
  induction fuel as [|fuel IH]; intros; simpl; quiet_tac.
Qed.

Lemma quiet_get_all_akahu fuel i last :
  P (Fetch i) = false → preserves (quiet P) (get_all_akahu env fuel i last).
Proof.
  intros Hi. unfold get_all_akahu. pose proof (quiet_get_all_akahu_pages fuel i). quiet_tac.
Qed.

Lemma quiet_convert_to_nzt d : preserves (quiet P) (convert_to_nzt env d).
Proof. unfold convert_to_nzt. quiet_tac. Qed.

Lemma quiet_get_payee_name row : preserves (quiet P) (get_payee_name row).
Proof. unfold get_payee_name. quiet_tac. Qed.

Hint Resolve quiet_get_payee_name : quiet.

Hint Resolve quiet_entry_of quiet_get_akahu_balance quiet_get_ynab_balance
  quiet_get_actual_balance quiet_load_existing_mapping quiet_create_transaction
  quiet_match_transaction quiet_reconcile_transaction quiet_ruleset_run quiet_commit
  quiet_ynab_post_transactions quiet_ynab_post_transaction quiet_get_cached_names
  quiet_log_balance_comparison quiet_get_all_akahu quiet_convert_to_nzt : quiet.

Lemma quiet_get_ruleset_or_abort : preserves (quiet P) (get_ruleset_or_abort env).
Proof. unfold get_ruleset_or_abort. quiet_tac. Qed.

Hint Resolve quiet_get_ruleset_or_abort : quiet.

Lemma quiet_load_one_into_actual a rs dbg t im :
  preserves (quiet P) (load_one_into_actual env a rs dbg t im).
Proof. unfold load_one_into_actual. quiet_tac. Qed.

Hint Resolve quiet_load_one_into_actual : quiet.

Lemma quiet_load_transactions_into_actual l key dbg :
  preserves (quiet P) (load_transactions_into_actual env l key dbg).
Proof. unfold load_transactions_into_actual. quiet_tac. Qed.

Lemma quiet_handle_tracking_account_actual key :
  preserves (quiet P) (handle_tracking_account_actual env key).
Proof. unfold handle_tracking_account_actual. quiet_tac. Qed.

Lemma quiet_clean_txn_for_ynab l a : preserves (quiet P) (clean_txn_for_ynab env l a).
Proof. unfold clean_txn_for_ynab. quiet_tac. Qed.

Lemma quiet_load_transactions_into_ynab l b a dbg :
  preserves (quiet P) (load_transactions_into_ynab env l b a dbg).
Proof. unfold load_transactions_into_ynab. quiet_tac. Qed.

Lemma quiet_create_adjustment_txn_ynab b a x y :
  preserves (quiet P) (create_adjustment_txn_ynab env b a x y).
Proof. unfold create_adjustment_txn_ynab. quiet_tac. Qed.

Lemma quiet_get_account_priority item : preserves (quiet P) (get_account_priority item).
Proof. unfold get_account_priority. quiet_tac. Qed.

Hint Resolve quiet_load_transactions_into_actual quiet_handle_tracking_account_actual
  quiet_clean_txn_for_ynab quiet_load_transactions_into_ynab
  quiet_create_adjustment_txn_ynab quiet_get_account_priority : quiet.

Lemma quiet_sorted l : preserves (quiet P) (sorted l get_account_priority).
Proof. unfold sorted. quiet_tac. Qed.

(** What a turn of a pass does after its first log line. *)
Lemma quiet_sync_to_ab_account fuel dbg item acc :
  P (Fetch item.1) = false → P (Visit ActualBudget item.1) = false →
  preserves (quiet P) (sync_to_ab_account env fuel dbg item acc).
Proof. intros. unfold sync_to_ab_account. quiet_tac. Qed.

Lemma quiet_sync_to_ynab_account fuel dbg item acc :
  P (Fetch item.1) = false → P (Visit YNAB item.1) = false →
  preserves (quiet P) (sync_to_ynab_account env fuel dbg item acc).
Proof. intros. unfold sync_to_ynab_account. quiet_tac. Qed.

End Quiet.

#[global] Hint Resolve quiet_entry_of quiet_get_akahu_balance quiet_get_ynab_balance
  quiet_get_actual_balance quiet_load_existing_mapping quiet_create_transaction
  quiet_match_transaction quiet_reconcile_transaction quiet_ruleset_run quiet_commit
  quiet_ynab_post_transactions quiet_ynab_post_transaction quiet_get_cached_names
  quiet_log_balance_comparison quiet_get_all_akahu quiet_convert_to_nzt
  quiet_get_payee_name
  quiet_get_ruleset_or_abort quiet_load_one_into_actual quiet_load_transactions_into_actual
  quiet_handle_tracking_account_actual quiet_clean_txn_for_ynab
  quiet_load_transactions_into_ynab quiet_create_adjustment_txn_ynab
  quiet_get_account_priority : quiet.

Lemma returns_ret {A} (Q : A → Prop) (a : A) : Q a → returns Q (ret a).
Proof. intros H w a' w' E. inversion E. subst. exact H. Qed.

Lemma returns_raise {A} (Q : A → Prop) (e : Exn) : returns Q (raise e).
Proof. intros w a w' E. inversion E. Qed.

Lemma returns_spin {A} (Q : A → Prop) : returns Q spin.
Proof. intros w a w' E. inversion E. Qed.

Lemma returns_bind_with {A B} (Q0 : A → Prop) (Q : B → Prop) (m : M A) (k : A → M B) :
  returns Q0 m → (∀ a, Q0 a → returns Q (k a)) → returns Q (bind m k).
Proof.
  intros Hm Hk w b w' E. unfold bind in E.
  destruct (m w) as [[a|e|] w1] eqn:Em; try discriminate.
  exact (Hk a (Hm _ _ _ Em) _ _ _ E).
Qed.

Lemma returns_bind {A B} (Q : B → Prop) (m : M A) (k : A → M B) :
  (∀ a, returns Q (k a)) → returns Q (bind m k).
Proof.
  intros Hk. apply (returns_bind_with (λ _, True)); [intros ? ? ? ?; exact I | auto].
Qed.

Lemma returns_try_except {A} (Q : A → Prop) (m : M A) (h : Exn → M A) :
  returns Q m → (∀ e, returns Q (h e)) → returns Q (try_except m h).
Proof.
  intros Hm Hh w a w' E. unfold try_except in E.
  destruct (m w) as [[a0|e|] w1] eqn:Em; try discriminate.
  - inversion E; subst. exact (Hm _ _ _ Em).
  - exact (Hh e _ _ _ E).
Qed.

Lemma returns_weaken {A} (Q Q' : A → Prop) (m : M A) :
  (∀ a, Q a → Q' a) → returns Q m → returns Q' m.
Proof. intros H Hm w a w' E. exact (H _ (Hm _ _ _ E)). Qed.

Ltac returns_step :=
  lazymatch goal with
  | |- returns _ (bind _ _) => apply returns_bind; intros ?
  | |- returns _ (try_except _ _) => apply returns_try_except; [|intros ?]
  | |- returns _ (ret _) => apply returns_ret
  | |- returns _ (raise _) => apply returns_raise
  | |- returns _ spin => apply returns_spin
  | |- returns _ (if ?b then _ else _) => destruct b eqn:?
  | |- returns _ (match ?x with _ => _ end) => destruct x eqn:?
  | |- returns _ (let _ := _ in _) => cbv zeta
  end.

(** ** Priority ordering *)

Lemma insert_by_key_front {A} (kx : Z * A) (l : list (Z * A)) :
  Forall (λ ky, kx.1 ≤ ky.1) l → insert_by_key kx l = kx :: l.
Proof.
  destruct l as [|ky l]; [reflexivity|]. intros H. apply Forall_cons in H as [H _].
  simpl. apply Z.leb_le in H. rewrite H. reflexivity.
Qed.

Lemma insert_by_key_skip {A} (kx : Z * A) (l0 l1 : list (Z * A)) :
  Forall (λ ky, ky.1 < kx.1) l0 → insert_by_key kx (l0 ++ l1) = l0 ++ insert_by_key kx l1.
Proof.
  induction l0 as [|ky l0 IH]; intros H; [reflexivity|].
  apply Forall_cons in H as [Hy H]. simpl.
  destruct (kx.1 <=? ky.1) eqn:E; [apply Z.leb_le in E; lia|].
  rewrite IH by assumption. reflexivity.
Qed.

Lemma stable_sort_two_classes {A} (l : list (Z * A)) :
  Forall (λ kx, kx.1 = 0 ∨ kx.1 = 1) l →
  stable_sort l = filter (λ kx, kx.1 = 0) l ++ filter (λ kx, kx.1 ≠ 0) l.
Proof.
  induction l as [|kx l IH]; intros H; [reflexivity|].
  apply Forall_cons in H as [Hx H]. unfold stable_sort in *. simpl. rewrite IH by assumption.
  rewrite !filter_cons. destruct Hx as [Hx|Hx].
  - rewrite decide_True by assumption. rewrite decide_False by lia.
    apply insert_by_key_front. apply Forall_app. split.
    + apply Forall_forall. intros ky Hy. apply list_elem_of_filter in Hy as [Hy _]. lia.
    + apply Forall_forall. intros ky Hy. apply list_elem_of_filter in Hy as [_ Hy].
      rewrite Forall_forall in H. destruct (H _ Hy); lia.
  - rewrite decide_False by lia. rewrite decide_True by lia.
    rewrite insert_by_key_skip.
    + f_equal. apply insert_by_key_front.
      apply Forall_forall. intros ky Hy. apply list_elem_of_filter in Hy as [Hy0 Hy].
      rewrite Forall_forall in H. destruct (H _ Hy); lia.
    + apply Forall_forall. intros ky Hy. apply list_elem_of_filter in Hy as [Hy _]. lia.
Qed.

Lemma priority_of_range (e : MappingEntry) : priority_of e = 0 ∨ priority_of e = 1.
Proof. unfold priority_of. destruct (String.eqb _ _); auto. Qed.

Lemma get_account_priority_run (item : string * MappingEntry) (w : World) :
  (get_account_priority item w).1 = Ret (priority_of item.2).
Proof.
  unfold get_account_priority, priority_of.
  destruct (String.eqb (default "On Budget" (account_type item.2)) "On Budget");
    [reflexivity|].
  destruct (String.eqb (default "On Budget" (account_type item.2)) "Tracking"); reflexivity.
Qed.

Lemma keyed_run (l : list (string * MappingEntry)) (w : World) :
  (map_m (λ x, k <- get_account_priority x ;; ret (k, x)) l w).1
  = Ret (map (λ x, (priority_of x.2, x)) l).
Proof.
  revert w. induction l as [|x l IH]; intros w; [reflexivity|].
  simpl. unfold bind at 1. unfold bind at 1.
  pose proof (get_account_priority_run x w) as Hx.
  destruct (get_account_priority x w) as [o w1]. simpl in Hx. subst o. simpl.
  unfold bind at 1. specialize (IH w1).
  destruct (map_m _ l w1) as [o w2]. simpl in IH. subst o. reflexivity.
Qed.

Lemma priority_order_keyed (l : list (string * MappingEntry)) :
  map snd (stable_sort (map (λ x, (priority_of x.2, x)) l)) = priority_order l.
Proof.
  rewrite stable_sort_two_classes.
  - unfold priority_order. rewrite map_app. f_equal.
    + induction l as [|x l IH]; [reflexivity|]. simpl. rewrite !filter_cons. unfold on_budget.
      simpl. destruct (Z.eqb_spec (priority_of x.2) 0) as [E|E].
      * rewrite decide_True by assumption. rewrite decide_True by reflexivity.
        simpl. rewrite IH. reflexivity.
      * rewrite decide_False by assumption. rewrite decide_False by discriminate. exact IH.
    + induction l as [|x l IH]; [reflexivity|]. simpl. rewrite !filter_cons. unfold on_budget.
      simpl. destruct (Z.eqb_spec (priority_of x.2) 0) as [E|E].
      * rewrite decide_False by (intros ?; contradiction).
        rewrite decide_False by discriminate. exact IH.
      * rewrite decide_True by assumption. rewrite decide_True by reflexivity.
        simpl. rewrite IH. reflexivity.
  - apply Forall_forall. intros kx Hkx. apply list_elem_of_fmap in Hkx as (x & -> & _).
    apply priority_of_range.
Qed.

(** [sorted(mapping_list.items(), key=get_account_priority)] returns the
    accounts in priority order. *)
Lemma sorted_run (l : list (string * MappingEntry)) (w : World) :
  (sorted l get_account_priority w).1 = Ret (priority_order l).
Proof.
  unfold sorted, bind. pose proof (keyed_run l w) as H.
  destruct (map_m _ l w) as [o w1]. simpl in H. subst o. simpl.
  rewrite priority_order_keyed. reflexivity.
Qed.

(** ** The structure of a pass *)

Lemma bind_unfold {A B} (m : M A) (k : A → M B) (w : World) :
  bind m k w = match m w with
               | (Ret a, w') => k a w'
               | (Raise e, w') => (Raise e, w')
               | (Spin, w') => (Spin, w')
               end.
Proof. reflexivity. Qed.

Lemma bind_ret_inv {A B} (m : M A) (k : A → M B) w b w' :
  bind m k w = (Ret b, w') → ∃ a w1, m w = (Ret a, w1) ∧ k a w1 = (Ret b, w').
Proof.
  rewrite bind_unfold. destruct (m w) as [[a|e|] w1]; try discriminate. eauto.
Qed.

Lemma try_except_ret_inv {A} (m : M A) (h : Exn → M A) w a w' :
  (∀ e w1, (h e w1).1 ≠ Ret a) →
  try_except m h w = (Ret a, w') → m w = (Ret a, w').
Proof.
  intros Hh. unfold try_except. destruct (m w) as [[a0|e|] w1]; try discriminate; [auto|].
  intros E. destruct (Hh e w1). rewrite E. reflexivity.
Qed.

Lemma of_option_ret_inv {A} (o : option A) e w a w' :
  of_option o e w = (Ret a, w') → o = Some a ∧ w' = w.
Proof. destruct o; simpl; intros H; inversion H; auto. Qed.

(** Destructs the run of the first computation of the outermost [bind]
    that is applied to a world, keeping what [tac] proves about it. *)
Ltac bind_run E :=
  match goal with
  | |- context [bind ?m ?k ?w] =>
      rewrite (bind_unfold m k w);
      destruct (m w) as [[?|?|] ?] eqn:E; simpl
  end.

Lemma run_eq_quiet {A} (P : Tag → bool) (m : M A) (w : World) o w' :
  preserves (quiet P) m → m w = (o, w') → quiet P w w'.
Proof. intros H E. specialize (H w). rewrite E in H. exact H. Qed.

Lemma get_account_priority_frame (item : string * MappingEntry) (w : World) :
  mapping_list (get_account_priority item w).2 = mapping_list w.
Proof.
  unfold get_account_priority.
  destruct (String.eqb _ "On Budget"); [reflexivity|].
  destruct (String.eqb _ "Tracking"); reflexivity.
Qed.

Lemma sorted_frame (l : list (string * MappingEntry)) (w : World) :
  mapping_list (sorted l get_account_priority w).2 = mapping_list w.
Proof.
  unfold sorted. rewrite bind_unfold.
  assert (H : mapping_list (map_m (λ x, k <- get_account_priority x ;; ret (k, x)) l w).2
              = mapping_list w).
  { revert w. induction l as [|x l IH]; intros w; [reflexivity|].
    simpl. rewrite bind_unfold. rewrite bind_unfold.
    pose proof (get_account_priority_frame x w) as Hx.
    pose proof (get_account_priority_run x w) as Hr.
    destruct (get_account_priority x w) as [o w1]. simpl in *. subst o. simpl.
    rewrite bind_unfold. specialize (IH w1).
    destruct (map_m _ l w1) as [[a|e|] w2]; simpl in *; congruence. }
  destruct (map_m _ l w) as [[a|e|] w1]; exact H.
Qed.

Lemma sync_to_ynab_run env fuel dbg w :
  PassRun env (sync_to_ynab_accounts env fuel dbg) (persist_ynab env) w
    (sync_to_ynab env fuel dbg w).
Proof.
  unfold sync_to_ynab. rewrite bind_unfold. simpl.
  pose proof (sorted_run (mapping_list w) w) as Hs.
  assert (Hq : ∀ P, P Plain = false → quiet P w (sorted (mapping_list w) get_account_priority w).2)
    by (intros P HP; apply quiet_sorted, HP).
  bind_run E1; simpl in Hs; try discriminate. inversion Hs; subst.
  bind_run E2.
  - apply (reached_persist _ _ _ _ _ w0 a w1 w1); [exact Hq | exact E2 | | reflexivity].
    intros; reflexivity.
  - apply (stopped_in_loop _ _ _ _ _ w0); [exact Hq| | |]; try rewrite E2; simpl; congruence.
  - apply (stopped_in_loop _ _ _ _ _ w0); [exact Hq| | |]; try rewrite E2; simpl; congruence.
Qed.

Lemma sync_to_ab_run env fuel dbg w :
  PassRun env (sync_to_ab_accounts env fuel dbg) (persist_ab env) w
    (sync_to_ab env fuel dbg w).
Proof.
  unfold sync_to_ab.
  match goal with
  | |- context [bind ?m ?k w] =>
      assert (Hq0 : ∀ P, P Plain = false → preserves (quiet P) m) by (intros; quiet_tac);
      assert (Hf0 : mapping_list (m w).2 = mapping_list w)
  end.
  { destruct (FORCE_REFRESH env); [|reflexivity].
    unfold bind, log, actual_call, external, modify. simpl.
    destruct (fault env (calls w)); [reflexivity|]. simpl.
    destruct (fault env (S (calls w))); reflexivity. }
  bind_run E0; simpl in Hf0.
  2,3: apply stopped_before_loop; [simpl; congruence|];
       intros P HP; simpl; eapply run_eq_quiet; [apply Hq0, HP | exact E0].
  rewrite bind_unfold. simpl.
  pose proof (sorted_run (mapping_list w0) w0) as Hs.
  assert (Hq1 : ∀ P, P Plain = false → quiet P w w0)
    by (intros P HP; eapply run_eq_quiet; [apply Hq0, HP | exact E0]).
  assert (Hq : ∀ P, P Plain = false → quiet P w (sorted (mapping_list w0) get_account_priority w0).2).
  { intros P HP. etransitivity; [apply Hq1, HP | apply quiet_sorted, HP]. }
  bind_run E1; simpl in Hs; try discriminate. inversion Hs; subst. rewrite Hf0.
  bind_run E2.
  2,3: apply (stopped_in_loop _ _ _ _ _ w1); [exact Hq| | |]; try rewrite E2; simpl; congruence.
  match goal with
  | |- context [bind ?m ?k ?w'] =>
      assert (Hq3 : ∀ P, P Plain = false → preserves (quiet P) m)
        by (intros; pose proof quiet_commit; quiet_tac)
  end.
  bind_run E3.
  - apply (reached_persist _ _ _ _ _ w1 a0 w2 w3); [exact Hq | exact E2 | | reflexivity].
    intros P HP. eapply run_eq_quiet; [apply Hq3, HP | exact E3].
  - apply (stopped_in_commit _ _ _ _ _ w1 a0 w2); [exact Hq | exact E2 | simpl; congruence |].
    intros P HP. simpl. eapply run_eq_quiet; [apply Hq3, HP | exact E3].
  - apply (stopped_in_commit _ _ _ _ _ w1 a0 w2); [exact Hq | exact E2 | simpl; congruence |].
    intros P HP. simpl. eapply run_eq_quiet; [apply Hq3, HP | exact E3].
Qed.

(** *** The batch update *)

Lemma stamped_empty dnm stamp t (m : gmap string MappingEntry) : stamped dnm stamp t ∅ m = m.
Proof. unfold stamped. apply set_fold_empty. Qed.

(** The batch leaves alone the accounts that are not in the set ... *)
Lemma stamped_lookup_other dnm stamp t (ids : gset string) (m : gmap string MappingEntry) i :
  i ∉ ids → stamped dnm stamp t ids m !! i = m !! i.
Proof.
  unfold stamped.
  apply (set_fold_ind_L (λ r X, i ∉ X → r !! i = m !! i)); [reflexivity|].
  intros x X r Hx IH Hi. unfold stamp_synced.
  assert (x ≠ i) by set_solver. assert (i ∉ X) by set_solver.
  destruct (r !! x) as [e|]; [|auto]. destruct (truthy_flag (dnm e)); [auto|].
  rewrite lookup_insert_ne by assumption. auto.
Qed.

(** ... and those whose persisted entry carries the do-not-map flag. *)
Lemma stamped_lookup_flagged dnm stamp t (ids : gset string) (m : gmap string MappingEntry) i e :
  m !! i = Some e → truthy_flag (dnm e) = true → stamped dnm stamp t ids m !! i = Some e.
Proof.
  intros Hm Hflag. unfold stamped.
  apply (set_fold_ind_L (λ r (X : gset string), r !! i = Some e)); [exact Hm|].
  intros x X r Hx IH. unfold stamp_synced.
  destruct (r !! x) as [e'|] eqn:Erx; [|exact IH].
  destruct (truthy_flag (dnm e')) eqn:Ef; [exact IH|].
  destruct (decide (x = i)) as [->|Hne]; [congruence|].
  rewrite lookup_insert_ne by assumption. exact IH.
Qed.

Lemma quiet_traces P w w' : quiet P w w' → traces P w w'.
Proof. intros [_ H]. exact H. Qed.

Lemma quiet_same_file P w w' : quiet P w w' → mapping_file w' = mapping_file w.
Proof. intros [H _]. exact H. Qed.

#[global] Instance traces_refl P : Reflexive (traces P).
Proof. intros w. exists []. rewrite app_nil_r. auto. Qed.

#[global] Instance traces_trans P : Transitive (traces P).
Proof.
  intros w1 w2 w3 (ev1 & Ht1 & Hp1) (ev2 & Ht2 & Hp2).
  exists (ev1 ++ ev2). rewrite Ht2, Ht1, app_assoc. split; [reflexivity|].
  apply Forall_app; auto.
Qed.

Lemma update_mapping_timestamps_run env ab yn w :
  let r := update_mapping_timestamps env ab yn w in
  (∀ P, P Plain = false → traces P w r.2)
  ∧ match r.1 with
    | Ret _ =>
        mapping_file r.2
        = (let m := match ab with
                    | Some ids => stamped actual_do_not_map set_actual_synced_datetime
                                    (utc_stamp env (clock w)) ids (mapping_file w)
                    | None => mapping_file w
                    end in
           match yn with
           | Some ids => stamped ynab_do_not_map set_ynab_synced_datetime
                           (utc_stamp env (clock w)) ids m
           | None => m
           end)
    | _ => mapping_file r.2 = mapping_file w
    end.
Proof.
  unfold update_mapping_timestamps, load_existing_mapping, save_mapping, external, now,
    get_world, modify, bind, ret. simpl.
  destruct (fault env (calls w)); simpl.
  { split; [|reflexivity]. intros P HP. exists [Request LoadMapping]. simpl. auto. }
  destruct (fault env (S (calls w))); simpl.
  - split; [|reflexivity]. intros P HP.
    exists [Request LoadMapping; Request SaveMapping]. simpl. rewrite <- app_assoc. simpl. auto.
  - split; [|reflexivity]. intros P HP.
    exists [Request LoadMapping; Request SaveMapping]. simpl. rewrite <- app_assoc. simpl. auto.
Qed.

Lemma persist_ab_run env done w :
  let r := persist_ab env done w in
  (∀ P, P Plain = false → traces P w r.2)
  ∧ match r.1 with
    | Ret n =>
        n = done.2
        ∧ mapping_file r.2
          = stamped actual_do_not_map set_actual_synced_datetime (utc_stamp env (clock w))
              done.1 (mapping_file w)
    | _ => mapping_file r.2 = mapping_file w
    end.
Proof.
  unfold persist_ab. simpl. rewrite bind_unfold.
  destruct (bool_decide (done.1 ≠ ∅)) eqn:E.
  - pose proof (update_mapping_timestamps_run env (Some done.1) None w) as [Ht Hf].
    simpl in Ht, Hf.
    destruct (update_mapping_timestamps env (Some done.1) None w) as [[[]|e|] w1];
      simpl in *; auto.
  - simpl. split; [intros; reflexivity|]. split; [reflexivity|].
    apply bool_decide_eq_false in E. apply dec_stable in E. rewrite E, stamped_empty.
    reflexivity.
Qed.

Lemma persist_ynab_run env done w :
  let r := persist_ynab env done w in
  (∀ P, P Plain = false → traces P w r.2)
  ∧ match r.1 with
    | Ret n =>
        n = done.2
        ∧ mapping_file r.2
          = stamped ynab_do_not_map set_ynab_synced_datetime (utc_stamp env (clock w))
              done.1 (mapping_file w)
    | _ => mapping_file r.2 = mapping_file w
    end.
Proof.
  unfold persist_ynab. simpl. rewrite bind_unfold.
  destruct (bool_decide (done.1 ≠ ∅)) eqn:E.
  - pose proof (update_mapping_timestamps_run env None (Some done.1) w) as [Ht Hf].
    simpl in Ht, Hf.
    destruct (update_mapping_timestamps env None (Some done.1) w) as [[[]|e|] w1];
      simpl in *; auto.
  - simpl. split; [intros; reflexivity|]. split; [reflexivity|].
    apply bool_decide_eq_false in E. apply dec_stable in E. rewrite E, stamped_empty.
    reflexivity.
Qed.

Lemma quiet_sync_to_ab_accounts env P fuel dbg l :
  P Plain = false →
  (∀ item, item ∈ l → P (Fetch item.1) = false ∧ P (Visit ActualBudget item.1) = false) →
  preserves (quiet P) (sync_to_ab_accounts env fuel dbg l).
Proof.
  intros HP Hl. unfold sync_to_ab_accounts. apply quiet_for_each. intros item acc Hitem.
  destruct (Hl item Hitem). apply quiet_sync_to_ab_account; assumption.
Qed.

Lemma quiet_sync_to_ynab_accounts env P fuel dbg l :
  P Plain = false →
  (∀ item, item ∈ l → P (Fetch item.1) = false ∧ P (Visit YNAB item.1) = false) →
  preserves (quiet P) (sync_to_ynab_accounts env fuel dbg l).
Proof.
  intros HP Hl. unfold sync_to_ynab_accounts. apply quiet_for_each. intros item acc Hitem.
  destruct (Hl item Hitem). apply quiet_sync_to_ynab_account; assumption.
Qed.

(** ** Partial-failure watermark safety *)

Lemma pass_file env loop persist w r
    (stamp_of : World → gset string → gmap string MappingEntry → gmap string MappingEntry) :
  PassRun env loop persist w r →
  (∀ l, preserves (quiet nothing) (loop l)) →
  (∀ done w3, match (persist done w3).1 with
              | Ret _ => mapping_file (persist done w3).2 = stamp_of w3 done.1 (mapping_file w3)
              | _ => mapping_file (persist done w3).2 = mapping_file w3
              end) →
  match r.1 with
  | Ret _ => ∃ w3 ids, mapping_file r.2 = stamp_of w3 ids (mapping_file w)
  | _ => mapping_file r.2 = mapping_file w
  end.
Proof.
  intros Hrun Hloop Hpersist.
  destruct Hrun as [Hn Hq | w1 Hq Hl Hn Hr | w1 done w2 Hq El Hn Hq2 | w1 done w2 w3 Hq El Hq2 ->].
  - destruct r as [[n|e|] w']; simpl in *; [destruct (Hn n); reflexivity|..];
      exact (quiet_same_file _ _ _ (Hq nothing eq_refl)).
  - pose proof (quiet_same_file _ _ _ (Hq nothing eq_refl)) as H1.
    pose proof (quiet_same_file _ _ _ (Hloop (priority_order (mapping_list w)) w1)) as H2.
    destruct r as [[n|e|] w']; simpl in *; [destruct (Hn n); reflexivity|..]; congruence.
  - pose proof (quiet_same_file _ _ _ (Hq nothing eq_refl)) as H1.
    pose proof (quiet_same_file _ _ _ (Hloop (priority_order (mapping_list w)) w1)) as H2. rewrite El in H2. simpl in H2.
    pose proof (quiet_same_file _ _ _ (Hq2 nothing eq_refl)) as H3.
    destruct r as [[n|e|] w']; simpl in *; [destruct (Hn n); reflexivity|..]; congruence.
  - pose proof (quiet_same_file _ _ _ (Hq nothing eq_refl)) as H1.
    pose proof (quiet_same_file _ _ _ (Hloop (priority_order (mapping_list w)) w1)) as H2. rewrite El in H2. simpl in H2.
    pose proof (quiet_same_file _ _ _ (Hq2 nothing eq_refl)) as H3.
    specialize (Hpersist done w3).
    destruct (persist done w3) as [[n|e|] w']; simpl in *; [|congruence..].
    exists w3, done.1. congruence.
Qed.

(** C2. Whatever makes a pass raise (a failing fetch, an unreadable
    transaction, a failing commit or remote sync, an unknown account type
    in the Actual pass, a failing read or write of the mapping file) or
    not return, the persisted mapping is what it was before the pass, for
    every account, also those that the pass had already processed. A pass
    that returns has written the mapping at most once, after its loop and
    its commit: the persisted mapping is the one of before the pass with
    one timestamp set on a set of accounts. *)
Theorem watermarks_only_in_final_batch env fuel dbg w :
  match (sync_to_ab env fuel dbg w).1 with
  | Ret _ =>
      ∃ t ids, mapping_file (sync_to_ab env fuel dbg w).2
               = stamped actual_do_not_map set_actual_synced_datetime t ids (mapping_file w)
  | _ => mapping_file (sync_to_ab env fuel dbg w).2 = mapping_file w
  end
  ∧ match (sync_to_ynab env fuel dbg w).1 with
    | Ret _ =>
        ∃ t ids, mapping_file (sync_to_ynab env fuel dbg w).2
                 = stamped ynab_do_not_map set_ynab_synced_datetime t ids (mapping_file w)
    | _ => mapping_file (sync_to_ynab env fuel dbg w).2 = mapping_file w
    end.
Proof.
  split.
  - pose proof (pass_file env _ _ w _
      (λ w3, stamped actual_do_not_map set_actual_synced_datetime (utc_stamp env (clock w3)))
      (sync_to_ab_run env fuel dbg w)) as H.
    destruct (sync_to_ab env fuel dbg w) as [[n|e|] w']; simpl in *.
    + destruct H as (w3 & ids & H); [| |eauto].
      * intros l. apply quiet_sync_to_ab_accounts; [reflexivity|]. intros; split; reflexivity.
      * intros done w3. pose proof (persist_ab_run env done w3) as [_ Hp].
        destruct (persist_ab env done w3) as [[n'|e'|] w'']; simpl in *; [apply Hp|exact Hp..].
    + apply H.
      * intros l. apply quiet_sync_to_ab_accounts; [reflexivity|]. intros; split; reflexivity.
      * intros done w3. pose proof (persist_ab_run env done w3) as [_ Hp].
        destruct (persist_ab env done w3) as [[n'|e'|] w'']; simpl in *; [apply Hp|exact Hp..].
    + apply H.
      * intros l. apply quiet_sync_to_ab_accounts; [reflexivity|]. intros; split; reflexivity.
      * intros done w3. pose proof (persist_ab_run env done w3) as [_ Hp].
        destruct (persist_ab env done w3) as [[n'|e'|] w'']; simpl in *; [apply Hp|exact Hp..].
  - pose proof (pass_file env _ _ w _
      (λ w3, stamped ynab_do_not_map set_ynab_synced_datetime (utc_stamp env (clock w3)))
      (sync_to_ynab_run env fuel dbg w)) as H.
    destruct (sync_to_ynab env fuel dbg w) as [[n|e|] w']; simpl in *.
    + destruct H as (w3 & ids & H); [| |eauto].
      * intros l. apply quiet_sync_to_ynab_accounts; [reflexivity|]. intros; split; reflexivity.
      * intros done w3. pose proof (persist_ynab_run env done w3) as [_ Hp].
        destruct (persist_ynab env done w3) as [[n'|e'|] w'']; simpl in *; [apply Hp|exact Hp..].
    + apply H.
      * intros l. apply quiet_sync_to_ynab_accounts; [reflexivity|]. intros; split; reflexivity.
      * intros done w3. pose proof (persist_ynab_run env done w3) as [_ Hp].
        destruct (persist_ynab env done w3) as [[n'|e'|] w'']; simpl in *; [apply Hp|exact Hp..].
    + apply H.
      * intros l. apply quiet_sync_to_ynab_accounts; [reflexivity|]. intros; split; reflexivity.
      * intros done w3. pose proof (persist_ynab_run env done w3) as [_ Hp].
        destruct (persist_ynab env done w3) as [[n'|e'|] w'']; simpl in *; [apply Hp|exact Hp..].
Qed.

(** A pass over an On-Budget and a Tracking account in which the commit of
    the balance adjustment of the second fails: the pass raises with the
    two transactions of the first account and the adjustment in the
    session, and the persisted entry of the first account is that of
    before the pass; the same pass without the failure returns and stamps
    it. *)
Example failing_commit_keeps_watermarks :
  let e1 := sample.entry None (Some "actual-1") (Some "ynab-1") None None in
  let e3 := sample.entry (Some "Tracking") (Some "actual-3") (Some "ynab-3") None None in
  let w := sample.world [("acc_3", e3); ("acc_1", e1)] in
  let failed := sync_to_ab (sample.env_failing 13) 5 None w in
  let passed := sync_to_ab sample.env 5 None w in
  failed.1 = Raise (RuntimeError "Failed to commit balance adjustment to Actual")
  ∧ visits ActualBudget (trace failed.2) = ["acc_1"; "acc_3"]
  ∧ length (rows (actual failed.2)) = 3%nat
  ∧ mapping_file failed.2 !! "acc_1" = Some e1
  ∧ passed.1 = Ret 3
  ∧ mapping_file passed.2 !! "acc_1"
    = Some (set_actual_synced_datetime "2025-06-02T00:00:00Z" e1).
Proof. repeat split; vm_compute; reflexivity. Qed.

(** ** Priority ordering of a pass *)

Lemma visits_app d l1 l2 : visits d (l1 ++ l2) = visits d l1 ++ visits d l2.
Proof. unfold visits. apply omap_app. Qed.

Lemma traces_visits d w w' : traces is_visit w w' → visits d (trace w') = visits d (trace w).
Proof.
  intros (evs & -> & H). rewrite visits_app.
  assert (E : visits d evs = []); [|rewrite E; apply app_nil_r].
  induction H as [|e evs He _ IH]; [reflexivity|]. unfold visits in *.
  assert (Hv : visit_of d e = None)
    by (unfold visit_of; destruct (tag e); simpl in *; congruence).
  change (omap (visit_of d) (e :: evs))
    with (match visit_of d e with
          | Some y => y :: omap (visit_of d) evs
          | None => omap (visit_of d) evs
          end).
  rewrite Hv. exact IH.
Qed.

Lemma visits_after_log {A} d l m (k : M A) w i :
  visit_of d (Log l m) = Some i → preserves (quiet is_visit) k →
  visits d (trace ((log l m ;;; k) w).2) = visits d (trace w) ++ [i].
Proof.
  intros Hv Hk. rewrite bind_unfold. simpl.
  rewrite (traces_visits d _ _ (quiet_traces _ _ _ (Hk (add_event (Log l m) w)))).
  simpl. rewrite visits_app. unfold visits at 2. simpl. rewrite Hv. reflexivity.
Qed.

(** A turn of a pass shows in the trace as one visit, of its account. *)
Lemma sync_to_ab_account_visits env fuel dbg item acc w :
  visits ActualBudget (trace (sync_to_ab_account env fuel dbg item acc w).2)
  = visits ActualBudget (trace w) ++ [item.1].
Proof.
  unfold sync_to_ab_account.
  destruct (truthy_flag _); [apply visits_after_log; [reflexivity | quiet_tac]|].
  destruct (negb _); [apply visits_after_log; [reflexivity | quiet_tac]|].
  apply visits_after_log; [reflexivity|].
  quiet_tac.
Qed.

Lemma sync_to_ynab_account_visits env fuel dbg item acc w :
  visits YNAB (trace (sync_to_ynab_account env fuel dbg item acc w).2)
  = visits YNAB (trace w) ++ [item.1].
Proof.
  unfold sync_to_ynab_account.
  destruct (truthy_flag _); [apply visits_after_log; [reflexivity | quiet_tac]|].
  destruct (negb _); [apply visits_after_log; [reflexivity | quiet_tac]|].
  apply visits_after_log; [reflexivity|].
  quiet_tac.
Qed.

(** A loop visits the accounts of its list in order, all of them when it
    returns and the first of them when it does not. *)
Lemma for_each_visits {St} d (body : string * MappingEntry → St → M St) l acc w :
  (∀ item s w, visits d (trace (body item s w).2) = visits d (trace w) ++ [item.1]) →
  ∃ n, visits d (trace (for_each l body acc w).2) = visits d (trace w) ++ take n l.*1
       ∧ (∀ s, (for_each l body acc w).1 = Ret s → n = length l).
Proof.
  intros Hbody. revert acc w. induction l as [|item l IH]; intros acc w.
  - exists 0%nat. simpl. rewrite app_nil_r. auto.
  - simpl. rewrite bind_unfold. specialize (Hbody item acc w).
    destruct (body item acc w) as [[s|e|] w1]; simpl in Hbody.
    + destruct (IH s w1) as (n & Hn & Hlen). exists (S n). rewrite Hn, Hbody.
      rewrite <- app_assoc. split; [reflexivity|]. intros s' Hs'. rewrite (Hlen s' Hs').
      reflexivity.
    + exists 1%nat. simpl. rewrite Hbody, take_0. split; [reflexivity|]. discriminate.
    + exists 1%nat. simpl. rewrite Hbody, take_0. split; [reflexivity|]. discriminate.
Qed.

Lemma pass_visits env d loop persist w r :
  PassRun env loop persist w r →
  (∀ l w1, ∃ n, visits d (trace (loop l w1).2) = visits d (trace w1) ++ take n l.*1
                ∧ (∀ s, (loop l w1).1 = Ret s → n = length l)) →
  (∀ done w3, traces is_visit w3 (persist done w3).2) →
  ∃ n, visits d (trace r.2) = visits d (trace w) ++ take n (priority_order (mapping_list w)).*1
       ∧ (∀ k, r.1 = Ret k → n = length (priority_order (mapping_list w))).
Proof.
  intros Hrun Hloop Hpersist.
  destruct Hrun as [Hn Hq | w1 Hq Hl Hn Hr | w1 done w2 Hq El Hn Hq2 | w1 done w2 w3 Hq El Hq2 ->].
  - exists 0%nat. rewrite (traces_visits d _ _ (quiet_traces _ _ _ (Hq is_visit eq_refl))).
    simpl. rewrite app_nil_r. split; [reflexivity|]. intros k Hk. destruct (Hn k Hk).
  - destruct (Hloop (priority_order (mapping_list w)) w1) as (n & Hv & _).
    exists n. rewrite Hr, Hv.
    rewrite (traces_visits d _ _ (quiet_traces _ _ _ (Hq is_visit eq_refl))).
    split; [reflexivity|]. intros k Hk. destruct (Hn k Hk).
  - destruct (Hloop (priority_order (mapping_list w)) w1) as (n & Hv & _).
    exists n. rewrite El in Hv. simpl in Hv.
    rewrite (traces_visits d _ _ (quiet_traces _ _ _ (Hq2 is_visit eq_refl))), Hv.
    rewrite (traces_visits d _ _ (quiet_traces _ _ _ (Hq is_visit eq_refl))).
    split; [reflexivity|]. intros k Hk. destruct (Hn k Hk).
  - destruct (Hloop (priority_order (mapping_list w)) w1) as (n & Hv & Hlen).
    exists n. rewrite El in Hv, Hlen. simpl in Hv, Hlen.
    rewrite (traces_visits d _ _ (Hpersist done w3)).
    rewrite (traces_visits d _ _ (quiet_traces _ _ _ (Hq2 is_visit eq_refl))), Hv.
    rewrite (traces_visits d _ _ (quiet_traces _ _ _ (Hq is_visit eq_refl))).
    split; [reflexivity|]. intros k _. apply (Hlen done). reflexivity.
Qed.

(** C6. In both passes the accounts are taken in priority order: every
    On-Budget account of the mapping before every other account, each
    class in the order of the mapping. The accounts a pass turns to, read
    off its trace, are the first [n] accounts of that order, and all of
    them when the pass returns. *)
Theorem on_budget_accounts_first env fuel dbg w :
  let order := filter (λ item, on_budget item = true) (mapping_list w)
               ++ filter (λ item, on_budget item = false) (mapping_list w) in
  (sorted (mapping_list w) get_account_priority w).1 = Ret order
  ∧ (∃ n, visits ActualBudget (trace (sync_to_ab env fuel dbg w).2)
          = visits ActualBudget (trace w) ++ take n order.*1
          ∧ (∀ k, (sync_to_ab env fuel dbg w).1 = Ret k → n = length order))
  ∧ (∃ n, visits YNAB (trace (sync_to_ynab env fuel dbg w).2)
          = visits YNAB (trace w) ++ take n order.*1
          ∧ (∀ k, (sync_to_ynab env fuel dbg w).1 = Ret k → n = length order)).
Proof.
  split; [apply sorted_run|]. split.
  - apply (pass_visits env ActualBudget _ _ w _ (sync_to_ab_run env fuel dbg w)).
    + intros l w1. apply for_each_visits. intros. apply sync_to_ab_account_visits.
    + intros done w3. apply (persist_ab_run env done w3). reflexivity.
  - apply (pass_visits env YNAB _ _ w _ (sync_to_ynab_run env fuel dbg w)).
    + intros l w1. apply for_each_visits. intros. apply sync_to_ynab_account_visits.
    + intros done w3. apply (persist_ynab_run env done w3). reflexivity.
Qed.

(** ** Skipped accounts and unknown account types *)

(** C8. An account that lacks the budget id or the account id of a
    destination is skipped by the pass to that destination: its turn
    returns, raises nothing, leaves the accumulators as they were and
    changes the world by one log line only (the warning about the missing
    ids, or the debug line of the do-not-map check when the account is
    flagged as well, since that check comes first); the loop then goes on
    with the remaining accounts. *)
Theorem missing_ids_skip_and_continue env fuel dbg i e acc rest w :
  (truthy_str (actual_budget_id e) && truthy_str (actual_account_id e) = false →
   sync_to_ab_account env fuel dbg (i, e) acc w
   = (Ret acc, add_event (skip_line ActualBudget (actual_do_not_map e) i) w)
   ∧ for_each ((i, e) :: rest) (sync_to_ab_account env fuel dbg) acc w
     = for_each rest (sync_to_ab_account env fuel dbg) acc
         (add_event (skip_line ActualBudget (actual_do_not_map e) i) w))
  ∧ (truthy_str (ynab_budget_id e) && truthy_str (ynab_account_id e) = false →
     sync_to_ynab_account env fuel dbg (i, e) acc w
     = (Ret acc, add_event (skip_line YNAB (ynab_do_not_map e) i) w)
     ∧ for_each ((i, e) :: rest) (sync_to_ynab_account env fuel dbg) acc w
       = for_each rest (sync_to_ynab_account env fuel dbg) acc
           (add_event (skip_line YNAB (ynab_do_not_map e) i) w)).
Proof.
  split; intros Hids.
  - assert (E : sync_to_ab_account env fuel dbg (i, e) acc w
                = (Ret acc, add_event (skip_line ActualBudget (actual_do_not_map e) i) w)).
    { unfold sync_to_ab_account, skip_line. simpl.
      destruct (truthy_flag (actual_do_not_map e)); [reflexivity|].
      rewrite Hids. reflexivity. }
    split; [exact E|]. simpl. rewrite bind_unfold, E. reflexivity.
  - assert (E : sync_to_ynab_account env fuel dbg (i, e) acc w
                = (Ret acc, add_event (skip_line YNAB (ynab_do_not_map e) i) w)).
    { unfold sync_to_ynab_account, skip_line. simpl.
      destruct (truthy_flag (ynab_do_not_map e)); [reflexivity|].
      rewrite Hids. reflexivity. }
    split; [exact E|]. simpl. rewrite bind_unfold, E. reflexivity.
Qed.

Lemma missing_ids_skip_and_continue_witness :
  let e := sample.entry None None None None None in
  sync_to_ab_account sample.env 3 None ("acc_9", e) (∅, 0) (sample.world [("acc_9", e)])
  = (Ret (∅, 0),
     add_event (Log WARNING (SkipMissingIds ActualBudget "acc_9")) (sample.world [("acc_9", e)]))
  ∧ sync_to_ynab_account sample.env 3 None ("acc_9", e) (∅, 0) (sample.world [("acc_9", e)])
    = (Ret (∅, 0),
       add_event (Log WARNING (SkipMissingIds YNAB "acc_9")) (sample.world [("acc_9", e)])).
Proof.
  intros e.
  destruct (missing_ids_skip_and_continue sample.env 3 None "acc_9" e (∅, 0) []
              (sample.world [("acc_9", e)])) as [Hab Hynab].
  split; [apply Hab | apply Hynab]; reflexivity.
Defined.

(** C9. An account whose type is neither ["On Budget"] nor ["Tracking"]
    sorts with the Tracking accounts. When it is not skipped, its turn in
    the pass to Actual logs the error and reaches the bare [raise]: the
    turn raises and the loop stops there without turning to the remaining
    accounts; its turn in the pass to YNAB logs the same error, returns and
    leaves the accumulators as they were. *)
Theorem unknown_account_type env fuel dbg i e t acc rest w :
  account_type e = Some t → t ≠ "On Budget" → t ≠ "Tracking" →
  priority_of e = 1
  ∧ (truthy_flag (actual_do_not_map e) = false →
     truthy_str (actual_budget_id e) && truthy_str (actual_account_id e) = true →
     sync_to_ab_account env fuel dbg (i, e) acc w
     = (Raise (RuntimeError "No active exception to reraise"),
        unknown_type_lines ActualBudget i (actual_synced_datetime e) w)
     ∧ for_each ((i, e) :: rest) (sync_to_ab_account env fuel dbg) acc w
       = (Raise (RuntimeError "No active exception to reraise"),
          unknown_type_lines ActualBudget i (actual_synced_datetime e) w))
  ∧ (truthy_flag (ynab_do_not_map e) = false →
     truthy_str (ynab_budget_id e) && truthy_str (ynab_account_id e) = true →
     sync_to_ynab_account env fuel dbg (i, e) acc w
     = (Ret acc, unknown_type_lines YNAB i (ynab_synced_datetime e) w)).
Proof.
  intros Ht Hob Htr.
  apply String.eqb_neq in Hob, Htr.
  split; [|split].
  - unfold priority_of. rewrite Ht. simpl. rewrite Hob. reflexivity.
  - intros Hflag Hids.
    assert (E : sync_to_ab_account env fuel dbg (i, e) acc w
                = (Raise (RuntimeError "No active exception to reraise"),
                   unknown_type_lines ActualBudget i (actual_synced_datetime e) w)).
    { unfold sync_to_ab_account. simpl. rewrite Hflag, Hids, Ht. simpl.
      rewrite Hob, Htr. reflexivity. }
    split; [exact E|]. simpl. rewrite bind_unfold, E. reflexivity.
  - intros Hflag Hids.
    unfold sync_to_ynab_account. simpl. rewrite Hflag, Hids, Ht. simpl.
    rewrite Hob, Htr. reflexivity.
Qed.

Lemma unknown_account_type_witness :
  let e := sample.entry (Some "Savings") (Some "actual-1") (Some "ynab-1") None None in
  let w := sample.world [("acc_7", e)] in
  priority_of e = 1
  ∧ (sync_to_ab sample.env 3 None w).1 = Raise (RuntimeError "No active exception to reraise")
  ∧ sync_to_ab_account sample.env 3 None ("acc_7", e) (∅, 0) w
    = (Raise (RuntimeError "No active exception to reraise"),
       unknown_type_lines ActualBudget "acc_7" None w)
  ∧ sync_to_ynab_account sample.env 3 None ("acc_7", e) (∅, 0) w
    = (Ret (∅, 0), unknown_type_lines YNAB "acc_7" None w).
Proof.
  intros e w.
  destruct (unknown_account_type sample.env 3 None "acc_7" e "Savings" (∅, 0) [] w)
    as (Hp & Hab & Hynab); [reflexivity | discriminate | discriminate |].
  split; [exact Hp|]. split; [vm_compute; reflexivity|].
  split; [apply Hab | apply Hynab]; reflexivity.
Defined.

(** ** Which accounts a pass records as synced *)

Lemma unique_entry (l : list (string * MappingEntry)) i e1 e2 :
  NoDup l.*1 → (i, e1) ∈ l → (i, e2) ∈ l → e1 = e2.
Proof.
  induction l as [|[k e] l IH]; intros Hnd H1 H2; [inversion H1|].
  simpl in Hnd. apply NoDup_cons in Hnd as [Hk Hnd].
  apply elem_of_cons in H1 as [H1|H1]; apply elem_of_cons in H2 as [H2|H2].
  - congruence.
  - inversion H1; subst. destruct Hk. apply list_elem_of_fmap. exists (k, e2). auto.
  - inversion H2; subst. destruct Hk. apply list_elem_of_fmap. exists (k, e1). auto.
  - auto.
Qed.

Lemma elem_of_priority_order (l : list (string * MappingEntry)) item :
  item ∈ priority_order l → item ∈ l.
Proof.
  unfold priority_order. rewrite elem_of_app, !list_elem_of_filter. tauto.
Qed.

Ltac returns_tac := repeat returns_step; simpl; try set_solver.

(** A turn adds at most its own account to the set. *)
Lemma sync_to_ab_account_adds env fuel dbg item acc :
  returns (λ acc', acc'.1 ⊆ acc.1 ∪ {[item.1]}) (sync_to_ab_account env fuel dbg item acc).
Proof. unfold sync_to_ab_account. returns_tac. Qed.

Lemma sync_to_ynab_account_adds env fuel dbg item acc :
  returns (λ acc', acc'.1 ⊆ acc.1 ∪ {[item.1]}) (sync_to_ynab_account env fuel dbg item acc).
Proof. unfold sync_to_ynab_account. returns_tac. Qed.

Lemma for_each_keeps_out (body : string * MappingEntry → gset string * Z → M (gset string * Z))
    l i acc w done w' :
  (∀ item acc, item ∈ l → returns (λ acc', i ∈ acc'.1 → i ∈ acc.1) (body item acc)) →
  for_each l body acc w = (Ret done, w') → i ∈ done.1 → i ∈ acc.1.
Proof.
  revert acc w. induction l as [|item l IH]; intros acc w Hbody E Hi.
  - inversion E; subst. exact Hi.
  - simpl in E. rewrite bind_unfold in E.
    destruct (body item acc w) as [[acc1|e|] w1] eqn:E1; try discriminate.
    apply (Hbody item acc (list_elem_of_here _ _) _ _ _ E1).
    apply (IH acc1 w1); [|exact E|exact Hi].
    intros item' acc' Hitem'. apply Hbody. right. exact Hitem'.
Qed.

(** An account that has one entry in the mapping, whose own turn never
    adds it, is not in the set when the loop returns. *)
Lemma loop_keeps_out (body : string * MappingEntry → gset string * Z → M (gset string * Z))
    l i e w1 done w2 :
  NoDup l.*1 → (i, e) ∈ l →
  (∀ item acc, returns (λ acc', acc'.1 ⊆ acc.1 ∪ {[item.1]}) (body item acc)) →
  (∀ acc, returns (λ acc', acc' = acc) (body (i, e) acc)) →
  for_each (priority_order l) body (∅, 0) w1 = (Ret done, w2) → i ∉ done.1.
Proof.
  intros Hnd Hie Hadds Hown E Hi.
  apply (for_each_keeps_out body _ i _ _ _ _) in E; [set_solver| |exact Hi].
  intros [k e'] acc Hitem. apply elem_of_priority_order in Hitem.
  destruct (decide (k = i)) as [->|Hne].
  - rewrite (unique_entry l i e' e Hnd Hitem Hie).
    eapply returns_weaken; [|apply Hown]. simpl. intros acc' ->. auto.
  - eapply returns_weaken; [|apply Hadds]. simpl. intros acc' Hsub Hin.
    apply Hsub in Hin. set_solver.
Qed.

Lemma pass_entry env loop persist w r i :
  PassRun env loop persist w r →
  (∀ l, preserves (quiet nothing) (loop l)) →
  (∀ w1 done w2, loop (priority_order (mapping_list w)) w1 = (Ret done, w2) → i ∉ done.1) →
  (∀ done w3, i ∉ done.1 → mapping_file (persist done w3).2 !! i = mapping_file w3 !! i) →
  mapping_file r.2 !! i = mapping_file w !! i.
Proof.
  intros Hrun Hloop Hout Hpersist.
  destruct Hrun as [Hn Hq | w1 Hq Hl Hn Hr | w1 done w2 Hq El Hn Hq2 | w1 done w2 w3 Hq El Hq2 ->].
  - rewrite (quiet_same_file _ _ _ (Hq nothing eq_refl)). reflexivity.
  - rewrite Hr, (quiet_same_file _ _ _ (Hloop (priority_order (mapping_list w)) w1)).
    rewrite (quiet_same_file _ _ _ (Hq nothing eq_refl)). reflexivity.
  - pose proof (quiet_same_file _ _ _ (Hloop (priority_order (mapping_list w)) w1)) as H2.
    rewrite El in H2. simpl in H2.
    rewrite (quiet_same_file _ _ _ (Hq2 nothing eq_refl)), H2.
    rewrite (quiet_same_file _ _ _ (Hq nothing eq_refl)). reflexivity.
  - pose proof (quiet_same_file _ _ _ (Hloop (priority_order (mapping_list w)) w1)) as H2.
    rewrite El in H2. simpl in H2.
    rewrite (Hpersist done w3 (Hout _ _ _ El)).
    rewrite (quiet_same_file _ _ _ (Hq2 nothing eq_refl)), H2.
    rewrite (quiet_same_file _ _ _ (Hq nothing eq_refl)). reflexivity.
Qed.

Lemma persist_ab_entry env done w3 i :
  i ∉ done.1 → mapping_file (persist_ab env done w3).2 !! i = mapping_file w3 !! i.
Proof.
  intros Hi. pose proof (persist_ab_run env done w3) as [_ H].
  destruct (persist_ab env done w3) as [[n|e|] w4]; simpl in *; [|congruence..].
  destruct H as [_ ->]. apply stamped_lookup_other, Hi.
Qed.

Lemma persist_ynab_entry env done w3 i :
  i ∉ done.1 → mapping_file (persist_ynab env done w3).2 !! i = mapping_file w3 !! i.
Proof.
  intros Hi. pose proof (persist_ynab_run env done w3) as [_ H].
  destruct (persist_ynab env done w3) as [[n|e|] w4]; simpl in *; [|congruence..].
  destruct H as [_ ->]. apply stamped_lookup_other, Hi.
Qed.

Lemma pass_traces env P loop persist w r :
  P Plain = false →
  PassRun env loop persist w r →
  preserves (quiet P) (loop (priority_order (mapping_list w))) →
  (∀ done w3, traces P w3 (persist done w3).2) →
  traces P w r.2.
Proof.
  intros HP Hrun Hloop Hpersist.
  destruct Hrun as [Hn Hq | w1 Hq Hl Hn Hr | w1 done w2 Hq El Hn Hq2 | w1 done w2 w3 Hq El Hq2 ->].
  - apply quiet_traces, Hq, HP.
  - rewrite Hr. etransitivity; [apply quiet_traces, Hq, HP | apply quiet_traces, Hloop].
  - pose proof (Hloop w1) as H2. rewrite El in H2. simpl in H2.
    etransitivity; [apply quiet_traces, Hq, HP|].
    etransitivity; [apply quiet_traces, H2 | apply quiet_traces, Hq2, HP].
  - pose proof (Hloop w1) as H2. rewrite El in H2. simpl in H2.
    etransitivity; [apply quiet_traces, Hq, HP|].
    etransitivity; [apply quiet_traces, H2|].
    etransitivity; [apply quiet_traces, Hq2, HP | apply Hpersist].
Qed.

(** ** Do-not-sync isolation *)

Lemma flagged_ab_turn env fuel dbg i e acc w :
  truthy_flag (actual_do_not_map e) = true →
  sync_to_ab_account env fuel dbg (i, e) acc w
  = (Ret acc, add_event (Log DEBUG (SkipDoNotMap ActualBudget i)) w).
Proof. intros H. unfold sync_to_ab_account. simpl. rewrite H. reflexivity. Qed.

Lemma flagged_ynab_turn env fuel dbg i e acc w :
  truthy_flag (ynab_do_not_map e) = true →
  sync_to_ynab_account env fuel dbg (i, e) acc w
  = (Ret acc, add_event (Log DEBUG (SkipDoNotMap YNAB i)) w).
Proof. intros H. unfold sync_to_ynab_account. simpl. rewrite H. reflexivity. Qed.

Lemma returns_of_run {A} (m : M A) (a : A) (f : World → World) :
  (∀ w, m w = (Ret a, f w)) → returns (λ a', a' = a) m.
Proof. intros H w a' w' E. rewrite H in E. inversion E. reflexivity. Qed.

Lemma quiet_of_log_run {A} P (m : M A) (a : A) (ev : Event) :
  P (tag ev) = false → (∀ w, m w = (Ret a, add_event ev w)) → preserves (quiet P) m.
Proof. intros HP H w. rewrite H. simpl. apply quiet_add_event, HP. Qed.

Lemma is_fetch_of_other i k : k ≠ i → is_fetch_of i (Fetch k) = false.
Proof. intros H. simpl. apply String.eqb_neq, H. Qed.

(** C7. An account flagged do-not-map for a destination (one entry in the
    mapping per account): its turn in the pass to that destination returns
    at once, leaving the world as it was but for the debug line, so that
    nothing is fetched and nothing written for it; over the whole pass no
    request goes to Akahu about that account and its persisted entry is the
    one of before the pass. The batch update skips, besides, every account
    whose persisted entry carries the flag. *)
Theorem do_not_map_isolation env fuel dbg w i e :
  NoDup (mapping_list w).*1 → (i, e) ∈ mapping_list w →
  (truthy_flag (actual_do_not_map e) = true →
   (∀ acc w1, sync_to_ab_account env fuel dbg (i, e) acc w1
              = (Ret acc, add_event (Log DEBUG (SkipDoNotMap ActualBudget i)) w1))
   ∧ traces (is_fetch_of i) w (sync_to_ab env fuel dbg w).2
   ∧ mapping_file (sync_to_ab env fuel dbg w).2 !! i = mapping_file w !! i)
  ∧ (truthy_flag (ynab_do_not_map e) = true →
     (∀ acc w1, sync_to_ynab_account env fuel dbg (i, e) acc w1
                = (Ret acc, add_event (Log DEBUG (SkipDoNotMap YNAB i)) w1))
     ∧ traces (is_fetch_of i) w (sync_to_ynab env fuel dbg w).2
     ∧ mapping_file (sync_to_ynab env fuel dbg w).2 !! i = mapping_file w !! i)
  ∧ (∀ ids w0 e0, mapping_file w0 !! i = Some e0 →
       (truthy_flag (actual_do_not_map e0) = true →
        mapping_file (update_mapping_timestamps env (Some ids) None w0).2 !! i = Some e0)
       ∧ (truthy_flag (ynab_do_not_map e0) = true →
          mapping_file (update_mapping_timestamps env None (Some ids) w0).2 !! i = Some e0)).
Proof.
  intros Hnd Hie. split; [|split].
  - intros Hflag. split; [intros; apply flagged_ab_turn, Hflag|]. split.
    + apply (pass_traces env _ _ _ w _ eq_refl (sync_to_ab_run env fuel dbg w)).
      * apply quiet_for_each. intros [k e'] acc Hitem. apply elem_of_priority_order in Hitem.
        destruct (decide (k = i)) as [->|Hne].
        -- rewrite (unique_entry _ i e' e Hnd Hitem Hie).
           eapply quiet_of_log_run; [|intros; apply flagged_ab_turn, Hflag]. reflexivity.
        -- apply quiet_sync_to_ab_account;
             [reflexivity | apply is_fetch_of_other, Hne | reflexivity].
      * intros done w3. apply (persist_ab_run env done w3). reflexivity.
    + apply (pass_entry env _ _ w _ i (sync_to_ab_run env fuel dbg w)).
      * intros l. apply quiet_sync_to_ab_accounts; [reflexivity|]. intros; split; reflexivity.
      * intros w1 done w2. apply (loop_keeps_out _ _ i e); [exact Hnd | exact Hie | |].
        -- intros. apply sync_to_ab_account_adds.
        -- intros acc. eapply returns_of_run. intros; apply flagged_ab_turn, Hflag.
      * intros. apply persist_ab_entry. assumption.
  - intros Hflag. split; [intros; apply flagged_ynab_turn, Hflag|]. split.
    + apply (pass_traces env _ _ _ w _ eq_refl (sync_to_ynab_run env fuel dbg w)).
      * apply quiet_for_each. intros [k e'] acc Hitem. apply elem_of_priority_order in Hitem.
        destruct (decide (k = i)) as [->|Hne].
        -- rewrite (unique_entry _ i e' e Hnd Hitem Hie).
           eapply quiet_of_log_run; [|intros; apply flagged_ynab_turn, Hflag]. reflexivity.
        -- apply quiet_sync_to_ynab_account;
             [reflexivity | apply is_fetch_of_other, Hne | reflexivity].
      * intros done w3. apply (persist_ynab_run env done w3). reflexivity.
    + apply (pass_entry env _ _ w _ i (sync_to_ynab_run env fuel dbg w)).
      * intros l. apply quiet_sync_to_ynab_accounts; [reflexivity|]. intros; split; reflexivity.
      * intros w1 done w2. apply (loop_keeps_out _ _ i e); [exact Hnd | exact Hie | |].
        -- intros. apply sync_to_ynab_account_adds.
        -- intros acc. eapply returns_of_run. intros; apply flagged_ynab_turn, Hflag.
      * intros. apply persist_ynab_entry. assumption.
  - intros ids w0 e0 He0. split; intros Hflag.
    + pose proof (update_mapping_timestamps_run env (Some ids) None w0) as [_ H].
      destruct (update_mapping_timestamps env (Some ids) None w0) as [[[]|ex|] w1];
        simpl in *; [|congruence..].
      rewrite H. apply stamped_lookup_flagged; assumption.
    + pose proof (update_mapping_timestamps_run env None (Some ids) w0) as [_ H].
      destruct (update_mapping_timestamps env None (Some ids) w0) as [[[]|ex|] w1];
        simpl in *; [|congruence..].
      rewrite H. apply stamped_lookup_flagged; assumption.
Qed.

Lemma do_not_map_isolation_witness :
  let e1 := sample.entry None (Some "actual-1") (Some "ynab-1") None None in
  let e2 := sample.entry None (Some "actual-2") (Some "ynab-2") (Some true) None in
  let w := sample.world [("acc_1", e1); ("acc_2", e2)] in
  (sync_to_ab sample.env 5 None w).1 = Ret 2
  ∧ actual_synced_datetime <$> mapping_file (sync_to_ab sample.env 5 None w).2 !! "acc_1"
    = Some (Some "2025-06-02T00:00:00Z")
  ∧ mapping_file (sync_to_ab sample.env 5 None w).2 !! "acc_2" = mapping_file w !! "acc_2"
  ∧ traces (is_fetch_of "acc_2") w (sync_to_ab sample.env 5 None w).2.
Proof.
  intros e1 e2 w.
  destruct (do_not_map_isolation sample.env 5 None w "acc_2" e2) as [Hab _].
  - repeat constructor; set_solver.
  - set_solver.
  - destruct (Hab eq_refl) as (_ & Htr & Hfile).
    split; [vm_compute; reflexivity|]. split; [vm_compute; reflexivity|].
    split; [exact Hfile | exact Htr].
Defined.

(** ** Empty fetches *)

Lemma get_all_akahu_pages_empty env fuel i start next param total :
  items (akahu_page env i start (if String.eqb next "first time" then param else Some next))
  = [] →
  returns (λ fetched, fetched.1 = [])
    (get_all_akahu_pages env fuel i start next param None total).
Proof.
  intros Hempty. destruct fuel as [|fuel]; simpl; [apply returns_spin|].
  eapply (returns_bind_with (λ p, items p = [])).
  - apply returns_try_except.
    + apply returns_bind. intros _. apply returns_ret. apply Hempty.
    + intros ex. destruct ex; try apply returns_raise.
      apply returns_bind. intros _. apply returns_raise.
  - intros p Hp. rewrite Hp. simpl. eapply (returns_bind_with (λ n, n = None)).
    + apply returns_ret. reflexivity.
    + intros n ->. apply returns_ret. reflexivity.
Qed.

(** The window of a fetch starts where [start_of] says. *)
Lemma get_all_akahu_start env last :
  returns (λ start, start_of env last = Some start)
    (if truthy_str last
     then of_option (week_before env (default "" last)) ValueError
     else ret "2025-05-05T00:00:00Z").
Proof.
  unfold start_of. destruct (truthy_str last).
  - destruct (week_before env (default "" last)); [apply returns_ret; reflexivity|].
    apply returns_raise.
  - apply returns_ret. reflexivity.
Qed.

(** A fetch whose first page, in its window, is empty returns nothing. *)
Lemma get_all_akahu_empty env fuel i last :
  (∀ start, start_of env last = Some start → items (akahu_page env i start None) = []) →
  returns (λ df, df = []) (get_all_akahu env fuel i last).
Proof.
  intros Hempty. unfold get_all_akahu.
  eapply returns_bind_with; [apply get_all_akahu_start|]. intros start Hstart.
  eapply returns_bind_with; [apply get_all_akahu_pages_empty; simpl; apply Hempty, Hstart|].
  intros fetched Hf. apply returns_bind. intros _. apply returns_ret. exact Hf.
Qed.

(** A fetch that returns transactions has found some on the first page of
    its window. *)
Lemma get_all_akahu_window env fuel i last w df w' :
  get_all_akahu env fuel i last w = (Ret df, w') → df ≠ [] →
  ∃ start, start_of env last = Some start ∧ items (akahu_page env i start None) ≠ [].
Proof.
  intros E Hne. destruct (start_of env last) as [start|] eqn:Hs.
  - exists start. split; [reflexivity|]. intros Hitems. apply Hne.
    apply (get_all_akahu_empty env fuel i last) in E; [exact E|].
    intros start' Hs'. rewrite Hs in Hs'. inversion Hs'; subst. exact Hitems.
  - exfalso. unfold get_all_akahu in E. apply bind_ret_inv in E as (s0 & w1 & Es & _).
    apply (get_all_akahu_start env last) in Es. congruence.
Qed.

Lemma on_budget_type e :
  priority_of e = 0 →
  String.eqb (default "On Budget" (account_type e)) "On Budget" = true
  ∧ String.eqb (default "On Budget" (account_type e)) "Tracking" = false.
Proof.
  unfold priority_of. destruct (String.eqb _ "On Budget") eqn:E; [|discriminate].
  intros _. apply String.eqb_eq in E. rewrite E. split; reflexivity.
Qed.

(** The turn of an On-Budget account whose fetch is empty: the
    accumulators stay as they were. *)
Lemma empty_fetch_ab_turn env fuel dbg i e acc :
  priority_of e = 0 →
  (∀ start, window_start env (actual_synced_datetime e) = Some start →
            items (akahu_page env i start None) = []) →
  returns (λ acc', acc' = acc) (sync_to_ab_account env fuel dbg (i, e) acc).
Proof.
  intros Hob Hempty. destruct (on_budget_type e Hob) as [Ht1 Ht2].
  unfold sync_to_ab_account. simpl. rewrite Ht1, Ht2.
  destruct (truthy_flag _); [returns_tac|]. destruct (negb _); [returns_tac|].
  apply returns_bind. intros _. apply returns_bind. intros _.
  eapply returns_bind_with; [apply get_all_akahu_empty, Hempty|].
  intros df ->. simpl. apply returns_ret. reflexivity.
Qed.

Lemma empty_fetch_ynab_turn env fuel dbg i e acc :
  priority_of e = 0 →
  (∀ start, window_start env (ynab_synced_datetime e) = Some start →
            items (akahu_page env i start None) = []) →
  returns (λ acc', acc' = acc) (sync_to_ynab_account env fuel dbg (i, e) acc).
Proof.
  intros Hob Hempty. destruct (on_budget_type e Hob) as [Ht1 Ht2].
  unfold sync_to_ynab_account. simpl. rewrite Ht1, Ht2.
  destruct (truthy_flag _); [returns_tac|]. destruct (negb _); [returns_tac|].
  apply returns_bind. intros _. apply returns_bind. intros _.
  eapply returns_bind_with; [apply get_all_akahu_empty, Hempty|].
  intros df ->. simpl. apply returns_ret. reflexivity.
Qed.

(** When the turn of an On-Budget account adds the account to the set,
    its fetch, in the window of the pass, has returned at least one
    transaction and the load of these transactions has returned. *)
Lemma added_ab_turn env fuel dbg i e acc w acc' w' :
  priority_of e = 0 →
  sync_to_ab_account env fuel dbg (i, e) acc w = (Ret acc', w') → acc' ≠ acc →
  ∃ start df w2 n,
    window_start env (actual_synced_datetime e) = Some start
    ∧ items (akahu_page env i start None) ≠ []
    ∧ get_all_akahu env fuel i (Some (default "2025-05-05T00:00:00Z" (actual_synced_datetime e)))
        (add_event
           (Log INFO (LastSynced (default "2025-05-05T00:00:00Z" (actual_synced_datetime e))))
           (add_event (Log INFO (Processing ActualBudget i)) w))
      = (Ret df, w2)
    ∧ df ≠ []
    ∧ load_transactions_into_actual env df i dbg
        (add_event (Log INFO (Text "About to load transactions into Actual Budget...")) w2)
      = (Ret (Some n), w')
    ∧ acc' = ({[i]} ∪ acc.1, acc.2 + n).
Proof.
  intros Hob E Hne. destruct (on_budget_type e Hob) as [Ht1 Ht2].
  unfold sync_to_ab_account in E. simpl in E. rewrite Ht1, Ht2 in E.
  destruct (truthy_flag _); [inversion E; congruence|].
  destruct (negb _); [inversion E; congruence|].
  do 2 (rewrite bind_unfold in E; simpl in E). rewrite bind_unfold in E.
  match type of E with
  | context [get_all_akahu env fuel i ?last ?w1] =>
      destruct (get_all_akahu env fuel i last w1) as [[df|ex|] w2] eqn:Eg; try discriminate
  end.
  destruct df as [|t df]; [inversion E; congruence|].
  destruct (get_all_akahu_window _ _ _ _ _ _ _ Eg ltac:(discriminate)) as (start & Hstart & Hp).
  exists start, (t :: df), w2.
  cbn [is_nil negb] in E. rewrite bind_unfold in E. simpl in E. rewrite bind_unfold in E.
  match type of E with
  | context [load_transactions_into_actual env ?l i dbg ?w3] =>
      destruct (load_transactions_into_actual env l i dbg w3) as [[[n|]|ex|] w4] eqn:El;
      try discriminate
  end.
  exists n. inversion E; subst. split; [exact Hstart|]. split; [exact Hp|].
  split; [first [exact Eg | reflexivity]|]. split; [discriminate|]. split; reflexivity.
Qed.

Lemma added_ynab_turn env fuel dbg i e acc w acc' w' :
  priority_of e = 0 →
  sync_to_ynab_account env fuel dbg (i, e) acc w = (Ret acc', w') → acc' ≠ acc →
  ∃ start df w2 cleaned w3 n,
    window_start env (ynab_synced_datetime e) = Some start
    ∧ items (akahu_page env i start None) ≠ []
    ∧ get_all_akahu env fuel i (Some (default "2025-05-05T00:00:00Z" (ynab_synced_datetime e)))
        (add_event
           (Log INFO (LastSynced (default "2025-05-05T00:00:00Z" (ynab_synced_datetime e))))
           (add_event (Log INFO (Processing YNAB i)) w))
      = (Ret df, w2)
    ∧ df ≠ []
    ∧ clean_txn_for_ynab env df (ynab_account_id e) w2 = (Ret cleaned, w3)
    ∧ load_transactions_into_ynab env cleaned (default "" (ynab_budget_id e))
        (default "" (ynab_account_id e)) dbg w3
      = (Ret n, w')
    ∧ acc' = ({[i]} ∪ acc.1, acc.2 + n).
Proof.
  intros Hob E Hne. destruct (on_budget_type e Hob) as [Ht1 Ht2].
  unfold sync_to_ynab_account in E. simpl in E. rewrite Ht1, Ht2 in E.
  destruct (truthy_flag _); [inversion E; congruence|].
  destruct (negb _); [inversion E; congruence|].
  do 2 (rewrite bind_unfold in E; simpl in E). rewrite bind_unfold in E.
  match type of E with
  | context [get_all_akahu env fuel i ?last ?w1] =>
      destruct (get_all_akahu env fuel i last w1) as [[df|ex|] w2] eqn:Eg; try discriminate
  end.
  destruct df as [|t df]; [inversion E; congruence|].
  destruct (get_all_akahu_window _ _ _ _ _ _ _ Eg ltac:(discriminate)) as (start & Hstart & Hp).
  exists start, (t :: df), w2.
  cbn [is_nil negb] in E. rewrite bind_unfold in E.
  destruct (clean_txn_for_ynab env (t :: df) (ynab_account_id e) w2)
    as [[cleaned|ex|] w3] eqn:Ec; try discriminate.
  rewrite bind_unfold in E.
  match type of E with
  | context [load_transactions_into_ynab env cleaned ?b ?a dbg w3] =>
      destruct (load_transactions_into_ynab env cleaned b a dbg w3) as [[n|ex|] w4] eqn:El;
      try discriminate
  end.
  exists cleaned, w3, n. inversion E; subst.
  split; [exact Hstart|]. split; [exact Hp|]. split; [first [exact Eg | reflexivity]|].
  split; [discriminate|].
  repeat split; first [reflexivity | exact El | exact Ec].
Qed.

(** The first page of the feed of an account, in the window of a pass, is
    empty or is not. *)
Lemma window_empty_dec env i last :
  (∀ start, window_start env last = Some start → items (akahu_page env i start None) = [])
  ∨ (∃ start, window_start env last = Some start ∧ items (akahu_page env i start None) ≠ []).
Proof.
  destruct (window_start env last) as [start|]; [|left; discriminate].
  destruct (items (akahu_page env i start None)) eqn:E.
  - left. intros ? H. inversion H; subst. exact E.
  - right. exists start. split; [reflexivity|]. rewrite E. discriminate.
Qed.

(** C10. An On-Budget account (one entry in the mapping per account) and
    a pass. The window of the fetch of the pass starts a week before the
    timestamp that the account has for the destination of the pass. When
    the feed has nothing for the account in that window (the first page
    is empty, and so the fetch of this pass returns no transaction),
    whatever it has outside of it, the persisted entry of the account, and
    so its stored timestamps, is after the pass the one of before, whether
    the pass returns or not: in the pass to Actual and in the pass to
    YNAB. So when the persisted entry is another after a pass, the feed
    has a transaction in the window. And the turn of the account changes
    the accumulators, adding the account to the set of synced accounts,
    only when the fetch of the turn has returned at least one transaction
    and the load of the fetched transactions has returned. *)
Theorem empty_fetch_keeps_watermark env fuel dbg w i e :
  NoDup (mapping_list w).*1 → (i, e) ∈ mapping_list w → priority_of e = 0 →
  ((∀ start, window_start env (actual_synced_datetime e) = Some start →
             items (akahu_page env i start None) = []) →
   mapping_file (sync_to_ab env fuel dbg w).2 !! i = mapping_file w !! i)
  ∧ ((∀ start, window_start env (ynab_synced_datetime e) = Some start →
               items (akahu_page env i start None) = []) →
     mapping_file (sync_to_ynab env fuel dbg w).2 !! i = mapping_file w !! i)
  ∧ (mapping_file (sync_to_ab env fuel dbg w).2 !! i ≠ mapping_file w !! i →
     ∃ start, window_start env (actual_synced_datetime e) = Some start
              ∧ items (akahu_page env i start None) ≠ [])
  ∧ (mapping_file (sync_to_ynab env fuel dbg w).2 !! i ≠ mapping_file w !! i →
     ∃ start, window_start env (ynab_synced_datetime e) = Some start
              ∧ items (akahu_page env i start None) ≠ [])
  ∧ (∀ acc w0 acc' w',
       sync_to_ab_account env fuel dbg (i, e) acc w0 = (Ret acc', w') → acc' ≠ acc →
       ∃ start df w2 n,
         window_start env (actual_synced_datetime e) = Some start
         ∧ items (akahu_page env i start None) ≠ []
         ∧ get_all_akahu env fuel i
             (Some (default "2025-05-05T00:00:00Z" (actual_synced_datetime e)))
             (add_event
                (Log INFO
                   (LastSynced (default "2025-05-05T00:00:00Z" (actual_synced_datetime e))))
                (add_event (Log INFO (Processing ActualBudget i)) w0))
           = (Ret df, w2)
         ∧ df ≠ []
         ∧ load_transactions_into_actual env df i dbg
             (add_event (Log INFO (Text "About to load transactions into Actual Budget...")) w2)
           = (Ret (Some n), w')
         ∧ acc' = ({[i]} ∪ acc.1, acc.2 + n))
  ∧ (∀ acc w0 acc' w',
       sync_to_ynab_account env fuel dbg (i, e) acc w0 = (Ret acc', w') → acc' ≠ acc →
       ∃ start df w2 cleaned w3 n,
         window_start env (ynab_synced_datetime e) = Some start
         ∧ items (akahu_page env i start None) ≠ []
         ∧ get_all_akahu env fuel i
             (Some (default "2025-05-05T00:00:00Z" (ynab_synced_datetime e)))
             (add_event
                (Log INFO
                   (LastSynced (default "2025-05-05T00:00:00Z" (ynab_synced_datetime e))))
                (add_event (Log INFO (Processing YNAB i)) w0))
           = (Ret df, w2)
         ∧ df ≠ []
         ∧ clean_txn_for_ynab env df (ynab_account_id e) w2 = (Ret cleaned, w3)
         ∧ load_transactions_into_ynab env cleaned (default "" (ynab_budget_id e))
             (default "" (ynab_account_id e)) dbg w3 = (Ret n, w')
         ∧ acc' = ({[i]} ∪ acc.1, acc.2 + n)).
Proof.
  intros Hnd Hie Hob.
  assert (Hab : (∀ start, window_start env (actual_synced_datetime e) = Some start →
                          items (akahu_page env i start None) = []) →
                mapping_file (sync_to_ab env fuel dbg w).2 !! i = mapping_file w !! i).
  { intros Hempty.
    apply (pass_entry env _ _ w _ i (sync_to_ab_run env fuel dbg w)).
    - intros l. apply quiet_sync_to_ab_accounts; [reflexivity|]. intros; split; reflexivity.
    - intros w1 done w2. apply (loop_keeps_out _ _ i e); [exact Hnd | exact Hie | |].
      + intros. apply sync_to_ab_account_adds.
      + intros acc. apply empty_fetch_ab_turn; assumption.
    - intros. apply persist_ab_entry. assumption. }
  assert (Hyn : (∀ start, window_start env (ynab_synced_datetime e) = Some start →
                          items (akahu_page env i start None) = []) →
                mapping_file (sync_to_ynab env fuel dbg w).2 !! i = mapping_file w !! i).
  { intros Hempty.
    apply (pass_entry env _ _ w _ i (sync_to_ynab_run env fuel dbg w)).
    - intros l. apply quiet_sync_to_ynab_accounts; [reflexivity|]. intros; split; reflexivity.
    - intros w1 done w2. apply (loop_keeps_out _ _ i e); [exact Hnd | exact Hie | |].
      + intros. apply sync_to_ynab_account_adds.
      + intros acc. apply empty_fetch_ynab_turn; assumption.
    - intros. apply persist_ynab_entry. assumption. }
  split; [exact Hab|]. split; [exact Hyn|]. split; [|split; [|split]].
  - intros Hchanged.
    destruct (window_empty_dec env i (actual_synced_datetime e)) as [Hempty|Hnews];
      [destruct (Hchanged (Hab Hempty)) | exact Hnews].
  - intros Hchanged.
    destruct (window_empty_dec env i (ynab_synced_datetime e)) as [Hempty|Hnews];
      [destruct (Hchanged (Hyn Hempty)) | exact Hnews].
  - intros acc w0 acc' w'. apply added_ab_turn, Hob.
  - intros acc w0 acc' w'. apply added_ynab_turn, Hob.
Qed.

Lemma empty_fetch_keeps_watermark_witness :
  let e1 := sample.entry None (Some "actual-1") (Some "ynab-1") None None in
  let e4 := sample.entry (Some "On Budget") (Some "actual-4") (Some "ynab-4") None None in
  let w := sample.world [("acc_1", e1); ("acc_4", e4)] in
  items (akahu_page sample.env "acc_4" "2025-01-01T00:00:00Z" None) ≠ []
  ∧ (sync_to_ab sample.env 5 None w).1 = Ret 2
  ∧ (sync_to_ynab sample.env 5 None w).1 = Ret 2
  ∧ mapping_file (sync_to_ab sample.env 5 None w).2 !! "acc_4" = mapping_file w !! "acc_4"
  ∧ mapping_file (sync_to_ynab sample.env 5 None w).2 !! "acc_4" = mapping_file w !! "acc_4".
Proof.
  intros e1 e4 w.
  destruct (empty_fetch_keeps_watermark sample.env 5 None w "acc_4" e4) as (Hab & Hyn & _).
  - repeat constructor; set_solver.
  - set_solver.
  - reflexivity.
  - split; [discriminate|]. split; [vm_compute; reflexivity|].
    split; [vm_compute; reflexivity|].
    split; [apply Hab | apply Hyn]; intros start Hs; inversion Hs; reflexivity.
Defined.

(** ** Unit conversion on a transaction *)

(** C4. The transcoding for YNAB computes [int(x * 1000)] on binary64
    floats: the product is rounded to the nearest float and then cut
    toward zero. For the float nearest to 2.01 the product is the float
    just below 2010, so that the amount sent is 2009 milliunits, where
    [round(2.01 * 1000)], and the rounding of that same float product, is
    2010; the transcoding for Actual, which goes through
    [decimal.Decimal], gives 2.0100 for the same input. *)
Theorem clean_txn_for_ynab_truncates :
  pyfloat.nearest_to 0x10147ae147ae14 (-51) 201 2
  ∧ (clean_txn_for_ynab sample.env [sample.txn "t1" "COFFEE" sample.f2_01] (Some "ynab-1")
       (sample.world [])).1
    = Ret [ {| y_account_id := Some "ynab-1"; y_date := Some 20240; y_amount := 2009;
               y_payee_name := Some "COFFEE"; y_memo := Some "COFFEE";
               y_import_id := Some "t1"; y_cleared := "cleared"; y_flag_color := "red";
               y_approved := false |} ]
  ∧ rescale 201 (-2) (-3) = 2010
  ∧ quantize (from_float (pyfloat.mul sample.f2_01 (pyfloat.of_int 1000))) (Finite 1 0)
    = Some (Finite 2010 0)
  ∧ quantized_amount sample.f2_01 = Some (Finite 20100 (-4)).
Proof.
  split; [exact f2_01_nearest|]. repeat split; vm_compute; reflexivity.
Qed.

(** What [int] cuts off is less than one milliunit, and nothing when the
    float product is a whole number. *)
Lemma trunc_mag_bounds (m : positive) (e : Z) :
  e < 0 →
  pyfloat.trunc_mag m e * 2 ^ (- e) ≤ Z.pos m < (pyfloat.trunc_mag m e + 1) * 2 ^ (- e).
Proof.
  intros He. unfold pyfloat.trunc_mag. destruct (Z.leb_spec 0 e); [lia|].
  assert (Hp : 0 < 2 ^ (- e)) by (apply Z.pow_pos_nonneg; lia).
  pose proof (Z.div_mod (Z.pos m) (2 ^ (- e)) ltac:(lia)) as Hdm.
  pose proof (Z.mod_pos_bound (Z.pos m) (2 ^ (- e)) Hp) as Hr.
  remember (Z.pos m / 2 ^ (- e)) as q. remember (Z.pos m mod 2 ^ (- e)) as r.
  remember (2 ^ (- e)) as p. nia.
Qed.

(** The amount handed to Actual is the multiple of 0.0001 nearest to the
    float. *)
Lemma quantized_amount_nearest s m e n :
  e < 0 → quantized_amount (S754_finite s m e) = Some (Finite n (-4)) →
  2 * Z.abs (n * 10 ^ (- e - 4) - cond_Zopp s (Z.pos m * 5 ^ (- e))) ≤ 10 ^ (- e - 4)
  ∨ - 4 ≤ e.
Proof.
  intros He. unfold quantized_amount, from_float, quantize, rescale.
  destruct (Z.leb_spec 0 e); [lia|].
  destruct (Z.leb_spec (-4) e); [auto|]. left.
  destruct (Z.abs _ <? 10 ^ 28); [|discriminate]. inversion H1; subst.
  replace (- e - 4) with (-4 - e) by lia.
  apply round_half_even_nearest. apply Z.pow_pos_nonneg; lia.
Qed.

(** ** Pagination *)

Lemma page_requests_app account tr1 tr2 :
  page_requests account (tr1 ++ tr2)
  = (page_requests account tr1 + page_requests account tr2)%nat.
Proof. unfold page_requests. rewrite List.filter_app, length_app. reflexivity. Qed.

(** The loop of the reader over the pages that are left. *)
Lemma get_all_akahu_pages_complete env account start pages :
  ∀ param, feed_pages env account start param pages →
  ∀ fuel next cursor_param res total w,
    (if String.eqb next "first time" then cursor_param else Some next) = param →
    (length pages ≤ fuel)%nat →
    (∀ k, (calls w ≤ k < calls w + length pages)%nat → fault env k = false) →
    ∃ w',
      get_all_akahu_pages env fuel account start next cursor_param res total w
      = (Ret (default [] res ++ concat (map items pages),
              (total + length (concat (map items pages)))%nat), w')
      ∧ calls w' = (calls w + length pages)%nat
      ∧ page_requests account (trace w')
        = (page_requests account (trace w) + length pages)%nat.
Proof.
  intros param Hfeed.
  induction Hfeed as [param Hlast | param nx pages Hitems Hcursor Hfeed IH];
    intros fuel next cursor_param res total w Hparam Hfuel Hok.
  - destruct fuel as [|fuel]; [simpl in Hfuel; lia|]. simpl.
    rewrite Hparam. rewrite bind_unfold. unfold try_except. rewrite bind_unfold.
    unfold external. rewrite (Hok (calls w)) by (simpl; lia). simpl.
    set (p := akahu_page env account start param) in *.
    set (w1 := count_call _).
    assert (Hnext : (if is_nil (items p) then ret None
                     else match cursor p with
                          | None => ret None
                          | Some CursorNull => raise TypeError
                          | Some (CursorObj None) => ret None
                          | Some (CursorObj (Some next0)) => ret next0
                          end) w1 = (Ret None, w1)).
    { destruct Hlast as [H|[H|[H|H]]]; rewrite H; try reflexivity;
        destruct (is_nil (items p)); reflexivity. }
    rewrite bind_unfold, Hnext. exists w1. rewrite app_nil_r.
    split; [destruct res; reflexivity|]. split; [simpl; lia|].
    subst w1. simpl. rewrite page_requests_app. unfold page_requests at 2. simpl.
    rewrite String.eqb_refl. reflexivity.
  - destruct fuel as [|fuel]; [simpl in Hfuel; lia|]. simpl.
    rewrite Hparam. rewrite bind_unfold. unfold try_except. rewrite bind_unfold.
    unfold external. rewrite (Hok (calls w)) by (simpl; lia). simpl.
    set (p := akahu_page env account start param) in *.
    set (w1 := count_call _).
    rewrite bind_unfold. rewrite Hcursor.
    destruct (items p) as [|t ts] eqn:Ep; [congruence|]. simpl.
    destruct (IH fuel nx param
                (Some (match res with
                       | Some r => r ++ t :: ts
                       | None => t :: ts
                       end)) (total + S (length ts))%nat w1) as (w' & E & Hc & Hr).
    + reflexivity.
    + simpl in Hfuel. lia.
    + intros k Hk. apply Hok. subst w1. simpl in *. lia.
    + exists w'. rewrite E. split.
      * simpl.
        assert (Hres : match res with
                       | Some r => r ++ t :: ts
                       | None => t :: ts
                       end ++ concat (map items pages)
                       = default [] res ++ t :: ts ++ concat (map items pages))
          by (destruct res; simpl; rewrite <- ?app_assoc; reflexivity).
        assert (Hlen : (total + S (length ts) + length (concat (map items pages)))%nat
                       = (total + S (length (ts ++ concat (map items pages))))%nat)
          by (rewrite length_app; lia).
        rewrite Hres, Hlen. reflexivity.
      * split; [rewrite Hc; subst w1; simpl; lia|].
        rewrite Hr. subst w1. simpl. rewrite page_requests_app. unfold page_requests at 2.
        simpl. rewrite String.eqb_refl. simpl. lia.
Qed.

(** C5. For a feed of N pages, the last of which has no records, no
    cursor or a cursor without a token, the reader, given fuel for N turns
    of its loop and N requests that do not fail, returns the records of
    the N pages, concatenated in the order served, after exactly N
    requests. *)
Theorem pagination_complete env fuel account last_reconciled_at start pages w :
  start_of env last_reconciled_at = Some start →
  feed_pages env account start None pages →
  (length pages ≤ fuel)%nat →
  (∀ k, (calls w ≤ k < calls w + length pages)%nat → fault env k = false) →
  (get_all_akahu env fuel account last_reconciled_at w).1 = Ret (concat (map items pages))
  ∧ calls (get_all_akahu env fuel account last_reconciled_at w).2
    = (calls w + length pages)%nat
  ∧ page_requests account (trace (get_all_akahu env fuel account last_reconciled_at w).2)
    = (page_requests account (trace w) + length pages)%nat.
Proof.
  intros Hstart Hfeed Hfuel Hok.
  destruct (get_all_akahu_pages_complete env account start pages None Hfeed fuel
              "first time" None None 0%nat w eq_refl Hfuel Hok) as (w' & E & Hc & Hr).
  unfold get_all_akahu. rewrite bind_unfold.
  assert (Hs : (if truthy_str last_reconciled_at
                then of_option (week_before env (default "" last_reconciled_at)) ValueError
                else ret "2025-05-05T00:00:00Z") w = (Ret start, w)).
  { unfold start_of in Hstart. destruct (truthy_str last_reconciled_at).
    - rewrite Hstart. reflexivity.
    - inversion Hstart. reflexivity. }
  rewrite Hs. rewrite bind_unfold, E. rewrite bind_unfold. simpl.
  destruct (0 <? length (concat (map items pages)))%nat; simpl.
  - split; [reflexivity|]. split; [exact Hc|].
    rewrite page_requests_app, Hr.
    change (page_requests account [Log INFO (Text "Fetched transactions from Akahu.")])
      with 0%nat.
    lia.
  - split; [reflexivity|]. split; [exact Hc | exact Hr].
Qed.

Lemma pagination_complete_witness :
  (get_all_akahu sample.env 2 "acc_1" None (sample.world [])).1
  = Ret [sample.txn "t1" "COFFEE" sample.f2_01; sample.txn "t2" "BOOKS" sample.f12_345]
  ∧ calls (get_all_akahu sample.env 2 "acc_1" None (sample.world [])).2 = 2%nat.
Proof.
  destruct (pagination_complete sample.env 2 "acc_1" None "2025-05-05T00:00:00Z"
              [sample.page "acc_1" "2025-05-05T00:00:00Z" None;
               sample.page "acc_1" "2025-05-05T00:00:00Z" (Some "page-2")]
              (sample.world [])) as (Hres & Hcalls & _).
  - reflexivity.
  - apply feed_next with (next := "page-2"); [discriminate | reflexivity |].
    apply (feed_last sample.env "acc_1" "2025-05-05T00:00:00Z" (Some "page-2")).
    right. left. reflexivity.
  - simpl. lia.
  - intros k _. reflexivity.
  - split; [exact Hres | exact Hcalls].
Defined.

(** ** Balance parity of tracking accounts *)

Lemma account_balance_app a l1 l2 :
  account_balance a (l1 ++ l2) = account_balance a l1 + account_balance a l2.
Proof.
  induction l1 as [|r l1 IH]; simpl; [reflexivity|].
  destruct (negb (tombstone r) && bool_decide (acct r = a)); lia.
Qed.

Lemma account_balance_committed a l :
  account_balance a (map committed l) = account_balance a l.
Proof. induction l as [|r l IH]; simpl; [reflexivity|]. rewrite IH. reflexivity. Qed.

Lemma ynab_account_balance_app b a l1 l2 :
  ynab_account_balance b a (l1 ++ l2)
  = ynab_account_balance b a l1 + ynab_account_balance b a l2.
Proof.
  induction l1 as [|r l1 IH]; simpl; [reflexivity|].
  destruct (String.eqb r.1 b && bool_decide (y_account_id r.2 = Some a)); lia.
Qed.

Lemma handle_tracking_equal env key e a name b w :
  lookup_entry key (mapping_list w) = Some e →
  actual_account_id e = Some a → akahu_name e = Some name → akahu_balance e = Some b →
  cents_of_dollars (decimal_of_str env b) = Some (account_balance a (rows (actual w))) →
  fault env (calls w) = false →
  (handle_tracking_account_actual env key w).1 = Ret 0
  ∧ actual (handle_tracking_account_actual env key w).2 = actual w
  ∧ mapping_list (handle_tracking_account_actual env key w).2 = mapping_list w.
Proof.
  intros He Ha Hn Hb Hc Hf.
  unfold handle_tracking_account_actual, entry_of, get_actual_balance, log_balance_comparison,
    actual_call, external, try_except, bind, get_world, of_option, log, modify, ret.
  simpl. rewrite He. simpl. rewrite Ha, Hn. simpl. rewrite Hb. simpl. rewrite Hf. simpl.
  rewrite Hc. simpl. rewrite bool_decide_eq_false_2 by (intros H; apply H; reflexivity).
  simpl. auto.
Qed.

Lemma rescale_same c e : rescale c e e = c.
Proof. unfold rescale. rewrite Z.leb_refl, Z.sub_diag. simpl. lia. Qed.

Lemma handle_tracking_differ env key e a name b akahu_cents w :
  lookup_entry key (mapping_list w) = Some e →
  actual_account_id e = Some a → akahu_name e = Some name → akahu_balance e = Some b →
  cents_of_dollars (decimal_of_str env b) = Some akahu_cents →
  akahu_cents ≠ account_balance a (rows (actual w)) →
  (∀ k, (calls w ≤ k < calls w + 3)%nat → fault env k = false) →
  (handle_tracking_account_actual env key w).1 = Ret 1
  ∧ rows (actual (handle_tracking_account_actual env key w).2)
    = map committed (rows (actual w))
      ++ [adjustment_row env a akahu_cents (account_balance a (rows (actual w))) w]
  ∧ mapping_list (handle_tracking_account_actual env key w).2 = mapping_list w
  ∧ calls (handle_tracking_account_actual env key w).2 = (calls w + 3)%nat.
Proof.
  intros He Ha Hn Hb Hc Hne Hf.
  pose proof (Hf (calls w) ltac:(lia)) as Hf0.
  pose proof (Hf (S (calls w)) ltac:(lia)) as Hf1.
  pose proof (Hf (S (S (calls w))) ltac:(lia)) as Hf2.
  unfold handle_tracking_account_actual, entry_of, get_actual_balance, log_balance_comparison,
    create_transaction, commit, now, actual_call, external, try_except, bind, get_world,
    of_option, log, modify, ret.
  simpl. rewrite He. simpl. rewrite Ha, Hn. simpl. rewrite Hb. simpl. rewrite Hf0. simpl.
  rewrite Hc. simpl. rewrite bool_decide_eq_true_2 by exact Hne.
  simpl. rewrite Hf1. simpl. rewrite Hf2. simpl.
  split; [reflexivity|]. split; [|split; [reflexivity | lia]].
  rewrite map_app. simpl. unfold adjustment_row, committed at 2. simpl.
  rewrite rescale_same. reflexivity.
Qed.

Lemma create_adjustment_equal env budget account milli w :
  create_adjustment_txn_ynab env budget account milli milli w
  = (Ret tt, add_event (Log INFO (Text "No adjustment needed; balances are already in sync.")) w).
Proof.
  unfold create_adjustment_txn_ynab, try_except. rewrite Z.sub_diag. reflexivity.
Qed.

Lemma create_adjustment_differ env budget account akahu_milli ynab_milli w :
  akahu_milli ≠ ynab_milli → fault env (calls w) = false →
  (create_adjustment_txn_ynab env budget account akahu_milli ynab_milli w).1 = Ret tt
  ∧ ynab (create_adjustment_txn_ynab env budget account akahu_milli ynab_milli w).2
    = ynab w ++ [(budget, adjustment_ynab env account akahu_milli ynab_milli w)].
Proof.
  intros Hne Hf.
  unfold create_adjustment_txn_ynab, ynab_post_transaction, external, try_except, bind, now,
    log, modify, ret.
  destruct (Z.eqb_spec (akahu_milli - ynab_milli) 0) as [E|E]; [lia|].
  simpl. rewrite Hf. simpl. split; reflexivity.
Qed.

(** C3. Balance parity of a Tracking account. In Actual (balances in
    cents): when the balance of the source equals that of the destination
    account the handler returns 0 and leaves the session as it is; when
    they differ and the three calls to the session succeed, it returns 1
    and the session holds one more row, the adjustment, dated with the UTC
    day, with payee ["Balance Adjustment"] and the amount source minus
    destination, after which the balance of the destination account is
    that of the source, and a second run straight after returns 0 and adds
    nothing. In YNAB (balances in milliunits): with equal balances nothing
    is posted; with different balances one transaction is posted, dated
    with the local day, with payee ["Balance Adjustment"] and the amount
    source minus destination, after which the balance of the account is
    that of the source and a second run posts nothing. *)
Theorem balance_parity env key e a name b akahu_cents budget account akahu_milli w :
  lookup_entry key (mapping_list w) = Some e →
  actual_account_id e = Some a → akahu_name e = Some name → akahu_balance e = Some b →
  cents_of_dollars (decimal_of_str env b) = Some akahu_cents →
  let actual_cents := account_balance a (rows (actual w)) in
  let ynab_milli := ynab_account_balance budget account (ynab w) in
  let r := handle_tracking_account_actual env key w in
  let y := create_adjustment_txn_ynab env budget account akahu_milli ynab_milli w in
  (akahu_cents = actual_cents → fault env (calls w) = false →
   r.1 = Ret 0 ∧ actual r.2 = actual w)
  ∧ (akahu_cents ≠ actual_cents →
     (∀ k, (calls w ≤ k < calls w + 4)%nat → fault env k = false) →
     r.1 = Ret 1
     ∧ rows (actual r.2)
       = map committed (rows (actual w)) ++ [adjustment_row env a akahu_cents actual_cents w]
     ∧ account_balance a (rows (actual r.2)) = akahu_cents
     ∧ (handle_tracking_account_actual env key r.2).1 = Ret 0
     ∧ actual (handle_tracking_account_actual env key r.2).2 = actual r.2)
  ∧ (akahu_milli = ynab_milli → y.1 = Ret tt ∧ ynab y.2 = ynab w)
  ∧ (akahu_milli ≠ ynab_milli → fault env (calls w) = false →
     y.1 = Ret tt
     ∧ ynab y.2 = ynab w ++ [(budget, adjustment_ynab env account akahu_milli ynab_milli w)]
     ∧ ynab_account_balance budget account (ynab y.2) = akahu_milli
     ∧ ynab (create_adjustment_txn_ynab env budget account akahu_milli
               (ynab_account_balance budget account (ynab y.2)) y.2).2 = ynab y.2).
Proof.
  intros He Ha Hn Hb Hc actual_cents ynab_milli r y. split; [|split; [|split]].
  - intros Heq Hf. subst r. rewrite Heq in Hc.
    destruct (handle_tracking_equal env key e a name b w He Ha Hn Hb Hc Hf) as (H1 & H2 & _).
    auto.
  - intros Hne Hf. subst r.
    destruct (handle_tracking_differ env key e a name b akahu_cents w He Ha Hn Hb Hc Hne)
      as (H1 & H2 & H3 & H4); [intros k Hk; apply Hf; lia|].
    assert (Hbal : account_balance a
                     (rows (actual (handle_tracking_account_actual env key w).2))
                   = akahu_cents).
    { rewrite H2, account_balance_app, account_balance_committed. simpl.
      rewrite bool_decide_eq_true_2 by reflexivity. simpl. fold actual_cents. lia. }
    split; [exact H1|]. split; [exact H2|]. split; [exact Hbal|].
    set (w1 := (handle_tracking_account_actual env key w).2) in *.
    destruct (handle_tracking_equal env key e a name b w1) as (H5 & H6 & _); auto.
    + rewrite H3. exact He.
    + rewrite Hbal. exact Hc.
    + apply Hf. rewrite H4. lia.
  - intros Heq. subst y. rewrite Heq, create_adjustment_equal. split; reflexivity.
  - intros Hne Hf. subst y.
    destruct (create_adjustment_differ env budget account akahu_milli ynab_milli w Hne Hf)
      as [H1 H2].
    assert (Hbal : ynab_account_balance budget account
                     (ynab (create_adjustment_txn_ynab env budget account akahu_milli
                              ynab_milli w).2) = akahu_milli).
    { rewrite H2, ynab_account_balance_app. simpl. rewrite String.eqb_refl.
      rewrite bool_decide_eq_true_2 by reflexivity. simpl. fold ynab_milli. lia. }
    split; [exact H1|]. split; [exact H2|]. split; [exact Hbal|].
    rewrite Hbal, create_adjustment_equal. reflexivity.
Qed.

Lemma balance_parity_witness :
  let e := sample.entry (Some "Tracking") (Some "actual-3") (Some "ynab-3") None
             (Some sample.f100) in
  let w := sample.world [("acc_3", e)] in
  (handle_tracking_account_actual sample.env "acc_3" w).1 = Ret 1
  ∧ account_balance "actual-3"
      (rows (actual (handle_tracking_account_actual sample.env "acc_3" w).2)) = 10000
  ∧ (handle_tracking_account_actual sample.env "acc_3"
       (handle_tracking_account_actual sample.env "acc_3" w).2).1 = Ret 0
  ∧ ynab_account_balance "budget-a" "ynab-3"
      (ynab (create_adjustment_txn_ynab sample.env "budget-a" "ynab-3" 100000 0 w).2) = 100000.
Proof.
  intros e w.
  destruct (balance_parity sample.env "acc_3" e "actual-3" "Everyday" sample.f100 10000
              "budget-a" "ynab-3" 100000 w) as (_ & Hab & _ & Hynab);
    [reflexivity..|].
  destruct Hab as (H1 & _ & H3 & H4 & _); [discriminate | intros; reflexivity |].
  destruct Hynab as (_ & _ & H7 & _); [discriminate | reflexivity |].
  split; [exact H1|]. split; [exact H3|]. split; [exact H4 | exact H7].
Defined.

(** ** Idempotent import into Actual *)

Lemma committed_clean r : pending r = false → committed r = r.
Proof. destruct r. simpl. intros ->. reflexivity. Qed.

Lemma map_committed_clean l : Forall (λ r, pending r = false) l → map committed l = l.
Proof.
  induction 1 as [|r l Hr _ IH]; simpl; [reflexivity|]. rewrite IH, committed_clean; auto.
Qed.

Lemma Forall_committed l : Forall (λ r, pending r = false) (map committed l).
Proof. apply Forall_forall. intros r Hr. apply list_elem_of_fmap in Hr as (r0 & -> & _). reflexivity. Qed.

Lemma existsb_find {A} (f : A → bool) l : existsb f l = true ↔ ∃ x, List.find f l = Some x.
Proof.
  induction l as [|y l IH]; simpl.
  - split; [discriminate | intros [x H]; discriminate].
  - destruct (f y); simpl; [split; eauto | exact IH].
Qed.

Lemma steady_refl w : steady w w.
Proof. repeat split. Qed.

Lemma steady_trans w1 w2 w3 : steady w1 w2 → steady w2 w3 → steady w1 w3.
Proof. intros (H1 & H2 & H3) (H4 & H5 & H6). repeat split; congruence. Qed.

Lemma lookup_update_entry key f l e :
  lookup_entry key l = Some e → lookup_entry key (update_entry key f l) = Some (f e).
Proof.
  unfold lookup_entry, update_entry. induction l as [|[k v] l IH]; simpl; [discriminate|].
  destruct (String.eqb k key) eqn:E; simpl; rewrite E; simpl.
  - intros H. inversion H. reflexivity.
  - exact IH.
Qed.

Ltac steady_now := unfold steady; simpl; repeat split; reflexivity.

Lemma get_cached_names_cases env w :
  steady w (get_cached_names env w).2
  ∧ (fault env (calls w) = false → fault env (S (calls w)) = false →
     (∃ names, (get_cached_names env w).1 = Ret names)
     ∧ calls (get_cached_names env w).2 = S (S (calls w))).
Proof.
  unfold get_cached_names, actual_call, external, try_except, bind, get_world, log, modify,
    ret, raise.
  simpl. destruct (fault env (calls w)); simpl; [split; [steady_now | discriminate]|].
  destruct (is_nil (category_names (actual w))); simpl;
    destruct (fault env (S (calls w))); simpl;
    try (split; [steady_now | discriminate]);
    destruct (is_nil (payee_names (actual w))); simpl;
    (split; [steady_now | intros _ _; split; [eexists; reflexivity | reflexivity]]).
Qed.

Lemma get_ruleset_or_abort_cases env w :
  steady w (get_ruleset_or_abort env w).2
  ∧ (∀ rs, (get_ruleset_or_abort env w).1 = Ret rs → rs = ruleset (actual w))
  ∧ (fault env (calls w) = false →
     (get_ruleset_or_abort env w).1 = Ret (ruleset (actual w))
     ∧ calls (get_ruleset_or_abort env w).2 = S (calls w)).
Proof.
  unfold get_ruleset_or_abort, actual_call, external, try_except, bind, get_world, log,
    modify, ret, raise.
  simpl. destruct (fault env (calls w)); simpl.
  { split; [steady_now|]. split; [discriminate | discriminate]. }
  destruct (ruleset (actual w)); simpl;
    (split; [steady_now|]; split; [intros rs H; inversion H; reflexivity|];
     intros _; split; reflexivity).
Qed.

Lemma row_keys_flush s : row_keys (with_rows (map committed) s) = row_keys s.
Proof. unfold row_keys. simpl. rewrite map_map. reflexivity. Qed.

Lemma settled_refl w : settled w w.
Proof. repeat split. Qed.

Lemma settled_trans w1 w2 w3 : settled w1 w2 → settled w2 w3 → settled w1 w3.
Proof. intros (H1 & H2 & H3 & H4) (H5 & H6 & H7 & H8). repeat split; congruence. Qed.

Lemma steady_settled w w' : steady w w' → settled w w'.
Proof. intros (H1 & H2 & H3). unfold settled. rewrite H1. auto. Qed.

Lemma match_transaction_cases env d a p amount i am w :
  settled w (match_transaction env d a p amount i am w).2
  ∧ (∀ o, (match_transaction env d a p amount i am w).1 = Ret o →
          ∃ c, cents_of_decimal amount = Some c
               ∧ o = List.find (same_transaction a p c i)
                       (map committed (rows (actual w)) ++ map committed am)
               ∧ actual (match_transaction env d a p amount i am w).2
                 = with_rows (map committed) (actual w))
  ∧ (∀ c, fault env (calls w) = false → cents_of_decimal amount = Some c →
          (match_transaction env d a p amount i am w).1
          = Ret (List.find (same_transaction a p c i)
                   (map committed (rows (actual w)) ++ map committed am))
          ∧ actual (match_transaction env d a p amount i am w).2
            = with_rows (map committed) (actual w)
          ∧ calls (match_transaction env d a p amount i am w).2 = S (calls w)).
Proof.
  unfold match_transaction, actual_call, external, bind, get_world, of_option, modify, ret,
    raise.
  simpl. destruct (fault env (calls w)); simpl.
  { split; [repeat split|]. split; [discriminate | discriminate]. }
  assert (Hs : ∀ w0 : World, actual w0 = with_rows (map committed) (actual w) →
                 mapping_list w0 = mapping_list w → clock w0 = clock w → settled w w0).
  { intros w0 Ha Hm Hc. unfold settled. rewrite Ha, row_keys_flush. auto. }
  destruct (cents_of_decimal amount) as [c|]; simpl.
  - split; [apply Hs; reflexivity|]. split.
    + intros o H. inversion H. eauto.
    + intros c' _ H. inversion H. repeat split.
  - split; [apply Hs; reflexivity|]. split; [discriminate | discriminate].
Qed.

Lemma create_transaction_cases env d a p n cat amount i cl ip w r :
  (create_transaction env d a p n cat amount i cl ip w).1 = Ret r →
  ∃ c, cents_of_decimal amount = Some c
       ∧ r = created_row w d a p n cat c i cl ip
       ∧ actual (create_transaction env d a p n cat amount i cl ip w).2
         = add_row r (actual w)
       ∧ mapping_list (create_transaction env d a p n cat amount i cl ip w).2 = mapping_list w
       ∧ clock (create_transaction env d a p n cat amount i cl ip w).2 = clock w.
Proof.
  unfold create_transaction, actual_call, external, bind, get_world, of_option, modify, ret,
    raise.
  simpl. destruct (fault env (calls w)); simpl; [discriminate|].
  destruct (cents_of_decimal amount) as [c|]; simpl; [|discriminate].
  intros H. inversion H. exists c. repeat split.
Qed.

Lemma commit_cases env w :
  mapping_list (commit env w).2 = mapping_list w
  ∧ clock (commit env w).2 = clock w
  ∧ (∀ u, (commit env w).1 = Ret u →
          actual (commit env w).2 = with_rows (map committed) (actual w))
  ∧ (fault env (calls w) = false →
     (commit env w).1 = Ret tt
     ∧ actual (commit env w).2 = with_rows (map committed) (actual w)
     ∧ calls (commit env w).2 = S (calls w)).
Proof.
  unfold commit, actual_call, external, bind, modify, ret. simpl.
  destruct (fault env (calls w)); simpl.
  - repeat split; discriminate.
  - repeat split.
Qed.

Lemma steady_add_event ev w : steady w (add_event ev w).
Proof. steady_now. Qed.

Lemma same_transaction_key a p c i r1 r2 :
  row_key r1 = row_key r2 → same_transaction a p c i r1 = same_transaction a p c i r2.
Proof.
  unfold row_key, same_transaction. intros H. inversion H as [[H0 H1 H2 H3 H4 H5]].
  rewrite H1, H2, H3, H4, H5. reflexivity.
Qed.

Lemma imported_as_key a t r1 r2 : row_key r1 = row_key r2 → imported_as a t r1 = imported_as a t r2.
Proof.
  intros H. unfold imported_as. destruct (cell_get (txn_amount t) None); [|reflexivity].
  destruct (quantized_amount _); [|reflexivity]. destruct (cents_of_decimal _); [|reflexivity].
  apply same_transaction_key, H.
Qed.

Lemma existsb_of_key (f : Transactions → bool) s r :
  (∀ r1 r2, row_key r1 = row_key r2 → f r1 = f r2) →
  f r = true → row_key r ∈ row_keys s → existsb f (rows s) = true.
Proof.
  intros Hf Hr Hin. apply list_elem_of_fmap in Hin as (r2 & Hk & Hin).
  apply existsb_exists. exists r2. split; [apply list_elem_of_In, Hin|].
  rewrite <- (Hf r r2 Hk). exact Hr.
Qed.

Lemma existsb_keys_mono (f : Transactions → bool) s s' extra :
  (∀ r1 r2, row_key r1 = row_key r2 → f r1 = f r2) →
  row_keys s' = row_keys s ++ extra →
  existsb f (rows s) = true → existsb f (rows s') = true.
Proof.
  intros Hf Hk H. apply existsb_exists in H as (r & Hin & Hr).
  apply (existsb_of_key f s' r Hf Hr). rewrite Hk. apply elem_of_app. left.
  apply list_elem_of_fmap. exists r. split; [reflexivity | apply list_elem_of_In, Hin].
Qed.

Lemma session_ok_coherent s : session_ok s → coherent s [].
Proof.
  intros [Hnd Hlt]. split; [|split].
  - unfold row_keys. apply Forall_fmap. exact Hlt.
  - intros k1 k2 H1 H2 Hid.
    apply list_elem_of_fmap in H1 as (r1 & -> & H1). apply list_elem_of_fmap in H2 as (r2 & -> & H2).
    simpl in Hid. f_equal.
    assert (r1 = r2); [|subst; reflexivity].
    revert Hnd H1 H2 Hid. generalize (rows s). clear. intros l Hnd H1 H2 Hid.
    induction l as [|r l IH]; [inversion H1|].
    simpl in Hnd. apply NoDup_cons in Hnd as [Hr Hnd].
    apply elem_of_cons in H1 as [->|H1]; apply elem_of_cons in H2 as [->|H2].
    + reflexivity.
    + destruct Hr. rewrite Hid. apply list_elem_of_fmap. eauto.
    + destruct Hr. rewrite <- Hid. apply list_elem_of_fmap. eauto.
    + auto.
  - intros r Hr. inversion Hr.
Qed.

(** A row that the match finds is a row of the session, with nothing
    pending. *)
Lemma coherent_found s im r :
  coherent s im → r ∈ map committed (rows s) ++ map committed im →
  row_key r ∈ row_keys s ∧ pending r = false.
Proof.
  intros (_ & _ & H3) Hr.
  apply elem_of_app in Hr as [Hr|Hr]; apply list_elem_of_fmap in Hr as (r0 & -> & Hr0);
    (split; [|reflexivity]).
  - apply list_elem_of_fmap. exists r0. auto.
  - apply (H3 r0 Hr0).
Qed.

(** A created row takes the id of the counter. *)
Lemma coherent_add_row s im r :
  coherent s im → id r = next_row s →
  coherent (add_row r s) im ∧ row_keys (add_row r s) = row_keys s ++ [row_key r].
Proof.
  intros (H1 & H2 & H3) Hid.
  assert (Hk : row_keys (add_row r s) = row_keys s ++ [row_key r])
    by (unfold row_keys, add_row; simpl; rewrite map_app; reflexivity).
  split; [|exact Hk]. split; [|split].
  - rewrite Hk. simpl. apply Forall_app. split.
    + eapply Forall_impl; [exact H1|]. simpl. intros; lia.
    + constructor; [simpl; lia | constructor].
  - rewrite Hk. rewrite Forall_forall in H1. intros k1 k2 Hk1 Hk2 Heq.
    apply elem_of_app in Hk1 as [Hk1|Hk1]; apply elem_of_app in Hk2 as [Hk2|Hk2].
    + auto.
    + apply list_elem_of_singleton in Hk2. subst k2. specialize (H1 _ Hk1). simpl in *. lia.
    + apply list_elem_of_singleton in Hk1. subst k1. specialize (H1 _ Hk2). simpl in *. lia.
    + apply list_elem_of_singleton in Hk1, Hk2. congruence.
  - intros r0 Hr0. rewrite Hk. apply elem_of_app. left. apply H3, Hr0.
Qed.

(** The rules rewrite a row in place. *)
Lemma coherent_replace_row s im r r' :
  coherent s im → row_key r' = row_key r → row_key r ∈ row_keys s →
  row_keys (with_rows (replace_row r') s) = row_keys s.
Proof.
  intros (_ & H2 & _) Hk Hin. unfold row_keys, with_rows, replace_row. simpl.
  rewrite map_map. apply map_ext_in. intros r0 Hr0.
  destruct (Nat.eqb_spec (id r0) (id r')) as [E|E]; [|reflexivity].
  rewrite Hk. apply H2; [exact Hin | |].
  - apply list_elem_of_fmap. exists r0. split; [reflexivity | apply list_elem_of_In, Hr0].
  - simpl. inversion Hk. congruence.
Qed.

Lemma coherent_keys s s' im im' :
  row_keys s' = row_keys s → next_row s' = next_row s → coherent s im →
  (∀ r, r ∈ im' → row_key r ∈ row_keys s) → coherent s' im'.
Proof.
  intros Hk Hn (H1 & H2 & H3) Him. unfold coherent. rewrite Hk, Hn. auto.
Qed.

Lemma apply_mutation_key m r : keeps_identity m = true → row_key (apply_mutation m r) = row_key r.
Proof. destruct m; simpl; intros H; try discriminate; reflexivity. Qed.

Lemma run_rules_key rs r :
  Forall (λ rule, keeps_identity (action rule) = true) rs → row_key (run_rules rs r) = row_key r.
Proof.
  unfold run_rules. intros H. revert r. induction H as [|rule rs Hrule _ IH]; intros r.
  - reflexivity.
  - simpl. rewrite IH. destruct (condition rule r); [|reflexivity].
    apply apply_mutation_key, Hrule.
Qed.

Lemma create_transaction_ret env d a p n amount i cl ip im c w r w' :
  coherent (actual w) im → cents_of_decimal amount = Some c →
  create_transaction env d a p n None amount i cl ip w = (Ret r, w') →
  same_transaction a p c i r = true
  ∧ row_key r ∈ row_keys (actual w')
  ∧ row_keys (actual w') = row_keys (actual w) ++ [row_key r]
  ∧ coherent (actual w') im
  ∧ mapping_list w' = mapping_list w ∧ clock w' = clock w.
Proof.
  intros Hco Hc E.
  pose proof (create_transaction_cases env d a p n None amount i cl ip w r) as Hcr.
  rewrite E in Hcr. simpl in Hcr. destruct (Hcr eq_refl) as (c' & Hc' & Hr & Ha & Hm & Hk).
  assert (c' = c) by congruence. subst c'.
  destruct (coherent_add_row (actual w) im r Hco) as [Hco' Hkeys];
    [rewrite Hr; reflexivity|].
  rewrite Ha. split; [|split; [|split; [exact Hkeys|split; [exact Hco'|split; assumption]]]].
  - rewrite Hr. unfold same_transaction, created_row. simpl.
    rewrite !bool_decide_eq_true_2 by reflexivity. rewrite Z.eqb_refl. reflexivity.
  - rewrite Hkeys. apply elem_of_app. right. apply list_elem_of_here.
Qed.

(** What reconciling leaves: the row it returns is matched by the query
    and is a row of the session, which has at most one row more. *)
Lemma reconcile_transaction_ret env d a p n amount i cl ip im w r w' :
  coherent (actual w) im →
  reconcile_transaction env d a p n amount i cl ip im w = (Ret r, w') →
  ∃ c, cents_of_decimal amount = Some c
       ∧ same_transaction a p c i r = true
       ∧ row_key r ∈ row_keys (actual w')
       ∧ (∃ extra, row_keys (actual w') = row_keys (actual w) ++ extra)
       ∧ coherent (actual w') im
       ∧ mapping_list w' = mapping_list w ∧ clock w' = clock w.
Proof.
  unfold reconcile_transaction. intros Hco E.
  apply bind_ret_inv in E as (found & w1 & Em & E).
  destruct (match_transaction_cases env d a p amount i im w)
    as ((Hs1 & Hs2 & Hs3 & Hs4) & Hret & _).
  rewrite Em in Hs1, Hs2, Hs3, Hs4, Hret. simpl in *.
  destruct (Hret found eq_refl) as (c & Hc & Hfound & _). exists c. split; [exact Hc|].
  pose proof Hco as (_ & _ & Him).
  assert (Hco1 : coherent (actual w1) im) by (eapply coherent_keys; eauto).
  destruct found as [r0|].
  - inversion E; subst r0 w'. symmetry in Hfound. apply List.find_some in Hfound as [Hin Hq].
    split; [exact Hq|].
    split; [|split; [exists []; rewrite app_nil_r; exact Hs1|auto]].
    rewrite Hs1. apply (coherent_found _ im); [exact Hco | apply list_elem_of_In, Hin].
  - destruct (create_transaction_ret env d a p n amount i cl ip im c w1 r w' Hco1 Hc E)
      as (H1 & H2 & H3 & H4 & H5 & H6).
    rewrite Hs1 in H3. split; [exact H1|]. split; [exact H2|]. split; [eauto|].
    split; [exact H4|]. split; congruence.
Qed.

Lemma debug_reconcile_ret env d a p n amount i cl ip im w r w' :
  coherent (actual w) im →
  (log INFO (Text "DEBUG: Verbose logging for transaction") ;;;
   actual_call env GetAccount ;;;
   found <- match_transaction env d a p amount i im ;;
   log INFO (Text "DEBUG: Looking for matching transaction...") ;;;
   match found with
   | Some matched =>
       log INFO (Text "DEBUG: Found duplicate - not updating fields") ;;;
       ret matched
   | None =>
       log INFO (Text "DEBUG: No matching transaction found, will create new") ;;;
       create_transaction env d a p n None amount i cl ip
   end) w = (Ret r, w') →
  ∃ c, cents_of_decimal amount = Some c
       ∧ same_transaction a p c i r = true
       ∧ row_key r ∈ row_keys (actual w')
       ∧ (∃ extra, row_keys (actual w') = row_keys (actual w) ++ extra)
       ∧ coherent (actual w') im
       ∧ mapping_list w' = mapping_list w ∧ clock w' = clock w.
Proof.
  intros Hco E.
  apply bind_ret_inv in E as ([] & w0 & E0 & E). inversion E0; subst w0; clear E0.
  apply bind_ret_inv in E as ([] & w0 & E0 & E).
  assert (Hw0 : steady w w0).
  { unfold actual_call, external in E0. simpl in E0.
    destruct (fault env (calls w)); inversion E0; steady_now. }
  clear E0.
  apply bind_ret_inv in E as (found & w1 & Em & E).
  destruct (match_transaction_cases env d a p amount i im w0) as (Hs & Hret & _).
  rewrite Em in Hs, Hret. simpl in *.
  pose proof (settled_trans _ _ _ (steady_settled _ _ Hw0) Hs) as (Hs1 & Hs2 & Hs3 & Hs4).
  destruct Hw0 as (Hw1 & _ & _).
  destruct (Hret found eq_refl) as (c & Hc & Hfound & _). exists c. split; [exact Hc|].
  pose proof Hco as (_ & _ & Him).
  assert (Hco1 : coherent (actual w1) im) by (eapply coherent_keys; eauto).
  apply bind_ret_inv in E as ([] & w2 & E2 & E). inversion E2; subst w2; clear E2.
  destruct found as [r0|].
  - apply bind_ret_inv in E as ([] & w2 & E2 & E). inversion E2; subst w2; clear E2.
    inversion E; subst r0 w'. symmetry in Hfound. apply List.find_some in Hfound as [Hin Hq].
    simpl. split; [exact Hq|].
    split; [|split; [exists []; rewrite app_nil_r; exact Hs1|auto]].
    rewrite Hs1. apply (coherent_found _ im); [exact Hco|].
    rewrite <- Hw1. apply list_elem_of_In, Hin.
  - apply bind_ret_inv in E as ([] & w2 & E2 & E). inversion E2; subst w2; clear E2.
    match type of E with
    | create_transaction _ _ _ _ _ _ _ _ _ _ ?w3 = _ =>
        destruct (create_transaction_ret env d a p n amount i cl ip im c w3 r w')
          as (H1 & H2 & H3 & H4 & H5 & H6);
          [simpl; exact Hco1 | exact Hc | exact E |]
    end.
    simpl in *. rewrite Hs1 in H3. split; [exact H1|]. split; [exact H2|]. split; [eauto|].
    split; [exact H4|]. split; congruence.
Qed.

Lemma imported_as_unfold a t x amt c r :
  cell_get (txn_amount t) None = Some x → quantized_amount x = Some amt →
  cents_of_decimal amt = Some c →
  imported_as a t r
  = same_transaction a (cell_get (txn_description t) None) c (cell_get (txn_id t) None) r.
Proof. intros Hx Hq Hc. unfold imported_as. rewrite Hx, Hq, Hc. reflexivity. Qed.

Lemma imported_as_inv a t r :
  imported_as a t r = true →
  ∃ x amt c, cell_get (txn_amount t) None = Some x ∧ quantized_amount x = Some amt
             ∧ cents_of_decimal amt = Some c
             ∧ same_transaction a (cell_get (txn_description t) None) c
                 (cell_get (txn_id t) None) r = true.
Proof.
  unfold imported_as. destruct (cell_get (txn_amount t) None) as [x|]; [|discriminate].
  destruct (quantized_amount x) as [amt|] eqn:Hq; [|discriminate].
  destruct (cents_of_decimal amt) as [c|] eqn:Hc; [|discriminate].
  intros H. exists x, amt, c. auto.
Qed.

(** A turn of the loop of a load that returns: the transaction of the turn
    has a row in the session that it is matched with; the rows that were
    there are matched by what they were matched by, and at most one row
    is new. *)
Lemma load_one_ret env a rs dbg t im w im' w' :
  rules_keep_identity rs → coherent (actual w) im →
  load_one_into_actual env a rs dbg t im w = (Ret im', w') →
  parses env t
  ∧ existsb (imported_as a t) (rows (actual w')) = true
  ∧ (∃ extra, row_keys (actual w') = row_keys (actual w) ++ extra)
  ∧ coherent (actual w') im'
  ∧ mapping_list w' = mapping_list w ∧ clock w' = clock w.
Proof.
  intros Hrules Hco E. unfold load_one_into_actual in E.
  apply bind_ret_inv in E as (x & w0 & E0 & E). apply of_option_ret_inv in E0 as [Ex ->].
  apply bind_ret_inv in E as (amt & w0 & E0 & E). apply of_option_ret_inv in E0 as [Eq ->].
  cbv beta zeta in E.
  apply bind_ret_inv in E as (rec & w1 & EB & E).
  apply try_except_ret_inv in EB; [|intros; unfold bind, log, modify, raise; simpl; discriminate].
  apply bind_ret_inv in EB as (nzt & w2 & Ec & EB).
  apply bind_ret_inv in EB as (parsed & w3 & Ep & EB). apply of_option_ret_inv in Ep as [-> ->].
  unfold convert_to_nzt in Ec.
  destruct (cell_get (txn_date t) DateNone) as [| |ds] eqn:Ed; [inversion Ec | inversion Ec |].
  destruct (strptime env (strip_milliseconds ds)) as [secs|] eqn:Es; [|inversion Ec].
  destruct (Z.leb_spec (secs + 13 * 3600) datetime_max) as [Hmax|Hmax]; [|inversion Ec].
  inversion Ec; subst w2; clear Ec.
  split; [exists ds, secs; auto|].
  apply bind_ret_inv in EB as ([] & w4 & El & EB).
  assert (Hw4 : steady w w4) by (destruct (_ || _); inversion El; steady_now). clear El.
  destruct Hw4 as (Ha4 & Hm4 & Hk4). rewrite <- Ha4 in Hco.
  apply bind_ret_inv in EB as (r & w5 & Er & EB).
  assert (Hr : ∃ c, cents_of_decimal amt = Some c
                    ∧ same_transaction a (cell_get (txn_description t) None) c
                        (cell_get (txn_id t) None) r = true
                    ∧ row_key r ∈ row_keys (actual w5)
                    ∧ (∃ extra, row_keys (actual w5) = row_keys (actual w4) ++ extra)
                    ∧ coherent (actual w5) im
                    ∧ mapping_list w5 = mapping_list w4 ∧ clock w5 = clock w4).
  { destruct (bool_decide (dbg = cell_get (txn_id t) None)).
    - eapply debug_reconcile_ret; [exact Hco | exact Er].
    - eapply reconcile_transaction_ret; [exact Hco | exact Er]. }
  clear Er. destruct Hr as (c & Hc & Hq & Hin & Hext & Hco5 & Hm & Hk).
  rewrite Ha4 in Hext.
  pose proof (imported_as_unfold a t x amt c) as Himp.
  specialize (λ r, Himp r Ex Eq Hc).
  destruct (pending r) eqn:Ependr; simpl in EB.
  - apply bind_ret_inv in EB as (after & w6 & Ea & EB). inversion EB; subst rec w6; clear EB.
    assert (Ha : row_key after = row_key r
                 ∧ row_keys (actual w1) = row_keys (actual w5)
                 ∧ next_row (actual w1) = next_row (actual w5)
                 ∧ mapping_list w1 = mapping_list w5 ∧ clock w1 = clock w5).
    { destruct rs as [l|].
      - apply bind_ret_inv in Ea as (post & w7 & Erun & Ea).
        unfold ruleset_run, bind, modify, ret in Erun. simpl in Erun.
        inversion Erun; subst post w7; clear Erun.
        apply bind_ret_inv in Ea as ([] & w8 & Elog & Ea). inversion Ea; subst after w8.
        pose proof (run_rules_key l r (Hrules l eq_refl)) as Hkey.
        pose proof (coherent_replace_row (actual w5) im r (run_rules l r) Hco5 Hkey Hin) as Hkeys.
        destruct (bool_decide _); inversion Elog; simpl; auto.
      - inversion Ea; subst. auto. }
    destruct Ha as (Hkey & Hkeys & Hnext & Hm1 & Hk1).
    assert (Hmatch : existsb (imported_as a t) (rows (actual w1)) = true).
    { apply (existsb_of_key _ _ after); [apply imported_as_key | |].
      - rewrite Himp, (same_transaction_key _ _ _ _ after r Hkey). exact Hq.
      - rewrite Hkeys, Hkey. exact Hin. }
    assert (Hco1 : ∀ im0, (∀ r0, r0 ∈ im0 → row_key r0 ∈ row_keys (actual w5)) →
                          coherent (actual w1) im0).
    { intros im0 Him0. eapply coherent_keys; eauto. }
    destruct Hco5 as (_ & _ & Him5).
    unfold bind, log, modify, ret in E. simpl in E.
    destruct (pending after); [destruct (bool_decide _)|]; inversion E; subst im' w'; simpl;
      (split; [exact Hmatch|]; split; [rewrite Hkeys; exact Hext|];
       split; [|split; congruence]; apply Hco1; intros r0 Hr0;
       try (apply elem_of_app in Hr0 as [Hr0|Hr0];
            [|apply list_elem_of_singleton in Hr0; subst r0; rewrite Hkey; exact Hin]);
       apply Him5, Hr0).
  - apply bind_ret_inv in EB as ([] & w6 & Elog & EB). inversion EB; subst rec w6; clear EB.
    simpl in E. inversion E; subst im' w'; clear E.
    assert (Hs : steady w5 w1).
    { destruct (bool_decide (dbg = cell_get (txn_id t) None)); [inversion Elog; steady_now|].
      destruct (bool_decide (dbg = Some "all")); inversion Elog; steady_now. }
    destruct Hs as (Hs1 & Hs2 & Hs3). rewrite Hs1.
    split; [|split; [exact Hext | split; [exact Hco5 | split; congruence]]].
    apply (existsb_of_key _ _ r); [apply imported_as_key | | exact Hin].
    rewrite Himp. exact Hq.
Qed.

(** The loop of a load that returns: every transaction of the batch has a
    row in the session that it is matched with. *)
Lemma load_loop_ret env a rs dbg l :
  rules_keep_identity rs →
  ∀ im w im' w',
    coherent (actual w) im →
    for_each l (load_one_into_actual env a rs dbg) im w = (Ret im', w') →
    Forall (λ t, parses env t ∧ existsb (imported_as a t) (rows (actual w')) = true) l
    ∧ (∃ extra, row_keys (actual w') = row_keys (actual w) ++ extra)
    ∧ coherent (actual w') im'
    ∧ mapping_list w' = mapping_list w ∧ clock w' = clock w.
Proof.
  intros Hrules. induction l as [|t l IH]; intros im w im' w' Hco E.
  - inversion E; subst. split; [constructor|]. split; [exists []; rewrite app_nil_r; reflexivity|].
    auto.
  - simpl in E. apply bind_ret_inv in E as (im1 & w1 & Eone & E).
    destruct (load_one_ret env a rs dbg t im w im1 w1 Hrules Hco Eone)
      as (Hp & Hex & (extra1 & Hk1) & Hco1 & Hm1 & Hc1).
    destruct (IH im1 w1 im' w' Hco1 E) as (Hall & (extra2 & Hk2) & Hco2 & Hm2 & Hc2).
    split; [|split; [|split; [exact Hco2 | split; congruence]]].
    + constructor; [|exact Hall]. split; [exact Hp|].
      eapply existsb_keys_mono; [apply imported_as_key | exact Hk2 | exact Hex].
    + exists (extra1 ++ extra2). rewrite Hk2, Hk1, app_assoc. reflexivity.
Qed.

(** What a load that returns a count leaves: rows that are all committed,
    among them one for each transaction of the batch. *)
Lemma first_load_ret env l key dbg w n1 w1 :
  session_ok (actual w) → rules_keep_identity (ruleset (actual w)) →
  load_transactions_into_actual env l key dbg w = (Ret (Some n1), w1) →
  ∃ e a,
    lookup_entry key (mapping_list w) = Some e ∧ actual_account_id e = Some a
    ∧ lookup_entry key (mapping_list w1)
      = Some (set_actual_synced_datetime (utc_stamp env (clock w)) e)
    ∧ Forall (λ r, pending r = false) (rows (actual w1))
    ∧ Forall (λ t, parses env t ∧ existsb (imported_as a t) (rows (actual w1)) = true) l.
Proof.
  intros Hok Hrules E. unfold load_transactions_into_actual in E.
  destruct (is_nil l).
  { apply bind_ret_inv in E as ([] & w0 & _ & E). inversion E. }
  apply bind_ret_inv in E as (e & w0 & Ee & E).
  unfold entry_of in Ee. apply bind_ret_inv in Ee as (w00 & w01 & Eg & Ee).
  inversion Eg; subst w00 w01; clear Eg. apply of_option_ret_inv in Ee as [He ->].
  apply bind_ret_inv in E as (a & w0 & Ea & E). apply of_option_ret_inv in Ea as [Ha ->].
  apply bind_ret_inv in E as (names & w2 & En & E).
  destruct (get_cached_names_cases env w) as [Hs2 _]. rewrite En in Hs2. simpl in Hs2.
  apply bind_ret_inv in E as (rs & w3 & Er & E).
  destruct (get_ruleset_or_abort_cases env w2) as (Hs3 & Hrs & _).
  rewrite Er in Hs3, Hrs. simpl in Hs3, Hrs. specialize (Hrs rs eq_refl).
  pose proof (steady_trans _ _ _ Hs2 Hs3) as (Hact & Hml & Hck).
  destruct Hs2 as (Hact2 & _ & _).
  apply bind_ret_inv in E as (im & w4 & Ef & E).
  apply load_loop_ret in Ef;
    [|rewrite Hrs, Hact2; exact Hrules | rewrite Hact; apply session_ok_coherent, Hok].
  destruct Ef as (Hall & _ & _ & Hml4 & Hck4).
  apply bind_ret_inv in E as (tk & w5 & Enow & E). inversion Enow; subst tk w5; clear Enow.
  apply bind_ret_inv in E as ([] & w6 & Em & E). inversion Em; subst w6; clear Em.
  apply bind_ret_inv in E as ([] & w7 & Ecm & E). inversion E; subst n1 w7; clear E.
  apply try_except_ret_inv in Ecm;
    [|intros; unfold bind, log, modify, raise; simpl; discriminate].
  apply bind_ret_inv in Ecm as ([] & w8 & Ecm & Elog). inversion Elog; subst w1; clear Elog.
  destruct (commit_cases env
              (set_mapping_list
                 (update_entry key (set_actual_synced_datetime (utc_stamp env (clock w4))))
                 (tick w4))) as (Hcm1 & _ & Hcm3 & _).
  rewrite Ecm in Hcm1, Hcm3. simpl in Hcm1, Hcm3. specialize (Hcm3 tt eq_refl).
  exists e, a. do 2 (split; [assumption|]). simpl. rewrite Hcm1, Hcm3. simpl.
  split; [|split].
  - rewrite Hck4, Hck. apply lookup_update_entry. rewrite Hml4, Hml. exact He.
  - apply Forall_committed.
  - eapply Forall_impl; [exact Hall|]. simpl. intros t [Hp Hex]. split; [exact Hp|].
    apply (existsb_keys_mono _ (actual w4) (with_rows (map committed) (actual w4)) []);
      [apply imported_as_key | | exact Hex].
    unfold row_keys. simpl. rewrite map_map, app_nil_r. reflexivity.
Qed.

(** The turn of the loop for a transaction that has a match, in a
    session with nothing pending: the match is returned as it is, skipped,
    and nothing is imported. *)
Lemma load_one_duplicate env a rs dbg t w x amt c ds secs r :
  cell_get (txn_amount t) None = Some x → quantized_amount x = Some amt →
  cents_of_decimal amt = Some c →
  cell_get (txn_date t) DateNone = DateStr ds →
  strptime env (strip_milliseconds ds) = Some secs → secs + 13 * 3600 ≤ datetime_max →
  Forall (λ r, pending r = false) (rows (actual w)) →
  List.find (same_transaction a (cell_get (txn_description t) None) c
               (cell_get (txn_id t) None)) (rows (actual w)) = Some r →
  fault env (calls w) = false → fault env (S (calls w)) = false →
  (load_one_into_actual env a rs dbg t [] w).1 = Ret []
  ∧ steady w (load_one_into_actual env a rs dbg t [] w).2
  ∧ (calls w ≤ calls (load_one_into_actual env a rs dbg t [] w).2 ≤ calls w + 2)%nat.
Proof.
  intros Hx Hq Hc Hd Hs Hmax Hclean Hfind Hf0 Hf1.
  assert (Hpend : pending r = false).
  { apply List.find_some in Hfind as [Hin _]. rewrite Forall_forall in Hclean.
    apply Hclean, list_elem_of_In, Hin. }
  apply Z.leb_le in Hmax.
  destruct w as [[rws nr rset cn pn] yn mf ml tr cl ck]. simpl in Hclean, Hfind, Hf0, Hf1.
  pose proof (map_committed_clean rws Hclean) as Hflush.
  unfold load_one_into_actual, reconcile_transaction, match_transaction, convert_to_nzt,
    actual_call, external, try_except, bind, get_world, of_option, log, modify, ret, raise.
  rewrite Hx. simpl. rewrite Hq. simpl. rewrite Hd, Hs. simpl. rewrite Hmax. simpl.
  destruct (bool_decide (dbg = cell_get (txn_id t) None)); simpl.
  - rewrite orb_true_r. simpl. rewrite Hf0. simpl. rewrite Hf1. simpl. rewrite Hc. simpl.
    rewrite Hflush, app_nil_r, Hfind. simpl. rewrite Hpend. simpl.
    split; [reflexivity|].
    split; [unfold steady, with_rows; simpl; rewrite Hflush; repeat split | lia].
  - rewrite orb_false_r.
    destruct (bool_decide (dbg = Some "all")); simpl; rewrite Hf0; simpl; rewrite Hc; simpl;
      rewrite Hflush, app_nil_r, Hfind; simpl; rewrite Hpend; simpl;
      (split; [reflexivity|];
       split; [unfold steady, with_rows; simpl; rewrite Hflush; repeat split | lia]).
Qed.

Lemma find_ext {A} (f g : A → bool) l : (∀ x, f x = g x) → List.find f l = List.find g l.
Proof. intros H. induction l as [|x l IH]; simpl; [reflexivity|]. rewrite H, IH. reflexivity. Qed.

(** The loop of a load over transactions that all have a committed match:
    nothing is imported and the session is left as it is. *)
Lemma load_loop_duplicates env a rs dbg l :
  ∀ w,
    Forall (λ r, pending r = false) (rows (actual w)) →
    Forall (λ t, parses env t ∧ existsb (imported_as a t) (rows (actual w)) = true) l →
    (∀ k, (calls w ≤ k < calls w + 2 * length l)%nat → fault env k = false) →
    (for_each l (load_one_into_actual env a rs dbg) [] w).1 = Ret []
    ∧ steady w (for_each l (load_one_into_actual env a rs dbg) [] w).2
    ∧ (calls w ≤ calls (for_each l (load_one_into_actual env a rs dbg) [] w).2
       ≤ calls w + 2 * length l)%nat.
Proof.
  induction l as [|t l IH]; intros w Hclean Hall Hok.
  - simpl. split; [reflexivity|]. split; [apply steady_refl | lia].
  - apply Forall_cons in Hall as [[(ds & secs & Hd & Hs & Hmax) Hex] Hall].
    apply existsb_find in Hex as [r Hfind].
    pose proof (List.find_some _ _ Hfind) as [Hin Himp].
    apply imported_as_inv in Himp as (x & amt & c & Hx & Hq & Hc & _).
    rewrite (find_ext _ _ _ (λ r0, imported_as_unfold a t x amt c r0 Hx Hq Hc)) in Hfind.
    destruct (load_one_duplicate env a rs dbg t w x amt c ds secs r)
      as (Hone & Hst & Hcalls); try assumption.
    { apply Hok. simpl. lia. }
    { apply Hok. simpl. lia. }
    simpl for_each. rewrite bind_unfold.
    destruct (load_one_into_actual env a rs dbg t [] w) as [o1 w1]. simpl in Hone, Hst, Hcalls.
    subst o1. destruct Hst as (Hs1 & Hs2 & Hs3).
    destruct (IH w1) as (H1 & H2 & H3).
    + rewrite Hs1. exact Hclean.
    + rewrite Hs1. exact Hall.
    + intros k Hk. apply Hok. simpl. lia.
    + split; [exact H1|]. split; [|simpl; lia].
      eapply steady_trans; [|exact H2]. repeat split; assumption.
Qed.

(** A load of a batch of transactions that all have a committed match in
    the session. *)
Lemma load_duplicates env l key dbg w e a :
  l ≠ [] →
  lookup_entry key (mapping_list w) = Some e → actual_account_id e = Some a →
  Forall (λ r, pending r = false) (rows (actual w)) →
  Forall (λ t, parses env t ∧ existsb (imported_as a t) (rows (actual w)) = true) l →
  (∀ k, (calls w ≤ k < calls w + (2 * length l + 4))%nat → fault env k = false) →
  (load_transactions_into_actual env l key dbg w).1 = Ret (Some 0)
  ∧ rows (actual (load_transactions_into_actual env l key dbg w).2) = rows (actual w).
Proof.
  intros Hne He Ha Hclean Hall Hok.
  unfold load_transactions_into_actual.
  destruct l as [|t0 l0]; [congruence|]. cbn [is_nil].
  remember (t0 :: l0) as l eqn:El. clear El Hne.
  unfold entry_of. rewrite bind_unfold. rewrite bind_unfold. simpl. rewrite He. simpl.
  rewrite bind_unfold. rewrite Ha. simpl.
  (* the names *)
  destruct (get_cached_names_cases env w) as ((Hn1 & Hn2 & Hn3) & Hfw).
  destruct Hfw as ((names & Hnames) & Hcalls1); [apply Hok; lia | apply Hok; lia |].
  rewrite bind_unfold.
  destruct (get_cached_names env w) as [o1 w1]. simpl in *. subst o1.
  (* the rules *)
  destruct (get_ruleset_or_abort_cases env w1) as ((Hr1 & Hr2 & Hr3) & _ & Hfw).
  destruct Hfw as (Hrs & Hcalls2); [apply Hok; lia|].
  rewrite bind_unfold.
  destruct (get_ruleset_or_abort env w1) as [o2 w2]. simpl in *. subst o2.
  (* the transactions *)
  rewrite bind_unfold.
  destruct (load_loop_duplicates env a (ruleset (actual w1)) dbg l w2)
    as (Hloop & (Ho1 & Ho2 & Ho3) & Hcalls3).
  { rewrite Hr1, Hn1. exact Hclean. }
  { rewrite Hr1, Hn1. exact Hall. }
  { intros k Hk. apply Hok. lia. }
  destruct (for_each l (load_one_into_actual env a (ruleset (actual w1)) dbg) [] w2)
    as [o3 w3].
  simpl in *. subst o3. simpl.
  (* the timestamp in memory and the commit *)
  rewrite bind_unfold. simpl. rewrite bind_unfold. simpl. rewrite bind_unfold.
  unfold try_except. rewrite bind_unfold.
  match goal with
  | |- context [commit env ?w4] =>
      destruct (commit_cases env w4) as (_ & _ & _ & Hfw); destruct Hfw as (Hc1 & Hc2 & _);
      [apply Hok; simpl; lia|];
      destruct (commit env w4) as [o5 w5]
  end.
  simpl in *. subst o5. simpl. split; [reflexivity|].
  rewrite Hc2. simpl. rewrite Ho1, Hr1, Hn1. apply map_committed_clean, Hclean.
Qed.




(** A transaction that comes twice in one batch is imported once: the
    match of the second turn flushes the session, and finds the row of the
    first turn with nothing pending on it. And a load that is run again
    after its commit has failed finds the rows of the first run, and
    imports nothing. *)
Example repeated_in_batch_imported_once :
  let e := sample.entry None (Some "actual-1") (Some "ynab-1") None None in
  let t := sample.txn "t1" "COFFEE" sample.f2_01 in
  let w := sample.world [("acc_1", e)] in
  (load_transactions_into_actual sample.env [t; t] "acc_1" None w).1 = Ret (Some 1)
  ∧ length (rows (actual (load_transactions_into_actual sample.env [t; t] "acc_1" None w).2))
    = 1%nat.
Proof. split; vm_compute; reflexivity. Qed.

Example retry_after_failed_commit :
  let e := sample.entry None (Some "actual-1") (Some "ynab-1") None None in
  let l := [sample.txn "t1" "COFFEE" sample.f2_01] in
  let w := sample.world [("acc_1", e)] in
  let w1 := (load_transactions_into_actual (sample.env_failing 5) l "acc_1" None w).2 in
  (load_transactions_into_actual (sample.env_failing 5) l "acc_1" None w).1
  = Raise (RuntimeError "Failed to commit changes to Actual")
  ∧ (load_transactions_into_actual (sample.env_failing 5) l "acc_1" None w1).1 = Ret (Some 0)
  ∧ length (rows (actual (load_transactions_into_actual (sample.env_failing 5) l "acc_1" None
                            w1).2)) = 1%nat.
Proof. repeat split; vm_compute; reflexivity. Qed.

(** * Further properties of the engine *)

(** ** Dates *)

Lemma nzt_day_of_seconds secs :
  (secs + 13 * 3600) / 86400
  = secs / 86400 + (if 11 * 3600 <=? secs mod 86400 then 1 else 0).
Proof.
  pose proof (Z.div_mod secs 86400 ltac:(lia)) as Hdm.
  pose proof (Z.mod_pos_bound secs 86400 ltac:(lia)) as Hr.
  remember (secs / 86400) as q. remember (secs mod 86400) as r.
  destruct (Z.leb_spec (11 * 3600) r).
  - symmetry. apply (Z.div_unique _ _ _ (r + 13 * 3600 - 86400)); lia.
  - symmetry. apply (Z.div_unique _ _ _ (r + 13 * 3600)); lia.
Qed.

(** X1. What [convert_to_nzt] does with a date. It raises on a date that
    is not a string, the NaN of a row without date ([TypeError]), and on a
    time within thirteen hours of [datetime.max] ([OverflowError]), with
    nothing logged. A date that is [None] or that [strptime] refuses gives
    [None] after one line of the log. Any other date, read as [secs]
    seconds since the epoch, gives, with nothing logged, the UTC day when
    the UTC time of day is before 11:00 and the day after from 11:00 on:
    the fixed offset of thirteen hours. *)
Theorem convert_to_nzt_day env date_str w :
  match date_str with
  | DateNone =>
      convert_to_nzt env date_str w
      = (Ret None, add_event (Log WARNING (Text "Input date string is None.")) w)
  | DateNaN => convert_to_nzt env date_str w = (Raise TypeError, w)
  | DateStr s =>
      match strptime env (strip_milliseconds s) with
      | None => ∃ m, convert_to_nzt env date_str w = (Ret None, add_event (Log ERROR m) w)
      | Some secs =>
          if secs + 13 * 3600 <=? datetime_max
          then convert_to_nzt env date_str w
               = (Ret (Some (secs / 86400 + (if 11 * 3600 <=? secs mod 86400 then 1 else 0))),
                  w)
          else convert_to_nzt env date_str w = (Raise OverflowError, w)
      end
  end.
Proof.
  unfold convert_to_nzt. destruct date_str as [| |s]; simpl; try reflexivity.
  destruct (strptime env (strip_milliseconds s)) as [secs|].
  - destruct (secs + 13 * 3600 <=? datetime_max); [|reflexivity].
    rewrite nzt_day_of_seconds. reflexivity.
  - eexists. reflexivity.
Qed.

Lemma index_dot_cons b s :
  String.index 0 "." (String b s)
  = if Ascii.ascii_dec (Ascii.ascii_of_nat 46) b then Some 0%nat
    else match String.index 0 "." s with
         | Some n => Some (S n)
         | None => None
         end.
Proof.
  cbn [String.index String.prefix].
  destruct (Ascii.ascii_dec _ b); [destruct s; reflexivity | reflexivity].
Qed.

Lemma index_dot_prefix s :
  ∀ i, String.index 0 "." s = Some i →
       String.index 0 "." (String.append (String.substring 0 i s) "Z") = None.
Proof.
  induction s as [|b s IH]; intros i Hi.
  - discriminate.
  - rewrite index_dot_cons in Hi. destruct (Ascii.ascii_dec _ b) as [Eb|Eb].
    + inversion Hi; subst i. reflexivity.
    + destruct (String.index 0 "." s) as [n|] eqn:En; [|discriminate].
      inversion Hi; subst i. cbn [String.substring].
      change (String.index 0 "." (String b (String.append (String.substring 0 n s) "Z")) = None).
      rewrite index_dot_cons. destruct (Ascii.ascii_dec _ b); [contradiction|].
      rewrite (IH n eq_refl). reflexivity.
Qed.

(** X2. What [convert_to_nzt] hands to [strptime] holds no ["."]: a date
    without one is left as it is, and a date with one is cut before the
    first ["."] and closed with ["Z"]; cutting twice is cutting once. *)
Theorem strip_milliseconds_no_dot date_str :
  String.index 0 "." (strip_milliseconds date_str) = None
  ∧ (String.index 0 "." date_str = None → strip_milliseconds date_str = date_str)
  ∧ strip_milliseconds (strip_milliseconds date_str) = strip_milliseconds date_str.
Proof.
  assert (H : String.index 0 "." (strip_milliseconds date_str) = None).
  { unfold strip_milliseconds. destruct (String.index 0 "." date_str) as [i|] eqn:Ei.
    - apply index_dot_prefix, Ei.
    - exact Ei. }
  split; [exact H|]. split.
  - intros Hn. unfold strip_milliseconds. rewrite Hn. reflexivity.
  - unfold strip_milliseconds at 1. rewrite H. reflexivity.
Qed.

(** ** The transcoding for YNAB *)

(** What a comprehension gives, from what its body gives on each
    element. *)
Lemma map_m_outcome {A B} (f : A → M B) (Q : A → B → Prop) (R : A → Exn → Prop) (l : list A) :
  (∀ x w, match (f x w).1 with
          | Ret b => Q x b
          | Raise e => R x e
          | Spin => False
          end) →
  ∀ w, match (map_m f l w).1 with
       | Ret bs => Forall2 Q l bs
       | Raise e => Exists (λ x, R x e) l
       | Spin => False
       end.
Proof.
  intros Hf. induction l as [|x l IH]; intros w; simpl; [constructor|].
  rewrite bind_unfold. specialize (Hf x w).
  destruct (f x w) as [[b|e|] w1]; simpl in *; [|apply Exists_cons_hd, Hf | exact Hf].
  rewrite bind_unfold. specialize (IH w1).
  destruct (map_m f l w1) as [[bs|e|] w2]; simpl in *.
  - constructor; assumption.
  - apply Exists_cons_tl, IH.
  - exact IH.
Qed.

Lemma Forall2_Exists {A B} (Q : A → B → Prop) (R : B → Prop) (S : A → Prop) l bs :
  Forall2 Q l bs → (∀ x b, Q x b → R b → S x) → Exists R bs → Exists S l.
Proof.
  intros HQ Himp. induction HQ as [|x b l bs Hxb _ IH]; intros Hex; inversion Hex; subst.
  - apply Exists_cons_hd. eauto.
  - apply Exists_cons_tl. auto.
Qed.

Lemma nzt_day_run env d w :
  (convert_to_nzt env d w).1
  = match nzt_day env d with
    | Day day => Ret (Some day)
    | NoDay _ _ => Ret None
    | Refused e => Raise e
    end.
Proof.
  unfold convert_to_nzt, nzt_day. destruct d as [| |s]; simpl; try reflexivity.
  destruct (strptime env (strip_milliseconds s)) as [secs|]; [|reflexivity].
  destruct (secs + 13 * 3600 <=? datetime_max); [|reflexivity].
  simpl. rewrite nzt_day_of_seconds. reflexivity.
Qed.

Lemma get_payee_name_run row w :
  match (get_payee_name row w).1 with
  | Ret p => p = payee_of (cell_get (txn_description row) None) (txn_merchant row)
             ∧ (p = None → ∃ d, txn_description row = Holds d)
  | Raise e => e = KeyError "description" ∧ txn_description row = NoColumn
  | Spin => False
  end.
Proof.
  unfold get_payee_name, payee_of, getitem, try_except, bind, log, modify, ret, raise.
  destruct (txn_merchant row) as [[[[name|]|]|s|]|]; simpl;
    try destruct (String.index 0 "name" s); simpl;
    try (split; [reflexivity | discriminate]);
    destruct (txn_description row) as [|d]; simpl;
    try (split; reflexivity); (split; [reflexivity | eauto]).
Qed.

(** The rows of [clean_txn_for_ynab], from its columns. *)
Lemma transcoded_rows env account (l : list AkahuTxn) :
  ∀ useful payee_names memos amounts dates,
    Forall2 (λ t u, txn_id t = Holds u.1.1 ∧ txn_date t = Holds u.1.2
                    ∧ txn_amount t = Holds u.2) l useful →
    Forall2 (λ t p, p = payee_of (cell_get (txn_description t) None) (txn_merchant t))
      l payee_names →
    Forall2 (λ t m, txn_description t = Holds m) l memos →
    Forall2 (λ u a, ∃ x, u.2 = Some x ∧ milliunits x = Some a) useful amounts →
    Forall2 (λ u d, (∀ e, nzt_day env u.1.2 ≠ Refused e) ∧ d = day_of (nzt_day env u.1.2))
      useful dates →
    Forall2 (transcoded env account) l
      (map (λ c : (option string * DateValue * option spec_float) * option string
                  * option string * Z * option Z,
              let '(u, payee_name, memo, amount, date) := c in
              {| y_account_id := account; y_date := date; y_amount := amount;
                 y_payee_name := payee_name; y_memo := memo;
                 y_import_id := u.1.1; y_cleared := "cleared"; y_flag_color := "red";
                 y_approved := false |})
         (zip (zip (zip (zip useful payee_names) memos) amounts) dates)).
Proof.
  induction l as [|t l IH]; intros useful payee_names memos amounts dates Hu Hp Hm Ha Hd.
  - inversion Hu; subst. constructor.
  - inversion Hu as [|? u ? useful' Hu1 Hu2]; subst.
    inversion Hp as [|? p ? payees' Hp1 Hp2]; subst.
    inversion Hm as [|? m ? memos' Hm1 Hm2]; subst.
    inversion Ha as [|? a ? amounts' Ha1 Ha2]; subst.
    inversion Hd as [|? d ? dates' Hd1 Hd2]; subst.
    simpl. constructor; [|apply IH; assumption].
    destruct Hu1 as (Hi & Hdate & Hamt). destruct Ha1 as (x & Hx & Hmilli).
    destruct Hd1 as (Hnot & Hday).
    unfold transcoded. simpl.
    split; [exact Hi|]. split; [reflexivity|]. split; [exact Hm1|].
    split; [rewrite Hm1; reflexivity|].
    split; [exists x; rewrite Hamt, Hx; auto|].
    split; [exists u.1.2; auto|]. auto.
Qed.

(** X3. [clean_txn_for_ynab] returns one row per source transaction, in
    the order of the source: the import id is the source id, the memo the
    description, the payee the name of the merchant, or ["Unknown"] when
    the lookup of that name fails, or else the description, the amount
    [int(x * 1000)], the date the New Zealand day, or none for a date
    that is [None] or cannot be read, the account the one given. It
    raises on a frame without rows ([ValueError]), and otherwise only
    because of a row: a column that the frame does not have ([KeyError]),
    an amount that is [None] ([TypeError]) or that [int] refuses, or a
    date that the conversion refuses (NaN, or too close to
    [datetime.max]). *)
Theorem clean_txn_for_ynab_rows env akahu_txn ynab_account_id w :
  match (clean_txn_for_ynab env akahu_txn ynab_account_id w).1 with
  | Ret cleaned => Forall2 (transcoded env ynab_account_id) akahu_txn cleaned
  | Raise e =>
      (akahu_txn = [] ∧ e = ValueError)
      ∨ Exists (λ t, untranscodable env t e) akahu_txn
  | Spin => False
  end.
Proof.
  unfold clean_txn_for_ynab. destruct akahu_txn as [|t0 l0]; [left; auto|].
  cbn [is_nil]. remember (t0 :: l0) as l eqn:El. clear El t0 l0.
  (* the payees *)
  rewrite bind_unfold.
  pose proof (map_m_outcome get_payee_name
                (λ t p, p = payee_of (cell_get (txn_description t) None) (txn_merchant t))
                (λ t e, untranscodable env t e) l) as Hp.
  specialize (Hp (λ x w0, ltac:(
    pose proof (get_payee_name_run x w0) as H;
    destruct (get_payee_name x w0) as [[p|e|] w1]; simpl in *;
    [exact (proj1 H) | left; exact H | exact H])) w).
  destruct (map_m get_payee_name l w) as [[payee_names|e|] w1]; simpl in Hp;
    [|right; exact Hp | exact Hp].
  (* the memos *)
  rewrite bind_unfold.
  pose proof (map_m_outcome (λ row, getitem "description" (txn_description row))
                (λ t m, txn_description t = Holds m)
                (λ t e, untranscodable env t e) l) as Hm.
  specialize (Hm (λ x w0, ltac:(
    unfold getitem, untranscodable; destruct (txn_description x); simpl; auto)) w1).
  destruct (map_m _ l w1) as [[memos|e|] w2]; simpl in Hm; [|right; exact Hm | exact Hm].
  (* the columns that are kept *)
  rewrite bind_unfold.
  pose proof (map_m_outcome
                (λ row, id <- getitem "_id" (txn_id row) ;;
                        date <- getitem "date" (txn_date row) ;;
                        amount <- getitem "amount" (txn_amount row) ;;
                        ret (id, date, amount))
                (λ t u, txn_id t = Holds u.1.1 ∧ txn_date t = Holds u.1.2
                        ∧ txn_amount t = Holds u.2)
                (λ t e, untranscodable env t e) l) as Hu.
  specialize (Hu (λ x w0, ltac:(
    unfold getitem, untranscodable, bind, ret, raise;
    destruct (txn_id x); simpl; [auto 6|];
    destruct (txn_date x); simpl; [auto 6|];
    destruct (txn_amount x); simpl; auto 6)) w2).
  destruct (map_m _ l w2) as [[useful|e|] w3]; simpl in Hu; [|right; exact Hu | exact Hu].
  (* the amounts *)
  rewrite bind_unfold.
  pose proof (map_m_outcome
                (λ u : option string * DateValue * option spec_float,
                   x <- of_option u.2 TypeError ;;
                   of_option (milliunits x) (int_refuses (pyfloat.mul x (pyfloat.of_int 1000))))
                (λ u a, ∃ x, u.2 = Some x ∧ milliunits x = Some a)
                (λ u e, (e = TypeError ∧ u.2 = None)
                        ∨ ∃ x, u.2 = Some x ∧ milliunits x = None
                               ∧ e = int_refuses (pyfloat.mul x (pyfloat.of_int 1000)))
                useful) as Ha.
  specialize (Ha (λ u w0, ltac:(
    unfold of_option, bind, ret, raise; destruct (u.2) as [x|]; simpl; [|auto];
    destruct (milliunits x) eqn:E; simpl; eauto 6)) w3).
  destruct (map_m _ useful w3) as [[amounts|e|] w4]; simpl in Ha; [| |exact Ha].
  2: { right. eapply Forall2_Exists; [exact Hu | | exact Ha].
       intros t u (_ & _ & Hamt) [[-> Hn]|(x & Hx & Hmilli & ->)]; unfold untranscodable;
         rewrite Hamt.
       - do 4 right. left. rewrite Hn. auto.
       - do 5 right. left. exists x. rewrite Hx. auto. }
  (* the dates *)
  rewrite bind_unfold.
  pose proof (map_m_outcome
                (λ u : option string * DateValue * option spec_float,
                   convert_to_nzt env u.1.2)
                (λ u d, (∀ e, nzt_day env u.1.2 ≠ Refused e) ∧ d = day_of (nzt_day env u.1.2))
                (λ u e, nzt_day env u.1.2 = Refused e) useful) as Hd.
  specialize (Hd (λ u w0, ltac:(
    cbv beta; rewrite nzt_day_run; destruct (nzt_day env u.1.2); simpl;
    [split; [discriminate | reflexivity] | split; [discriminate | reflexivity] | reflexivity]))
    w4).
  destruct (map_m _ useful w4) as [[dates|e|] w5]; simpl in Hd; [| |exact Hd].
  2: { right. eapply Forall2_Exists; [exact Hu | | exact Hd].
       intros t u (_ & Hdate & _) Hr. unfold untranscodable. do 6 right. eauto. }
  simpl. apply transcoded_rows; assumption.
Qed.

(** ** The amount handed to Actual *)

(** X4. For a finite float [x = ± m * 2^e] the amount handed to Actual,
    [Decimal(x).quantize(Decimal("0.0001"))], has four fractional digits,
    [n * 10^-4], and lies within half of 0.0001 of the exact value of
    [x]; stated over integers for [e < 0], where [x] is
    [± m * 5^-e / 10^-e]. For [0 <= e] it is the exact value. *)
Theorem quantized_amount_within_half s m e d :
  quantized_amount (S754_finite s m e) = Some d →
  ∃ n, d = Finite n (-4)
       ∧ (e < 0 →
          2 * Z.abs (n * 10 ^ (- e) - cond_Zopp s (Z.pos m * 5 ^ (- e)) * 10 ^ 4)
          ≤ 10 ^ (- e))
       ∧ (0 ≤ e → n = cond_Zopp s (Z.pos m * 2 ^ e) * 10 ^ 4).
Proof.
  unfold quantized_amount, from_float, quantize, rescale. intros H.
  destruct (Z.leb_spec 0 e) as [He|He].
  - simpl in H. destruct (Z.abs _ <? 10 ^ 28); [|discriminate]. inversion H; subst d.
    eexists. split; [reflexivity|]. split; [lia | intros _; reflexivity].
  - destruct (Z.leb_spec (-4) e) as [H4|H4].
    + destruct (Z.abs _ <? 10 ^ 28); [|discriminate]. inversion H; subst d.
      eexists. split; [reflexivity|]. split; [|lia]. intros _.
      rewrite <- Z.mul_assoc, <- Z.pow_add_r by lia.
      replace (e - -4 + - e) with 4 by lia. rewrite Z.sub_diag. simpl. lia.
    + destruct (Z.abs _ <? 10 ^ 28); [|discriminate]. inversion H; subst d.
      eexists. split; [reflexivity|]. split; [|lia]. intros _.
      set (c := cond_Zopp s (Z.pos m * 5 ^ (- e))).
      set (b := 10 ^ (-4 - e)).
      assert (Hb : 0 < b) by (apply Z.pow_pos_nonneg; lia).
      pose proof (round_half_even_nearest c b Hb) as Hn.
      assert (Hpow : 10 ^ (- e) = b * 10 ^ 4).
      { unfold b. rewrite <- Z.pow_add_r by lia. f_equal. lia. }
      rewrite Hpow.
      replace (round_half_even c b * (b * 10 ^ 4) - c * 10 ^ 4)
        with ((round_half_even c b * b - c) * 10 ^ 4) by ring.
      rewrite Z.abs_mul. change (Z.abs (10 ^ 4)) with (10 ^ 4). nia.
Qed.

Lemma quantized_amount_within_half_witness :
  ∃ n, Finite 20100 (-4) = Finite n (-4)
       ∧ (-51 < 0 →
          2 * Z.abs (n * 10 ^ 51 - Z.pos 0x10147ae147ae14 * 5 ^ 51 * 10 ^ 4) ≤ 10 ^ 51)
       ∧ (0 ≤ -51 → n = Z.pos 0x10147ae147ae14 * 2 ^ (-51) * 10 ^ 4).
Proof.
  apply (quantized_amount_within_half false 0x10147ae147ae14 (-51) (Finite 20100 (-4))).
  vm_compute. reflexivity.
Defined.

(** ** A page request that fails *)

Lemma get_all_akahu_pages_request_fails env fuel account start next cursor_param res total w :
  fault env (calls w) = true →
  ∃ w', get_all_akahu_pages env (S fuel) account start next cursor_param res total w
        = (Raise (RuntimeError "Failed to fetch Akahu transactions"), w')
        ∧ calls w' = S (calls w)
        ∧ page_requests account (trace w') = S (page_requests account (trace w))
        ∧ last (trace w') = Some (Log ERROR (Text "Failed to fetch transactions from Akahu")).
Proof.
  intros Hf. simpl. rewrite bind_unfold. unfold try_except. rewrite bind_unfold.
  unfold external. rewrite Hf. simpl. eexists. split; [reflexivity|]. simpl.
  split; [reflexivity|]. split.
  - rewrite !page_requests_app. unfold page_requests at 2 3. simpl.
    rewrite String.eqb_refl. simpl. lia.
  - rewrite last_snoc. reflexivity.
Qed.

Lemma get_all_akahu_pages_fails env account start pages :
  ∀ param, feed_pages env account start param pages →
  ∀ k fuel next cursor_param res total w,
    (if String.eqb next "first time" then cursor_param else Some next) = param →
    (k < length pages)%nat → (k < fuel)%nat →
    (∀ j, (calls w ≤ j < calls w + k)%nat → fault env j = false) →
    fault env (calls w + k) = true →
    ∃ w', get_all_akahu_pages env fuel account start next cursor_param res total w
          = (Raise (RuntimeError "Failed to fetch Akahu transactions"), w')
          ∧ calls w' = (calls w + S k)%nat
          ∧ page_requests account (trace w')
            = (page_requests account (trace w) + S k)%nat
          ∧ last (trace w') = Some (Log ERROR (Text "Failed to fetch transactions from Akahu")).
Proof.
  intros param Hfeed.
  induction Hfeed as [param Hlast | param nx pages Hitems Hcursor Hfeed IH];
    intros k fuel next cursor_param res total w Hparam Hk Hfuel Hok Hbad.
  - simpl in Hk. assert (k = 0%nat) by lia. subst k. rewrite Nat.add_0_r in Hbad.
    destruct fuel as [|fuel]; [lia|].
    destruct (get_all_akahu_pages_request_fails env fuel account start next cursor_param
                res total w Hbad) as (w' & E & Hc & Hr & Hl).
    exists w'. rewrite E, Hc, Hr. repeat split; [lia | lia | exact Hl].
  - destruct fuel as [|fuel]; [lia|]. destruct k as [|k].
    + rewrite Nat.add_0_r in Hbad.
      destruct (get_all_akahu_pages_request_fails env fuel account start next cursor_param
                  res total w Hbad) as (w' & E & Hc & Hr & Hl).
      exists w'. rewrite E, Hc, Hr. repeat split; [lia | lia | exact Hl].
    + simpl get_all_akahu_pages.
      rewrite Hparam. rewrite bind_unfold. unfold try_except. rewrite bind_unfold.
      unfold external. rewrite (Hok (calls w)) by lia. simpl.
      set (p := akahu_page env account start param) in *.
      set (w1 := count_call _).
      rewrite bind_unfold. rewrite Hcursor.
      destruct (items p) as [|t ts] eqn:Ep; [congruence|]. simpl.
      destruct (IH k fuel nx param
                  (Some (match res with
                         | Some r => r ++ t :: ts
                         | None => t :: ts
                         end)) (total + S (length ts))%nat w1) as (w' & E & Hc & Hr & Hl).
      * reflexivity.
      * simpl in Hk. lia.
      * lia.
      * intros j Hj. apply Hok. subst w1. simpl in *. lia.
      * subst w1. simpl. rewrite Nat.add_succ_r in Hbad. exact Hbad.
      * exists w'. rewrite E. split; [reflexivity|].
        split; [rewrite Hc; subst w1; simpl; lia|]. split; [|exact Hl].
        rewrite Hr. subst w1. simpl. rewrite page_requests_app. unfold page_requests at 2.
        simpl. rewrite String.eqb_refl. simpl. lia.
Qed.

(** X5. When the request for a page of a feed fails, after [k] pages
    that were read, [get_all_akahu] does not return what it has read: it
    logs the failure and raises the [RuntimeError] of a failed fetch,
    after [k + 1] requests. *)
Theorem get_all_akahu_failed_request env fuel account last_reconciled_at start pages k w :
  start_of env last_reconciled_at = Some start →
  feed_pages env account start None pages →
  (k < length pages)%nat → (k < fuel)%nat →
  (∀ j, (calls w ≤ j < calls w + k)%nat → fault env j = false) →
  fault env (calls w + k) = true →
  (get_all_akahu env fuel account last_reconciled_at w).1
  = Raise (RuntimeError "Failed to fetch Akahu transactions")
  ∧ page_requests account (trace (get_all_akahu env fuel account last_reconciled_at w).2)
    = (page_requests account (trace w) + S k)%nat
  ∧ last (trace (get_all_akahu env fuel account last_reconciled_at w).2)
    = Some (Log ERROR (Text "Failed to fetch transactions from Akahu")).
Proof.
  intros Hstart Hfeed Hk Hfuel Hok Hbad.
  destruct (get_all_akahu_pages_fails env account start pages None Hfeed k fuel
              "first time" None None 0%nat w eq_refl Hk Hfuel Hok Hbad)
    as (w' & E & _ & Hr & Hl).
  unfold get_all_akahu. rewrite bind_unfold.
  assert (Hs : (if truthy_str last_reconciled_at
                then of_option (week_before env (default "" last_reconciled_at)) ValueError
                else ret "2025-05-05T00:00:00Z") w = (Ret start, w)).
  { unfold start_of in Hstart. destruct (truthy_str last_reconciled_at).
    - rewrite Hstart. reflexivity.
    - inversion Hstart. reflexivity. }
  rewrite Hs. rewrite bind_unfold, E. simpl. auto.
Qed.

Lemma get_all_akahu_failed_request_witness :
  (get_all_akahu (sample.env_failing 1) 2 "acc_1" None (sample.world [])).1
  = Raise (RuntimeError "Failed to fetch Akahu transactions")
  ∧ page_requests "acc_1"
      (trace (get_all_akahu (sample.env_failing 1) 2 "acc_1" None (sample.world [])).2)
    = 2%nat.
Proof.
  destruct (get_all_akahu_failed_request (sample.env_failing 1) 2 "acc_1" None
              "2025-05-05T00:00:00Z"
              [sample.page "acc_1" "2025-05-05T00:00:00Z" None;
               sample.page "acc_1" "2025-05-05T00:00:00Z" (Some "page-2")]
              1 (sample.world [])) as (Hres & Hreq & _).
  - reflexivity.
  - apply feed_next with (next := "page-2"); [discriminate | reflexivity |].
    apply (feed_last (sample.env_failing 1) "acc_1" "2025-05-05T00:00:00Z" (Some "page-2")).
    right. left. reflexivity.
  - simpl. lia.
  - lia.
  - intros j Hj. simpl in Hj. assert (j = 0%nat) by lia. subst j. reflexivity.
  - reflexivity.
  - split; [exact Hres | exact Hreq].
Defined.

(** ** The batch update of the timestamps *)

Lemma stamped_lookup dnm stamp t (ids : gset string) (m : gmap string MappingEntry) i :
  stamped dnm stamp t ids m !! i = stamp_for (Some ids) dnm (stamp t) i <$> m !! i.
Proof.
  unfold stamped, stamp_for.
  pose (P := λ (r : gmap string MappingEntry) (X : gset string),
              r !! i = (λ e, if bool_decide (i ∈ X) && negb (truthy_flag (dnm e))
                             then stamp t e else e) <$> m !! i).
  change (P (set_fold (stamp_synced dnm (stamp t)) m ids) ids).
  apply (set_fold_ind_L P); unfold P; clear P.
  - rewrite bool_decide_eq_false_2 by set_solver. simpl. destruct (m !! i); reflexivity.
  - intros x X r Hx IH. unfold stamp_synced.
    destruct (decide (x = i)) as [->|Hne].
    + rewrite bool_decide_eq_false_2 in IH by exact Hx. simpl in IH.
      rewrite bool_decide_eq_true_2 by set_solver. simpl.
      assert (Hr : r !! i = m !! i) by (rewrite IH; destruct (m !! i); reflexivity).
      rewrite Hr. destruct (m !! i) as [e|] eqn:Em; simpl.
      * destruct (truthy_flag (dnm e)); simpl; [congruence|].
        apply lookup_insert_eq.
      * congruence.
    + assert (Hrew : bool_decide (i ∈ {[x]} ∪ X) = bool_decide (i ∈ X)).
      { apply bool_decide_ext. set_solver. }
      rewrite Hrew, <- IH.
      destruct (r !! x) as [e|]; [|reflexivity].
      destruct (truthy_flag (dnm e)); [reflexivity|].
      apply lookup_insert_ne. exact Hne.
Qed.

(** X6. [update_mapping_timestamps], when it returns, has written a
    mapping with the keys of the one it read, in which the entry of an
    account is the entry read, but for the timestamp of a destination,
    set to the time of the update when the account is among the ids given
    for that destination and the entry does not carry the do-not-map flag
    of that destination. An id that the file does not hold adds no entry.
    When it does not return, the file is as it was. *)
Theorem update_mapping_timestamps_effect env ab ynab_ids w i :
  let r := update_mapping_timestamps env ab ynab_ids w in
  let t := utc_stamp env (clock w) in
  match r.1 with
  | Ret _ =>
      mapping_file r.2 !! i
      = stamp_for ynab_ids ynab_do_not_map (set_ynab_synced_datetime t) i
        <$> (stamp_for ab actual_do_not_map (set_actual_synced_datetime t) i
             <$> mapping_file w !! i)
  | _ => mapping_file r.2 = mapping_file w
  end.
Proof.
  intros r t. subst r t.
  pose proof (update_mapping_timestamps_run env ab ynab_ids w) as [_ H].
  destruct (update_mapping_timestamps env ab ynab_ids w) as [[[]|e|] w1]; simpl in *;
    [|exact H..].
  rewrite H. destruct ab as [a|], ynab_ids as [y|]; rewrite ?stamped_lookup;
    unfold stamp_for at 1; simpl; destruct (mapping_file w !! i); reflexivity.
Qed.

(** ** The accounts whose timestamp a pass advances *)

(** What the reader returns starts with the page it asks for first. *)
Lemma get_all_akahu_pages_prefix env i start fuel :
  ∀ next param res total,
    returns
      (λ fetched,
         ∃ more,
           fetched.1
           = default [] res
             ++ items (akahu_page env i start
                         (if String.eqb next "first time" then param else Some next))
             ++ more)
      (get_all_akahu_pages env fuel i start next param res total).
Proof.
  induction fuel as [|fuel IH]; intros next param res total; simpl; [apply returns_spin|].
  set (param' := if String.eqb next "first time" then param else Some next).
  eapply (returns_bind_with (λ p, p = akahu_page env i start param')).
  - apply returns_try_except.
    + apply returns_bind. intros _. apply returns_ret. reflexivity.
    + intros ex. destruct ex; try apply returns_raise.
      apply returns_bind. intros _. apply returns_raise.
  - intros p ->. set (p := akahu_page env i start param').
    assert (Hres : match res with
                   | Some r => r ++ items p
                   | None => items p
                   end = default [] res ++ items p) by (destruct res; reflexivity).
    rewrite Hres.
    apply returns_bind. intros [nx|].
    + eapply returns_weaken; [|apply IH]. simpl. intros fetched [more ->].
      eexists. rewrite <- !app_assoc. reflexivity.
    + apply returns_ret. exists []. simpl. rewrite app_nil_r. reflexivity.
Qed.

Lemma get_all_akahu_nonempty env fuel i last start :
  start_of env last = Some start → items (akahu_page env i start None) ≠ [] →
  returns (λ df, df ≠ []) (get_all_akahu env fuel i last).
Proof.
  intros Hstart Hnews. unfold get_all_akahu.
  eapply (returns_bind_with (λ s, s = start)).
  { unfold start_of in Hstart. destruct (truthy_str last).
    - rewrite Hstart. apply returns_ret. reflexivity.
    - apply returns_ret. congruence. }
  intros ? ->.
  eapply returns_bind_with; [apply get_all_akahu_pages_prefix|].
  intros fetched [more Hf]. apply returns_bind. intros _. apply returns_ret.
  rewrite Hf. simpl.
  destruct (items (akahu_page env i start None)); [congruence | discriminate].
Qed.

Lemma get_akahu_balance_returns env i :
  returns (λ b, b = akahu_account_balance env i) (get_akahu_balance env i).
Proof. unfold get_akahu_balance. apply returns_bind. intros _. apply returns_ret. reflexivity. Qed.

(** A turn takes no account out of the set. *)
Lemma sync_to_ab_account_keeps env fuel dbg item acc :
  returns (λ acc', acc.1 ⊆ acc'.1) (sync_to_ab_account env fuel dbg item acc).
Proof. unfold sync_to_ab_account. returns_tac. Qed.

Lemma sync_to_ynab_account_keeps env fuel dbg item acc :
  returns (λ acc', acc.1 ⊆ acc'.1) (sync_to_ynab_account env fuel dbg item acc).
Proof. unfold sync_to_ynab_account. returns_tac. Qed.

(** The turn of an account that the pass has something to do for, when it
    returns, has put the account in the set. *)
Lemma news_ab_turn env fuel dbg i e acc :
  has_news env i e (actual_synced_datetime e) →
  truthy_flag (actual_do_not_map e) = false →
  truthy_str (actual_budget_id e) && truthy_str (actual_account_id e) = true →
  returns (λ acc', i ∈ acc'.1) (sync_to_ab_account env fuel dbg (i, e) acc).
Proof.
  intros Hnews Hflag Hids. unfold sync_to_ab_account, has_news in *. simpl.
  rewrite Hflag, Hids. simpl.
  apply returns_bind. intros _. apply returns_bind. intros _.
  destruct (String.eqb (default "On Budget" (account_type e)) "Tracking").
  - eapply returns_bind_with; [apply get_akahu_balance_returns|].
    intros b ->. destruct (akahu_account_balance env i); [|congruence].
    returns_tac.
  - destruct Hnews as [-> (start & Hstart & Hnews)]. simpl.
    eapply returns_bind_with; [eapply get_all_akahu_nonempty; [exact Hstart | exact Hnews]|].
    intros [|t df] Hdf; [congruence|]. simpl. returns_tac.
Qed.

Lemma news_ynab_turn env fuel dbg i e acc :
  has_news env i e (ynab_synced_datetime e) →
  truthy_flag (ynab_do_not_map e) = false →
  truthy_str (ynab_budget_id e) && truthy_str (ynab_account_id e) = true →
  returns (λ acc', i ∈ acc'.1) (sync_to_ynab_account env fuel dbg (i, e) acc).
Proof.
  intros Hnews Hflag Hids. unfold sync_to_ynab_account, has_news in *. simpl.
  rewrite Hflag, Hids. simpl.
  apply returns_bind. intros _. apply returns_bind. intros _.
  destruct (String.eqb (default "On Budget" (account_type e)) "Tracking").
  - returns_tac.
  - destruct Hnews as [-> (start & Hstart & Hnews)]. simpl.
    eapply returns_bind_with; [eapply get_all_akahu_nonempty; [exact Hstart | exact Hnews]|].
    intros [|t df] Hdf; [congruence|]. simpl. returns_tac.
Qed.

Lemma for_each_puts_in (body : string * MappingEntry → gset string * Z → M (gset string * Z))
    l i e :
  (∀ item acc, returns (λ acc', acc.1 ⊆ acc'.1) (body item acc)) →
  (∀ acc, returns (λ acc', i ∈ acc'.1) (body (i, e) acc)) →
  (i, e) ∈ l →
  ∀ acc w done w', for_each l body acc w = (Ret done, w') → i ∈ done.1.
Proof.
  intros Hkeeps Hown. induction l as [|item l IH]; intros Hin acc w done w' E.
  - inversion Hin.
  - simpl in E. apply bind_ret_inv in E as (acc1 & w1 & E1 & E).
    apply elem_of_cons in Hin as [<-|Hin].
    + pose proof (Hown _ _ _ _ E1) as Hi. clear IH.
      clear E1. revert acc1 w1 E Hi. induction l as [|item l IH]; intros acc1 w1 E Hi.
      * inversion E; subst. exact Hi.
      * simpl in E. apply bind_ret_inv in E as (acc2 & w2 & E2 & E).
        apply (IH acc2 w2 E). apply (Hkeeps _ _ _ _ _ E2), Hi.
    + apply (IH Hin acc1 w1 done w' E).
Qed.

Lemma elem_of_priority_order_2 (l : list (string * MappingEntry)) item :
  item ∈ l → item ∈ priority_order l.
Proof.
  unfold priority_order. rewrite elem_of_app, !list_elem_of_filter.
  destruct (on_budget item); intros; [left | right]; split; auto.
Qed.

Lemma pass_stamps env loop persist w r i
    (stamp_of : World → option MappingEntry → option MappingEntry) :
  PassRun env loop persist w r →
  (∀ l, preserves (quiet nothing) (loop l)) →
  (∀ w1 done w2, loop (priority_order (mapping_list w)) w1 = (Ret done, w2) → i ∈ done.1) →
  (∀ done w3 n, (persist done w3).1 = Ret n → i ∈ done.1 →
                mapping_file (persist done w3).2 !! i = stamp_of w3 (mapping_file w3 !! i)) →
  ∀ n, r.1 = Ret n → ∃ w3, mapping_file r.2 !! i = stamp_of w3 (mapping_file w !! i).
Proof.
  intros Hrun Hloop Hin Hpersist n Hn.
  destruct Hrun as [Hno _ | w1 _ _ Hno _ | w1 done w2 _ _ Hno _ | w1 done w2 w3 Hq El Hq2 ->];
    try (destruct (Hno n Hn)).
  pose proof (quiet_same_file _ _ _ (Hloop (priority_order (mapping_list w)) w1)) as H2.
  rewrite El in H2. simpl in H2.
  exists w3. rewrite (Hpersist done w3 n Hn (Hin _ _ _ El)).
  rewrite (quiet_same_file _ _ _ (Hq2 nothing eq_refl)), H2.
  rewrite (quiet_same_file _ _ _ (Hq nothing eq_refl)). reflexivity.
Qed.

(** X7. An account that a pass has something to do for (a Tracking
    account whose balance Akahu reports, an On-Budget account for which
    the feed, in the window of this pass, that is from a week before the
    timestamp of the account for the destination, has a transaction on its
    first page), that is not flagged and has its ids: when the pass
    returns, the persisted entry of the account is the one of before the
    pass with the timestamp of the destination set to a reading of the
    clock, and nothing else changed. *)
Theorem watermark_advances env fuel dbg w i e e0 :
  (i, e) ∈ mapping_list w → mapping_file w !! i = Some e0 →
  (has_news env i e (actual_synced_datetime e) →
   truthy_flag (actual_do_not_map e) = false →
   truthy_str (actual_budget_id e) && truthy_str (actual_account_id e) = true →
   truthy_flag (actual_do_not_map e0) = false →
   ∀ n, (sync_to_ab env fuel dbg w).1 = Ret n →
        ∃ c, mapping_file (sync_to_ab env fuel dbg w).2 !! i
             = Some (set_actual_synced_datetime (utc_stamp env c) e0))
  ∧ (has_news env i e (ynab_synced_datetime e) →
     truthy_flag (ynab_do_not_map e) = false →
     truthy_str (ynab_budget_id e) && truthy_str (ynab_account_id e) = true →
     truthy_flag (ynab_do_not_map e0) = false →
     ∀ n, (sync_to_ynab env fuel dbg w).1 = Ret n →
          ∃ c, mapping_file (sync_to_ynab env fuel dbg w).2 !! i
               = Some (set_ynab_synced_datetime (utc_stamp env c) e0)).
Proof.
  intros Hie He0. split; intros Hnews Hflag Hids Hflag0 n Hn.
  - destruct (pass_stamps env _ _ w _ i
                (λ w3 o, stamp_for (Some {[i]}) actual_do_not_map
                           (set_actual_synced_datetime (utc_stamp env (clock w3))) i <$> o)
                (sync_to_ab_run env fuel dbg w)) with (n := n) as [w3 H].
    + intros l. apply quiet_sync_to_ab_accounts; [reflexivity|]. intros; split; reflexivity.
    + intros w1 done w2. apply (for_each_puts_in _ _ i e).
      * intros. apply sync_to_ab_account_keeps.
      * intros. apply news_ab_turn; assumption.
      * apply elem_of_priority_order_2, Hie.
    + intros done w3 n' Hn' Hi. pose proof (persist_ab_run env done w3) as [_ H].
      rewrite Hn' in H. destruct H as [_ ->]. rewrite stamped_lookup.
      unfold stamp_for. rewrite !bool_decide_eq_true_2 by set_solver. reflexivity.
    + exact Hn.
    + exists (clock w3). rewrite H, He0. simpl. unfold stamp_for.
      rewrite bool_decide_eq_true_2 by set_solver. rewrite Hflag0. reflexivity.
  - destruct (pass_stamps env _ _ w _ i
                (λ w3 o, stamp_for (Some {[i]}) ynab_do_not_map
                           (set_ynab_synced_datetime (utc_stamp env (clock w3))) i <$> o)
                (sync_to_ynab_run env fuel dbg w)) with (n := n) as [w3 H].
    + intros l. apply quiet_sync_to_ynab_accounts; [reflexivity|]. intros; split; reflexivity.
    + intros w1 done w2. apply (for_each_puts_in _ _ i e).
      * intros. apply sync_to_ynab_account_keeps.
      * intros. apply news_ynab_turn; assumption.
      * apply elem_of_priority_order_2, Hie.
    + intros done w3 n' Hn' Hi. pose proof (persist_ynab_run env done w3) as [_ H].
      rewrite Hn' in H. destruct H as [_ ->]. rewrite stamped_lookup.
      unfold stamp_for. rewrite !bool_decide_eq_true_2 by set_solver. reflexivity.
    + exact Hn.
    + exists (clock w3). rewrite H, He0. simpl. unfold stamp_for.
      rewrite bool_decide_eq_true_2 by set_solver. rewrite Hflag0. reflexivity.
Qed.

Lemma watermark_advances_witness :
  let e1 := sample.entry None (Some "actual-1") (Some "ynab-1") None None in
  let w := sample.world [("acc_1", e1)] in
  (sync_to_ab sample.env 5 None w).1 = Ret 2
  ∧ ∃ c, mapping_file (sync_to_ab sample.env 5 None w).2 !! "acc_1"
         = Some (set_actual_synced_datetime (utc_stamp sample.env c) e1).
Proof.
  intros e1 w.
  destruct (watermark_advances sample.env 5 None w "acc_1" e1 e1) as [Hab _].
  - set_solver.
  - reflexivity.
  - split; [vm_compute; reflexivity|]. apply (Hab ltac:(
      split; [reflexivity|]; exists "2025-04-28T00:00:00Z"; split; [reflexivity | discriminate])
      eq_refl eq_refl eq_refl 2).
    vm_compute. reflexivity.
Defined.

(** ** What a computation stays away from *)

#[global] Instance within_refl f : Reflexive (within f).
Proof. intros w. split; [exists []; rewrite app_nil_r; auto|]. auto. Qed.

#[global] Instance within_trans f : Transitive (within f).
Proof.
  intros w1 w2 w3 ((ev1 & Ht1 & Hp1) & Ha1 & Hy1 & Hf1 & Hl1)
    ((ev2 & Ht2 & Hp2) & Ha2 & Hy2 & Hf2 & Hl2).
  split; [|repeat split; intros H; [rewrite Ha2, Ha1 | rewrite Hy2, Hy1
                                    | rewrite Hf2, Hf1 | rewrite Hl2, Hl1]; auto].
  exists (ev1 ++ ev2). rewrite Ht2, Ht1, app_assoc. split; [reflexivity|].
  apply Forall_app; auto.
Qed.

Lemma within_add_event f e w : may_call f (kind e) = true → within f w (add_event e w).
Proof. intros H. split; [exists [e]; auto|]. auto. Qed.

Lemma within_silent f w w' :
  trace w' = trace w →
  (may_touch_actual f = false → actual w' = actual w) →
  (may_touch_ynab f = false → ynab w' = ynab w) →
  (may_touch_file f = false → mapping_file w' = mapping_file w) →
  (may_touch_list f = false → mapping_list w' = mapping_list w) →
  within f w w'.
Proof. intros Ht. split; [exists []; rewrite app_nil_r; auto|]. auto. Qed.

Lemma within_log f l m : may_call f LogLine = true → preserves (within f) (log l m).
Proof. intros H w. apply within_add_event, H. Qed.

Lemma within_external env f c e :
  may_call f (kind (Request c)) = true → preserves (within f) (external env c e).
Proof.
  intros H w. unfold external. destruct (fault env (calls w)); simpl;
    (etransitivity; [apply within_add_event, H | apply within_silent; auto]).
Qed.

Lemma within_now f : preserves (within f) now.
Proof. intros w. apply within_silent; auto. Qed.

Lemma within_set_actual f g :
  may_touch_actual f = true → preserves (within f) (modify (set_actual g)).
Proof. intros H w. apply within_silent; simpl; auto. congruence. Qed.

Lemma within_set_ynab f g :
  may_touch_ynab f = true → preserves (within f) (modify (set_ynab g)).
Proof. intros H w. apply within_silent; simpl; auto. congruence. Qed.

Lemma within_set_mapping_file f m :
  may_touch_file f = true → preserves (within f) (modify (set_mapping_file m)).
Proof. intros H w. apply within_silent; simpl; auto. congruence. Qed.

Lemma within_set_mapping_list f g :
  may_touch_list f = true → preserves (within f) (modify (set_mapping_list g)).
Proof. intros H w. apply within_silent; simpl; auto. congruence. Qed.

Section WithinStructure.

Context (f : Footprint).

Lemma within_bind {A B} (m : M A) (k : A → M B) :
  preserves (within f) m → (∀ a, preserves (within f) (k a)) → preserves (within f) (bind m k).
Proof. apply preserves_bind; apply _. Qed.

Lemma within_try_except {A} (m : M A) (h : Exn → M A) :
  preserves (within f) m → (∀ e, preserves (within f) (h e)) →
  preserves (within f) (try_except m h).
Proof. apply preserves_try_except; apply _. Qed.

Lemma within_for_each {A S} (l : list A) (body : A → S → M S) (acc : S) :
  (∀ x s, x ∈ l → preserves (within f) (body x s)) →
  preserves (within f) (for_each l body acc).
Proof. apply preserves_for_each; apply _. Qed.

Lemma within_map_m {A B} (g : A → M B) (l : list A) :
  (∀ x, x ∈ l → preserves (within f) (g x)) → preserves (within f) (map_m g l).
Proof. apply preserves_map_m; apply _. Qed.

Lemma within_ret {A} (a : A) : preserves (within f) (ret a).
Proof. apply preserves_ret; apply _. Qed.

Lemma within_raise {A} (e : Exn) : preserves (within f) (@raise A e).
Proof. apply preserves_raise; apply _. Qed.

Lemma within_spin {A} : preserves (within f) (@spin A).
Proof. apply preserves_spin; apply _. Qed.

Lemma within_get_world : preserves (within f) get_world.
Proof. apply preserves_get_world; apply _. Qed.

Lemma within_of_option {A} (o : option A) (e : Exn) : preserves (within f) (of_option o e).
Proof. apply preserves_of_option; apply _. Qed.

End WithinStructure.

(** A permission of a footprint: one that is assumed, or one that a
    given footprint grants. *)
Ltac within_side :=
  solve [ assumption
        | reflexivity
        | match goal with
          | H : ∀ op, session_op op = true → _ |- _ => apply H; reflexivity
          end
        | let op := fresh "op" in
          intros op; destruct op; simpl; intros; first [reflexivity | discriminate] ].

Ltac within_step :=
  lazymatch goal with
  | |- preserves _ (bind _ _) => apply within_bind; [|intros ?]
  | |- preserves _ (try_except _ _) => apply within_try_except; [|intros ?]
  | |- preserves _ (ret _) => apply within_ret
  | |- preserves _ (raise _) => apply within_raise
  | |- preserves _ spin => apply within_spin
  | |- preserves _ get_world => apply within_get_world
  | |- preserves _ (of_option _ _) => apply within_of_option
  | |- preserves _ (getitem _ _) => unfold getitem
  | |- preserves _ now => apply within_now
  | |- preserves _ (log _ _) => apply within_log
  | |- preserves _ (external _ _ _) => apply within_external; simpl
  | |- preserves _ (actual_call _ _) => apply within_external; simpl
  | |- preserves _ (modify (set_actual _)) => apply within_set_actual
  | |- preserves _ (modify (set_ynab _)) => apply within_set_ynab
  | |- preserves _ (modify (set_mapping_file _)) => apply within_set_mapping_file
  | |- preserves _ (modify (set_mapping_list _)) => apply within_set_mapping_list
  | |- preserves _ (for_each _ _ _) => apply within_for_each; intros ? ? ?
  | |- preserves _ (map_m _ _) => apply within_map_m; intros ? ?
  | |- preserves _ (if ?b then _ else _) => destruct b
  | |- preserves _ (match ?x with _ => _ end) => destruct x
  | |- preserves _ (let _ := _ in _) => cbv zeta
  end.

Create HintDb within.

#[global] Hint Extern 1 (may_call _ _ = true) => within_side : within.
#[global] Hint Extern 1 (may_touch_actual _ = true) => within_side : within.
#[global] Hint Extern 1 (may_touch_ynab _ = true) => within_side : within.
#[global] Hint Extern 1 (may_touch_file _ = true) => within_side : within.
#[global] Hint Extern 1 (may_touch_list _ = true) => within_side : within.

Ltac within_tac :=
  repeat first
    [ progress within_step
    | within_side
    | solve [eauto with within] ].

Section Within.

Context (env : Env) (f : Footprint).
Context (Hlog : may_call f LogLine = true).
Context (Hakahu : may_call f AkahuRead = true).
Context (Hynab : may_call f YnabCall = true).
Context (Hops : ∀ op, session_op op = true → may_call f (ActualOpCall op) = true).
Context (Hread : may_call f FileRead = true).
Context (Hwrite : may_call f FileWrite = true).
Context (Hta : may_touch_actual f = true).
Context (Hty : may_touch_ynab f = true).
Context (Htf : may_touch_file f = true).
Context (Htl : may_touch_list f = true).

Lemma within_entry_of key : preserves (within f) (entry_of key).
Proof. unfold entry_of. within_tac. Qed.

Lemma within_get_akahu_balance i : preserves (within f) (get_akahu_balance env i).
Proof. unfold get_akahu_balance. within_tac. Qed.

Lemma within_get_ynab_balance b a : preserves (within f) (get_ynab_balance env b a).
Proof. unfold get_ynab_balance. within_tac. Qed.

Lemma within_get_actual_balance a : preserves (within f) (get_actual_balance env a).
Proof. unfold get_actual_balance. within_tac. Qed.

Lemma within_load_existing_mapping : preserves (within f) (load_existing_mapping env).
Proof. unfold load_existing_mapping. within_tac. Qed.

Lemma within_save_mapping m : preserves (within f) (save_mapping env m).
Proof. unfold save_mapping. within_tac. Qed.

Lemma within_create_transaction d a p n c x i cl ip :
  preserves (within f) (create_transaction env d a p n c x i cl ip).
Proof. unfold create_transaction. within_tac. Qed.

Lemma within_match_transaction d a p x i am :
  preserves (within f) (match_transaction env d a p x i am).
Proof. unfold match_transaction. within_tac. Qed.

Lemma within_reconcile_transaction d a p n x i cl ip am :
  preserves (within f) (reconcile_transaction env d a p n x i cl ip am).
Proof.
  unfold reconcile_transaction.
  pose proof within_match_transaction. pose proof within_create_transaction. within_tac.
Qed.

Lemma within_ruleset_run rs r : preserves (within f) (ruleset_run rs r).
Proof. unfold ruleset_run. within_tac. Qed.

Lemma within_commit : preserves (within f) (commit env).
Proof. unfold commit. within_tac. Qed.

Lemma within_ynab_post_transactions b l : preserves (within f) (ynab_post_transactions env b l).
Proof. unfold ynab_post_transactions. within_tac. Qed.

Lemma within_ynab_post_transaction b t : preserves (within f) (ynab_post_transaction env b t).
Proof. unfold ynab_post_transaction. within_tac. Qed.

Lemma within_get_cached_names : preserves (within f) (get_cached_names env).
Proof. unfold get_cached_names. within_tac. Qed.

Lemma within_log_balance_comparison s x d y c :
  preserves (within f) (log_balance_comparison env s x d y c).
Proof. unfold log_balance_comparison. within_tac. Qed.

Lemma within_get_all_akahu_pages fuel i start next param res total :
  preserves (within f) (get_all_akahu_pages env fuel i start next param res total).
Proof.
  revert next param res total.
  induction fuel as [|fuel IH]; intros; simpl; within_tac.
Qed.

Lemma within_get_all_akahu fuel i last : preserves (within f) (get_all_akahu env fuel i last).
Proof. unfold get_all_akahu. pose proof (within_get_all_akahu_pages fuel i). within_tac. Qed.

Lemma within_convert_to_nzt d : preserves (within f) (convert_to_nzt env d).
Proof. unfold convert_to_nzt. within_tac. Qed.

Lemma within_get_ruleset_or_abort : preserves (within f) (get_ruleset_or_abort env).
Proof. unfold get_ruleset_or_abort. within_tac. Qed.

Lemma within_load_one_into_actual a rs dbg t im :
  preserves (within f) (load_one_into_actual env a rs dbg t im).
Proof.
  unfold load_one_into_actual.
  pose proof within_convert_to_nzt. pose proof within_match_transaction.
  pose proof within_create_transaction. pose proof within_reconcile_transaction.
  pose proof within_ruleset_run. within_tac.
Qed.

Lemma within_load_transactions_into_actual l key dbg :
  preserves (within f) (load_transactions_into_actual env l key dbg).
Proof.
  unfold load_transactions_into_actual.
  pose proof within_entry_of. pose proof within_get_cached_names.
  pose proof within_get_ruleset_or_abort. pose proof within_load_one_into_actual.
  pose proof within_commit. within_tac.
Qed.

Lemma within_handle_tracking_account_actual key :
  preserves (within f) (handle_tracking_account_actual env key).
Proof.
  unfold handle_tracking_account_actual.
  pose proof within_entry_of. pose proof within_get_actual_balance.
  pose proof within_log_balance_comparison. pose proof within_create_transaction.
  pose proof within_commit. within_tac.
Qed.

Lemma within_get_payee_name row : preserves (within f) (get_payee_name row).
Proof. unfold get_payee_name. within_tac. Qed.

Lemma within_clean_txn_for_ynab l a : preserves (within f) (clean_txn_for_ynab env l a).
Proof.
  unfold clean_txn_for_ynab. pose proof within_convert_to_nzt. pose proof within_get_payee_name.
  within_tac.
Qed.

Lemma within_load_transactions_into_ynab l b a dbg :
  preserves (within f) (load_transactions_into_ynab env l b a dbg).
Proof.
  unfold load_transactions_into_ynab. pose proof within_ynab_post_transactions. within_tac.
Qed.

Lemma within_create_adjustment_txn_ynab b a x y :
  preserves (within f) (create_adjustment_txn_ynab env b a x y).
Proof.
  unfold create_adjustment_txn_ynab. pose proof within_ynab_post_transaction. within_tac.
Qed.

Lemma within_get_account_priority item : preserves (within f) (get_account_priority item).
Proof. unfold get_account_priority. within_tac. Qed.

Lemma within_sorted l : preserves (within f) (sorted l get_account_priority).
Proof. unfold sorted. pose proof within_get_account_priority. within_tac. Qed.

Lemma within_update_mapping_timestamps ab yn :
  preserves (within f) (update_mapping_timestamps env ab yn).
Proof.
  unfold update_mapping_timestamps.
  pose proof within_load_existing_mapping. pose proof within_save_mapping. within_tac.
Qed.

Lemma within_sync_to_ab_account fuel dbg item acc :
  preserves (within f) (sync_to_ab_account env fuel dbg item acc).
Proof.
  unfold sync_to_ab_account.
  pose proof within_get_akahu_balance. pose proof within_handle_tracking_account_actual.
  pose proof within_get_all_akahu. pose proof within_load_transactions_into_actual.
  within_tac.
Qed.

Lemma within_sync_to_ynab_account fuel dbg item acc :
  preserves (within f) (sync_to_ynab_account env fuel dbg item acc).
Proof.
  unfold sync_to_ynab_account.
  pose proof within_get_akahu_balance. pose proof within_get_ynab_balance.
  pose proof within_log_balance_comparison. pose proof within_create_adjustment_txn_ynab.
  pose proof within_get_all_akahu. pose proof within_clean_txn_for_ynab.
  pose proof within_load_transactions_into_ynab. within_tac.
Qed.

Lemma within_sync_to_ynab fuel dbg : preserves (within f) (sync_to_ynab env fuel dbg).
Proof.
  unfold sync_to_ynab, sync_to_ynab_accounts.
  pose proof within_sorted. pose proof within_sync_to_ynab_account.
  pose proof within_update_mapping_timestamps. within_tac.
Qed.

Lemma within_sync_to_ab fuel dbg :
  (∀ op, may_call f (ActualOpCall op) = true) →
  preserves (within f) (sync_to_ab env fuel dbg).
Proof.
  intros Hall. unfold sync_to_ab, sync_to_ab_accounts.
  pose proof within_sorted. pose proof within_sync_to_ab_account.
  pose proof within_update_mapping_timestamps. pose proof within_commit. within_tac.
Qed.

End Within.

(** X8. The two passes keep apart. A pass to YNAB leaves the session of
    Actual as it is and sends nothing to Actual; a pass to Actual leaves
    the budgets of YNAB as they are and sends nothing to YNAB: whatever
    the outcome of the pass. *)
Theorem passes_keep_apart env fuel dbg w :
  (actual (sync_to_ynab env fuel dbg w).2 = actual w
   ∧ ∃ evs, trace (sync_to_ynab env fuel dbg w).2 = trace w ++ evs
            ∧ Forall (λ ev, ∀ op, kind ev ≠ ActualOpCall op) evs)
  ∧ (ynab (sync_to_ab env fuel dbg w).2 = ynab w
     ∧ ∃ evs, trace (sync_to_ab env fuel dbg w).2 = trace w ++ evs
              ∧ Forall (λ ev, kind ev ≠ YnabCall) evs).
Proof.
  split.
  - destruct (within_sync_to_ynab env away_from_actual) with (fuel := fuel) (dbg := dbg) (w := w)
      as ((evs & Ht & Hev) & Ha & _); try reflexivity.
    split; [apply Ha; reflexivity|]. exists evs. split; [exact Ht|].
    eapply Forall_impl; [exact Hev|]. simpl. intros ev Hk op Hop. rewrite Hop in Hk.
    discriminate.
  - destruct (within_sync_to_ab env away_from_ynab) with (fuel := fuel) (dbg := dbg) (w := w)
      as ((evs & Ht & Hev) & _ & Hy & _); try reflexivity; try (intros; reflexivity).
    split; [apply Hy; reflexivity|]. exists evs. split; [exact Ht|].
    eapply Forall_impl; [exact Hev|]. simpl. intros ev Hk Hop. rewrite Hop in Hk.
    discriminate.
Qed.

(** X9. [get_all_akahu] only reads: whatever its outcome, what it leaves
    in the trace are log lines and requests to Akahu, and the session of
    Actual, the budgets of YNAB, the mapping file and the mappings in
    memory are as they were. *)
Theorem get_all_akahu_reads_only env fuel account last_reconciled_at w :
  let w' := (get_all_akahu env fuel account last_reconciled_at w).2 in
  (∃ evs, trace w' = trace w ++ evs
          ∧ Forall (λ ev, kind ev = LogLine ∨ kind ev = AkahuRead) evs)
  ∧ actual w' = actual w ∧ ynab w' = ynab w
  ∧ mapping_file w' = mapping_file w ∧ mapping_list w' = mapping_list w.
Proof.
  intros w'. subst w'.
  destruct (within_get_all_akahu env fetching eq_refl eq_refl fuel account
              last_reconciled_at w) as ((evs & Ht & Hev) & Ha & Hy & Hf & Hl).
  split; [|repeat split; [apply Ha | apply Hy | apply Hf | apply Hl]; reflexivity].
  exists evs. split; [exact Ht|].
  eapply Forall_impl; [exact Hev|]. simpl. intros ev Hk.
  destruct (kind ev); try discriminate; auto.
Qed.

(** ** When a pass to Actual synchronises with the server *)

Lemma preserves_run {A} (R : World → World → Prop) (m : M A) w o w' :
  preserves R m → m w = (o, w') → R w w'.
Proof. intros H E. specialize (H w). rewrite E in H. exact H. Qed.

#[global] Instance grows_refl : Reflexive grows.
Proof. intros w. exists []. rewrite app_nil_r. reflexivity. Qed.

#[global] Instance grows_trans : Transitive grows.
Proof.
  intros w1 w2 w3 [ev1 H1] [ev2 H2]. exists (ev1 ++ ev2). rewrite H2, H1, app_assoc.
  reflexivity.
Qed.

Lemma within_grows f w w' : within f w w' → grows w w'.
Proof. intros ((evs & H & _) & _). exists evs. exact H. Qed.

Lemma grows_add_event e w : grows w (add_event e w).
Proof. exists [e]. reflexivity. Qed.

Lemma grows_elem_of w1 w2 w3 w4 e :
  grows w1 w2 → trace w3 = trace w2 ++ [e] → grows w3 w4 →
  ∃ evs, trace w4 = trace w1 ++ evs ∧ e ∈ evs.
Proof.
  intros [ev1 H1] H2 [ev3 H3]. exists (ev1 ++ [e] ++ ev3).
  rewrite H3, H2, H1, <- !app_assoc. split; [reflexivity|]. set_solver.
Qed.

Lemma within_not_elem_of f w w' e :
  within f w w' → may_call f (kind e) = false →
  ∃ evs, trace w' = trace w ++ evs ∧ e ∉ evs.
Proof.
  intros ((evs & H & Hall) & _) He. exists evs. split; [exact H|]. intros Hin.
  rewrite Forall_forall in Hall. rewrite (Hall e Hin) in He. discriminate.
Qed.

Lemma within_refresh env :
  preserves (within no_remote_sync)
    (if FORCE_REFRESH env then
       log INFO (Text "Force refresh requested") ;;;
       actual_call env DownloadBudget ;;;
       actual_call env Sync ;;;
       log INFO (Text "Budget refresh complete")
     else ret tt).
Proof. within_tac. Qed.

Lemma actual_call_ret env op w u w' :
  actual_call env op w = (Ret u, w') → trace w' = trace w ++ [Request (ActualCall op)].
Proof.
  unfold actual_call, external. destruct (fault env (calls w)); intros E; inversion E.
  reflexivity.
Qed.

Lemma commit_grows env w : grows w (commit env w).2.
Proof.
  eapply within_grows. apply (within_commit env no_remote_sync); within_side.
Qed.



(** ** A Tracking account without a balance *)

(** X11. A Tracking account for which Akahu reports no balance, not
    skipped, with requests that go through. In the pass to Actual its
    turn logs that the balance could not be had and returns with the
    accumulators as they were: the account is not recorded as synced and
    the pass goes on. In the pass to YNAB the turn raises, at the
    comparison of the balances ([decimal.Decimal(str(None))]), and the
    pass stops there. *)
Theorem tracking_without_balance env fuel dbg i e name acc rest w :
  account_type e = Some "Tracking" → akahu_name e = Some name →
  akahu_account_balance env i = None →
  (truthy_flag (actual_do_not_map e) = false →
   truthy_str (actual_budget_id e) && truthy_str (actual_account_id e) = true →
   fault env (calls w) = false →
   (sync_to_ab_account env fuel dbg (i, e) acc w).1 = Ret acc
   ∧ last (trace (sync_to_ab_account env fuel dbg (i, e) acc w).2)
     = Some (Log ERROR (NoBalanceForTracking name))
   ∧ for_each ((i, e) :: rest) (sync_to_ab_account env fuel dbg) acc w
     = for_each rest (sync_to_ab_account env fuel dbg) acc
         (sync_to_ab_account env fuel dbg (i, e) acc w).2)
  ∧ (truthy_flag (ynab_do_not_map e) = false →
     truthy_str (ynab_budget_id e) && truthy_str (ynab_account_id e) = true →
     (∀ k, (calls w ≤ k < calls w + 3)%nat → fault env k = false) →
     (sync_to_ynab_account env fuel dbg (i, e) acc w).1 = Raise InvalidOperation
     ∧ (for_each ((i, e) :: rest) (sync_to_ynab_account env fuel dbg) acc w).1
       = Raise InvalidOperation).
Proof.
  intros Ht Hname Hbal. split.
  - intros Hflag Hids Hf.
    assert (E : ∃ w', sync_to_ab_account env fuel dbg (i, e) acc w = (Ret acc, w')
                      ∧ last (trace w') = Some (Log ERROR (NoBalanceForTracking name))).
    { unfold sync_to_ab_account, get_akahu_balance, external, bind, log, modify, ret,
        of_option. simpl. rewrite Hflag, Hids, Ht. simpl. rewrite Hf. simpl.
      rewrite Hbal, Hname. simpl. eexists. split; [reflexivity|]. simpl.
      apply last_snoc. }
    destruct E as (w' & E & Hl). rewrite E. simpl. split; [reflexivity|].
    split; [exact Hl|]. rewrite bind_unfold, E. reflexivity.
  - intros Hflag Hids Hf.
    pose proof (Hf (calls w) ltac:(lia)) as Hf0.
    pose proof (Hf (S (calls w)) ltac:(lia)) as Hf1.
    pose proof (Hf (S (S (calls w))) ltac:(lia)) as Hf2.
    assert (E : ∃ w', sync_to_ynab_account env fuel dbg (i, e) acc w
                      = (Raise InvalidOperation, w')).
    { unfold sync_to_ynab_account, get_akahu_balance, get_ynab_balance, external, bind,
        get_world, log, modify, ret, of_option, raise.
      simpl. rewrite Hflag, Hids, Ht. simpl. rewrite Hf0. simpl. rewrite Hf1. simpl.
      rewrite Hf2. simpl. rewrite Hbal. simpl. eexists. reflexivity. }
    destruct E as (w' & E). rewrite E. simpl. split; [reflexivity|].
    rewrite bind_unfold, E. reflexivity.
Qed.

Lemma tracking_without_balance_witness :
  let e := sample.entry (Some "Tracking") (Some "actual-3") (Some "ynab-3") None None in
  let env := sample.env_without_balance in
  let w := sample.world [("acc_3", e)] in
  (sync_to_ab env 3 None w).1 = Ret 0
  ∧ (sync_to_ab_account env 3 None ("acc_3", e) (∅, 0) w).1 = Ret (∅, 0)
  ∧ (sync_to_ynab env 3 None w).1 = Raise InvalidOperation
  ∧ (sync_to_ynab_account env 3 None ("acc_3", e) (∅, 0) w).1 = Raise InvalidOperation.
Proof.
  intros e env w.
  destruct (tracking_without_balance env 3 None "acc_3" e "Everyday" (∅, 0) [] w)
    as [Hab Hynab]; [reflexivity..|].
  destruct (Hab eq_refl eq_refl eq_refl) as (H1 & _ & _).
  destruct Hynab as (H2 & _); [reflexivity | reflexivity | intros; reflexivity |].
  split; [vm_compute; reflexivity|]. split; [exact H1|].
  split; [vm_compute; reflexivity | exact H2].
Defined.

(** ** The count of a load into Actual *)

Lemma load_one_into_actual_grows env a rs dbg t im :
  returns (λ im', (length im' ≤ S (length im))%nat)
    (load_one_into_actual env a rs dbg t im).
Proof.
  unfold load_one_into_actual. repeat returns_step; rewrite ?length_app; simpl; lia.
Qed.

Lemma load_loop_grows env a rs dbg l :
  ∀ im, returns (λ im', (length im' ≤ length im + length l)%nat)
          (for_each l (load_one_into_actual env a rs dbg) im).
Proof.
  induction l as [|t l IH]; intros im; simpl.
  - apply returns_ret. lia.
  - eapply returns_bind_with; [apply load_one_into_actual_grows|].
    intros im1 H1. simpl in H1. eapply returns_weaken; [|apply IH]. simpl. intros im' H. lia.
Qed.

(** X12. What [load_transactions_into_actual] returns. For an empty
    batch it is [None], not a number, after one log line and nothing
    else: no call to the session, no commit, no timestamp. For a batch
    that is not empty it is a number between 0 and the size of the batch. *)
Theorem load_into_actual_count env transactions key dbg w :
  match (load_transactions_into_actual env transactions key dbg w).1 with
  | Ret None =>
      transactions = []
      ∧ (load_transactions_into_actual env transactions key dbg w).2
        = add_event (Log INFO (Text "No transactions to load into Actual.")) w
  | Ret (Some n) => transactions ≠ [] ∧ 0 ≤ n ≤ Z.of_nat (length transactions)
  | _ => transactions ≠ []
  end.
Proof.
  destruct transactions as [|t l].
  - simpl. auto.
  - assert (Hret : returns (λ o, ∃ n, o = Some n ∧ 0 ≤ n ≤ Z.of_nat (length (t :: l)))
                     (load_transactions_into_actual env (t :: l) key dbg)).
    { unfold load_transactions_into_actual. cbn [is_nil].
      apply returns_bind. intros e. apply returns_bind. intros a.
      apply returns_bind. intros names. apply returns_bind. intros rs.
      eapply returns_bind_with; [apply load_loop_grows|]. intros im Him.
      repeat returns_step. eexists. split; [reflexivity|]. simpl in Him |- *. lia. }
    destruct (load_transactions_into_actual env (t :: l) key dbg w) as [[o|e|] w'] eqn:E;
      simpl; [|discriminate..].
    destruct (Hret _ _ _ E) as (n & -> & Hn). split; [discriminate | exact Hn].
Qed.

(** ** A load into Actual that fails *)

Lemma before_commit_load_one env a rs dbg t im :
  preserves (within before_commit) (load_one_into_actual env a rs dbg t im).
Proof.
  unfold load_one_into_actual, reconcile_transaction, match_transaction, create_transaction,
    ruleset_run, convert_to_nzt.
  within_tac.
Qed.

Lemma before_commit_names env : preserves (within before_commit) (get_cached_names env).
Proof. unfold get_cached_names. within_tac. Qed.

Lemma before_commit_ruleset env : preserves (within before_commit) (get_ruleset_or_abort env).
Proof. unfold get_ruleset_or_abort. within_tac. Qed.

(** X13. A load into Actual that raises either raises the error of a
    failed commit, or has stopped before its commit: it has sent no
    commit to the session and has not set the timestamp of the entry in
    memory, whatever rows its earlier turns have created. *)
Theorem load_failure_before_commit env transactions key dbg w e :
  (load_transactions_into_actual env transactions key dbg w).1 = Raise e →
  e = RuntimeError "Failed to commit changes to Actual"
  ∨ (mapping_list (load_transactions_into_actual env transactions key dbg w).2
     = mapping_list w
     ∧ ∃ evs, trace (load_transactions_into_actual env transactions key dbg w).2
              = trace w ++ evs
              ∧ Request (ActualCall Commit) ∉ evs).
Proof.
  assert (Hout : ∀ w', within before_commit w w' →
                       mapping_list w' = mapping_list w
                       ∧ ∃ evs, trace w' = trace w ++ evs
                                ∧ Request (ActualCall Commit) ∉ evs).
  { intros w' H. split; [apply H; reflexivity|].
    apply (within_not_elem_of before_commit); [exact H | reflexivity]. }
  unfold load_transactions_into_actual. destruct transactions as [|t l]; [discriminate|].
  cbn [is_nil]. set (l' := t :: l). clearbody l'.
  rewrite bind_unfold.
  pose proof (within_entry_of before_commit key w) as W1.
  destruct (entry_of key w) as [[e0|ex|] w1]; simpl in *; [|intros _; right; auto | discriminate].
  rewrite bind_unfold.
  destruct (actual_account_id e0) as [a|]; simpl; [|intros _; right; auto].
  rewrite bind_unfold.
  pose proof (before_commit_names env w1) as W2.
  destruct (get_cached_names env w1) as [[names|ex|] w2]; simpl in *;
    [|intros _; right; apply Hout; etransitivity; eassumption | discriminate].
  rewrite bind_unfold.
  pose proof (before_commit_ruleset env w2) as W3.
  destruct (get_ruleset_or_abort env w2) as [[rs|ex|] w3]; simpl in *;
    [|intros _; right; apply Hout; repeat (etransitivity; [eassumption|]); reflexivity
     | discriminate].
  rewrite bind_unfold.
  assert (W4 : within before_commit w3
                 (for_each l' (load_one_into_actual env a rs dbg) [] w3).2).
  { apply within_for_each; [apply _..|]. intros. apply before_commit_load_one. }
  destruct (for_each l' (load_one_into_actual env a rs dbg) [] w3) as [[im|ex|] w4];
    simpl in *;
    [|intros _; right; apply Hout; repeat (etransitivity; [eassumption|]); reflexivity
     | discriminate].
  rewrite bind_unfold. simpl. rewrite bind_unfold. simpl. rewrite bind_unfold.
  unfold try_except at 1. rewrite bind_unfold.
  destruct (commit env _) as [[[]|ex|] w5]; simpl; try discriminate.
  intros H. inversion H. left. reflexivity.
Qed.

Lemma load_failure_before_commit_witness :
  let e := sample.entry None (Some "actual-1") (Some "ynab-1") None None in
  let l := [sample.txn "t1" "COFFEE" sample.f2_01; sample.txn "t2" "BOOKS" sample.f12_345] in
  let w := sample.world [("acc_1", e)] in
  let r := load_transactions_into_actual (sample.env_failing 5) l "acc_1" None w in
  r.1 = Raise (RuntimeError "Failed to process transaction into Actual")
  ∧ length (rows (actual r.2)) = 1%nat
  ∧ mapping_list r.2 = mapping_list w.
Proof.
  intros e l w r.
  assert (Hr : r.1 = Raise (RuntimeError "Failed to process transaction into Actual"))
    by (vm_compute; reflexivity).
  destruct (load_failure_before_commit (sample.env_failing 5) l "acc_1" None w _ Hr)
    as [Hc | [Hm _]]; [discriminate|].
  split; [exact Hr|]. split; [vm_compute; reflexivity | exact Hm].
Defined.

(** ** Writing to YNAB *)

Lemma ynab_import_app b sent :
  ∀ store, ∃ created,
    (ynab_import b sent store).1.1 = created
    ∧ (ynab_import b sent store).2 = store ++ map (λ t, (b, t)) created
    ∧ (length created ≤ length sent)%nat.
Proof.
  induction sent as [|t sent IH]; intros store; simpl.
  - exists []. rewrite app_nil_r. auto.
  - destruct (ynab_known_import b t store).
    + destruct (IH store) as (created & H1 & H2 & H3).
      destruct (ynab_import b sent store) as [[c d] s]. simpl in *.
      exists created. auto.
    + destruct (IH (store ++ [(b, t)])) as (created & H1 & H2 & H3).
      destruct (ynab_import b sent (store ++ [(b, t)])) as [[c d] s]. simpl in *.
      exists (t :: created). subst c. rewrite H2, <- app_assoc. simpl.
      split; [reflexivity|]. split; [reflexivity | lia].
Qed.

(** X14. A write to YNAB whose request fails stores nothing.
    [load_transactions_into_ynab] logs the failure and raises the
    [RuntimeError] of a failed load; [create_adjustment_txn_ynab] logs it
    and raises the error of the request itself. When the request goes
    through, [load_transactions_into_ynab] returns the number of
    transactions that the budget has gained, at most the number sent. *)
Theorem ynab_write_outcomes env sent budget account dbg akahu_milli ynab_milli w :
  let r := load_transactions_into_ynab env sent budget account dbg w in
  let a := create_adjustment_txn_ynab env budget account akahu_milli ynab_milli w in
  match r.1 with
  | Ret n =>
      fault env (calls w) = false
      ∧ Z.of_nat (length (ynab r.2)) = Z.of_nat (length (ynab w)) + n
      ∧ 0 ≤ n ≤ Z.of_nat (length sent)
  | Raise e =>
      fault env (calls w) = true
      ∧ e = RuntimeError "Failed to load transactions into YNAB"
      ∧ ynab r.2 = ynab w
      ∧ last (trace r.2) = Some (Log ERROR (Text "Failed to post transactions to YNAB"))
  | Spin => False
  end
  ∧ match a.1 with
    | Ret _ => akahu_milli = ynab_milli ∨ fault env (calls w) = false
    | Raise e =>
        fault env (calls w) = true
        ∧ e = RequestException
        ∧ ynab a.2 = ynab w
        ∧ last (trace a.2)
          = Some (Log ERROR (Text "Failed to create balance adjustment transaction"))
    | Spin => False
    end.
Proof.
  intros r a. subst r a. split.
  - unfold load_transactions_into_ynab. rewrite bind_unfold.
    set (pre := (if bool_decide (dbg = Some "all")
                 then for_each sent (λ _ _, log INFO (Text "Processing transaction")) tt
                 else ret tt) w).
    assert (Hpre : pre.1 = Ret tt ∧ ynab pre.2 = ynab w ∧ calls pre.2 = calls w).
    { subst pre. destruct (bool_decide _); [|auto]. clear. revert w.
      induction sent as [|t sent IH]; intros w; simpl; [auto|].
      rewrite bind_unfold. simpl. destruct (IH (add_event (Log INFO (Text "Processing transaction")) w))
        as (H1 & H2 & H3). auto. }
    destruct pre as [o w1]. simpl in Hpre. destruct Hpre as (-> & Hy & Hc).
    rewrite bind_unfold. unfold try_except, ynab_post_transactions, external.
    rewrite bind_unfold. rewrite Hc.
    destruct (fault env (calls w)) eqn:Hf; simpl.
    + split; [reflexivity|]. split; [reflexivity|]. split; [exact Hy|]. apply last_snoc.
    + destruct (ynab_import_app budget sent (ynab w1)) as (created & H1 & H2 & H3).
      destruct (ynab_import budget sent (ynab w1)) as [[c d] s] eqn:Ei. simpl in *.
      subst c s. unfold bind, get_world, modify, ret, log. simpl. rewrite Ei. simpl.
      assert (Hlen : Z.of_nat (length (ynab w1 ++ map (λ t, (budget, t)) created))
                     = Z.of_nat (length (ynab w)) + Z.of_nat (length created)).
      { rewrite length_app, length_map, Hy. lia. }
      destruct (is_nil d); simpl; [|destruct (bool_decide _); simpl];
        destruct (is_nil created); simpl;
        (split; [reflexivity|]; split; [exact Hlen | lia]).
  - unfold create_adjustment_txn_ynab, try_except.
    destruct (Z.eqb_spec (akahu_milli - ynab_milli) 0) as [E|E]; simpl; [left; lia|].
    unfold ynab_post_transaction, external, bind, now, log, modify, ret, raise. simpl.
    destruct (fault env (calls w)) eqn:Hf; simpl.
    + split; [reflexivity|]. split; [reflexivity|]. split; [reflexivity|]. apply last_snoc.
    + right. reflexivity.
Qed.

Lemma ynab_known_import_app b t store more :
  ynab_known_import b t store = true → ynab_known_import b t (store ++ more) = true.
Proof.
  unfold ynab_known_import. destruct (y_import_id t); [|discriminate].
  rewrite existsb_app. intros ->. reflexivity.
Qed.

Lemma ynab_known_import_here b t store more :
  y_import_id t ≠ None → ynab_known_import b t (store ++ (b, t) :: more) = true.
Proof.
  unfold ynab_known_import. destruct (y_import_id t) eqn:E; [|congruence]. intros _.
  rewrite existsb_app. simpl. rewrite String.eqb_refl.
  rewrite (bool_decide_eq_true_2 (y_account_id t = y_account_id t)) by reflexivity.
  rewrite (bool_decide_eq_true_2 _ E). simpl. apply orb_true_r.
Qed.

(** After a batch, the budget knows every import id of the batch. *)
Lemma ynab_import_known b sent :
  ∀ store,
    Forall (λ t, y_import_id t ≠ None →
                 ynab_known_import b t (ynab_import b sent store).2 = true) sent.
Proof.
  induction sent as [|t sent IH]; intros store; [constructor|]. simpl.
  destruct (ynab_known_import b t store) eqn:Ek.
  - specialize (IH store). destruct (ynab_import_app b sent store) as (created & _ & H2 & _).
    destruct (ynab_import b sent store) as [[c d] s]. simpl in *.
    constructor; [|exact IH]. intros _. rewrite H2. apply ynab_known_import_app, Ek.
  - specialize (IH (store ++ [(b, t)])).
    destruct (ynab_import_app b sent (store ++ [(b, t)])) as (created & _ & H2 & _).
    destruct (ynab_import b sent (store ++ [(b, t)])) as [[c d] s]. simpl in *.
    constructor; [|exact IH]. intros Hid. rewrite H2, <- app_assoc. simpl.
    apply ynab_known_import_here, Hid.
Qed.

Lemma ynab_import_all_known b sent store :
  Forall (λ t, ynab_known_import b t store = true) sent →
  ynab_import b sent store = ([], map y_import_id sent, store).
Proof.
  induction 1 as [|t sent Ht _ IH]; simpl; [reflexivity|]. rewrite Ht, IH. reflexivity.
Qed.

Lemma load_transactions_into_ynab_run env sent b a dbg w :
  fault env (calls w) = false →
  ∃ w1, load_transactions_into_ynab env sent b a dbg w
        = (Ret (Z.of_nat (length (ynab_import b sent (ynab w)).1.1)), w1)
        ∧ ynab w1 = (ynab_import b sent (ynab w)).2
        ∧ calls w1 = S (calls w).
Proof.
  intros Hf. unfold load_transactions_into_ynab. rewrite bind_unfold.
  set (pre := (if bool_decide (dbg = Some "all")
               then for_each sent (λ _ _, log INFO (Text "Processing transaction")) tt
               else ret tt) w).
  assert (Hpre : pre.1 = Ret tt ∧ ynab pre.2 = ynab w ∧ calls pre.2 = calls w).
  { subst pre. destruct (bool_decide _); [|auto]. clear. revert w.
    induction sent as [|t sent IH]; intros w; simpl; [auto|].
    rewrite bind_unfold. simpl.
    destruct (IH (add_event (Log INFO (Text "Processing transaction")) w)) as (H1 & H2 & H3).
    auto. }
  destruct pre as [o w1]. simpl in Hpre. destruct Hpre as (-> & Hy & Hc).
  rewrite bind_unfold. unfold try_except, ynab_post_transactions, external.
  rewrite bind_unfold. rewrite Hc, Hf. simpl.
  unfold bind, get_world, modify, ret, log. simpl. rewrite Hy.
  destruct (ynab_import b sent (ynab w)) as [[c d] s]. simpl.
  destruct (is_nil d); simpl; [|destruct (bool_decide _); simpl];
    destruct (is_nil c); simpl; eexists; (split; [reflexivity|]; split; [reflexivity|]);
    simpl; rewrite Hc; reflexivity.
Qed.

(** X15. A batch of transactions that all carry an import id, loaded into
    a budget of YNAB a second time (with a budget that refuses an import
    id that it holds and reports it as a duplicate): the second load
    returns 0 and the budget is as the first load left it. *)
Theorem ynab_load_twice env sent budget account dbg w :
  Forall (λ t, y_import_id t ≠ None) sent →
  fault env (calls w) = false → fault env (S (calls w)) = false →
  let w1 := (load_transactions_into_ynab env sent budget account dbg w).2 in
  (∃ n, (load_transactions_into_ynab env sent budget account dbg w).1 = Ret n)
  ∧ (load_transactions_into_ynab env sent budget account dbg w1).1 = Ret 0
  ∧ ynab (load_transactions_into_ynab env sent budget account dbg w1).2 = ynab w1.
Proof.
  intros Hids Hf0 Hf1 w1. subst w1.
  destruct (load_transactions_into_ynab_run env sent budget account dbg w Hf0)
    as (w1 & E1 & Hy1 & Hc1).
  rewrite E1. simpl. split; [eauto|].
  destruct (load_transactions_into_ynab_run env sent budget account dbg w1)
    as (w2 & E2 & Hy2 & _); [rewrite Hc1; exact Hf1|].
  assert (Hknown : Forall (λ t, ynab_known_import budget t (ynab w1) = true) sent).
  { pose proof (ynab_import_known budget sent (ynab w)) as H. rewrite <- Hy1 in H.
    rewrite Forall_forall in *. intros t Ht. apply (H t Ht), (Hids t Ht). }
  rewrite (ynab_import_all_known _ _ _ Hknown) in E2, Hy2. rewrite E2. simpl. auto.
Qed.

Lemma ynab_load_twice_witness :
  let y := {| y_account_id := Some "ynab-1"; y_date := Some 20240; y_amount := 2009;
              y_payee_name := Some "COFFEE"; y_memo := Some "COFFEE";
              y_import_id := Some "t1"; y_cleared := "cleared"; y_flag_color := "red";
              y_approved := false |} in
  let w := sample.world [] in
  let w1 := (load_transactions_into_ynab sample.env [y] "budget-a" "ynab-1" None w).2 in
  (load_transactions_into_ynab sample.env [y] "budget-a" "ynab-1" None w).1 = Ret 1
  ∧ (load_transactions_into_ynab sample.env [y] "budget-a" "ynab-1" None w1).1 = Ret 0
  ∧ ynab (load_transactions_into_ynab sample.env [y] "budget-a" "ynab-1" None w1).2
    = [("budget-a", y)].
Proof.
  intros y w w1.
  destruct (ynab_load_twice sample.env [y] "budget-a" "ynab-1" None w) as (_ & H2 & H3).
  - repeat constructor. discriminate.
  - reflexivity.
  - reflexivity.
  - split; [vm_compute; reflexivity|]. split; [exact H2|].
    etransitivity; [exact H3|]. vm_compute. reflexivity.
Defined.

(** ** The report of a sync *)

Lemma string_leb_refl s : String.leb s s = true.
Proof.
  unfold String.leb. induction s as [|c s IH]; simpl; [reflexivity|].
  unfold Ascii.compare. rewrite N.compare_refl. exact IH.
Qed.

Lemma string_leb_trans s1 s2 s3 :
  String.leb s1 s2 = true → String.leb s2 s3 = true → String.leb s1 s3 = true.
Proof.
  unfold String.leb. revert s2 s3.
  induction s1 as [|c1 s1 IH]; intros [|c2 s2] [|c3 s3]; simpl; try (intros; congruence).
  unfold Ascii.compare.
  destruct (N.compare_spec (Ascii.N_of_ascii c1) (Ascii.N_of_ascii c2)) as [E12|L12|G12];
    destruct (N.compare_spec (Ascii.N_of_ascii c2) (Ascii.N_of_ascii c3)) as [E23|L23|G23];
    destruct (N.compare_spec (Ascii.N_of_ascii c1) (Ascii.N_of_ascii c3)) as [E13|L13|G13];
    try (intros; congruence); try lia.
  apply IH.
Qed.

Lemma string_ltb_leb s1 s2 :
  if String.ltb s1 s2 then String.leb s1 s2 = true else String.leb s2 s1 = true.
Proof.
  unfold String.ltb, String.leb. rewrite (String.compare_antisym s2 s1).
  destruct (String.compare s1 s2); reflexivity.
Qed.

Lemma max_str_fold xs :
  ∀ best,
    let m := fold_left (λ best y, if String.ltb best y then y else best) xs best in
    m ∈ best :: xs ∧ String.leb best m = true ∧ Forall (λ x, String.leb x m = true) xs.
Proof.
  induction xs as [|y xs IH]; intros best; simpl.
  - split; [set_solver|]. split; [apply string_leb_refl | constructor].
  - pose proof (string_ltb_leb best y) as Hy.
    destruct (String.ltb best y).
    + destruct (IH y) as (H1 & H2 & H3). split; [set_solver|].
      split; [eapply string_leb_trans; eassumption|]. constructor; assumption.
    + destruct (IH best) as (H1 & H2 & H3). split; [set_solver|].
      split; [exact H2|]. constructor; [eapply string_leb_trans; eassumption | exact H3].
Qed.

(** [max]: the default for no string, else one of the strings, which
    none of them exceeds. *)
Lemma max_str_spec xs default :
  match xs with
  | [] => max_str xs default = default
  | _ :: _ => max_str xs default ∈ xs ∧ Forall (λ x, String.leb x (max_str xs default) = true) xs
  end.
Proof.
  destruct xs as [|x xs]; [reflexivity|]. simpl.
  destruct (max_str_fold xs x) as (H1 & H2 & H3). split; [exact H1|].
  constructor; assumption.
Qed.

(** [sum(1 for x in l if c(x))] is the number of the elements of [l]
    that satisfy [c]. *)
Lemma sum_of_ones {A} (c : A → bool) (l : list A) :
  ∀ n, fold_left (λ total x, if c x then (total + 1)%nat else total) l n
       = (n + length (List.filter c l))%nat.
Proof.
  induction l as [|x l IH]; intros n; simpl; [lia|].
  rewrite IH. destruct (c x); simpl; lia.
Qed.

(** X16. The report of a sync always answers with success. It passes
    the two counts on as they are; for each destination the number of
    accounts it reports is the number of the accounts that have an
    account id for it and are not flagged do-not-map for it; its last
    sync time is ["Never"] when no account has an
    account id for the destination, and else the greatest of the
    timestamps of the accounts that have one, flagged or not, an account
    without a timestamp standing for ["2025-05-05T00:00:00Z"]. *)
Theorem generate_sync_report_stats isoformat mapping_list actual_count ynab_count w :
  ∃ report,
    generate_sync_report isoformat mapping_list actual_count ynab_count w
    = (Ret (Success report), tick w)
    ∧ transactions_created (stats_actual report) = actual_count
    ∧ transactions_created (stats_ynab report) = ynab_count
    ∧ accounts (stats_actual report)
      = length (List.filter (λ m, truthy_str (actual_account_id m)
                                  && negb (truthy_flag (actual_do_not_map m)))
                  (map snd mapping_list))
    ∧ accounts (stats_ynab report)
      = length (List.filter (λ m, truthy_str (ynab_account_id m)
                                  && negb (truthy_flag (ynab_do_not_map m)))
                  (map snd mapping_list))
    ∧ (let with_id := List.filter (λ m, truthy_str (actual_account_id m))
                        (map snd mapping_list) in
       match with_id with
       | [] => last_sync (stats_actual report) = "Never"
       | _ :: _ =>
           (∃ m, m ∈ with_id
                 ∧ last_sync (stats_actual report)
                   = default "2025-05-05T00:00:00Z" (actual_synced_datetime m))
           ∧ Forall (λ m, String.leb (default "2025-05-05T00:00:00Z"
                                        (actual_synced_datetime m))
                            (last_sync (stats_actual report)) = true) with_id
       end)
    ∧ (let with_id := List.filter (λ m, truthy_str (ynab_account_id m))
                        (map snd mapping_list) in
       match with_id with
       | [] => last_sync (stats_ynab report) = "Never"
       | _ :: _ =>
           (∃ m, m ∈ with_id
                 ∧ last_sync (stats_ynab report)
                   = default "2025-05-05T00:00:00Z" (ynab_synced_datetime m))
           ∧ Forall (λ m, String.leb (default "2025-05-05T00:00:00Z"
                                        (ynab_synced_datetime m))
                            (last_sync (stats_ynab report)) = true) with_id
       end).
Proof.
  eexists. split; [reflexivity|]. simpl.
  assert (Hmax : ∀ (g : MappingEntry → string) (l : list MappingEntry),
            match l with
            | [] => max_str (map g l) "Never" = "Never"
            | _ :: _ =>
                (∃ m, m ∈ l ∧ max_str (map g l) "Never" = g m)
                ∧ Forall (λ m, String.leb (g m) (max_str (map g l) "Never") = true) l
            end).
  { intros g l. pose proof (max_str_spec (map g l) "Never") as H.
    destruct l as [|m l]; [exact H|]. cbn [map] in H. destruct H as [H1 H2].
    split.
    - change (g m :: map g l) with (map g (m :: l)) in H1.
      apply list_elem_of_fmap in H1 as (m' & Hm' & Hin). eauto.
    - change (g m :: map g l) with (map g (m :: l)) in H2.
      apply Forall_fmap in H2. exact H2. }
  split; [reflexivity|]. split; [reflexivity|].
  split; [apply (sum_of_ones _ _ 0%nat)|]. split; [apply (sum_of_ones _ _ 0%nat)|].
  split; apply Hmax.
Qed.

(** ** The endpoints *)

(** What a pass does to the mapping file: nothing when it does not
    return, one batch of timestamps when it does. *)
Lemma sync_to_ab_file env fuel dbg w :
  match (sync_to_ab env fuel dbg w).1 with
  | Ret _ =>
      ∃ t ids, mapping_file (sync_to_ab env fuel dbg w).2
               = stamped actual_do_not_map set_actual_synced_datetime t ids (mapping_file w)
  | _ => mapping_file (sync_to_ab env fuel dbg w).2 = mapping_file w
  end.
Proof.
  pose proof (pass_file env _ _ w _
    (λ w3, stamped actual_do_not_map set_actual_synced_datetime (utc_stamp env (clock w3)))
    (sync_to_ab_run env fuel dbg w)) as H.
  assert (H1 : ∀ l, preserves (quiet nothing) (sync_to_ab_accounts env fuel dbg l)).
  { intros l. apply quiet_sync_to_ab_accounts; [reflexivity|]. intros; split; reflexivity. }
  assert (H2 : ∀ done w3,
             match (persist_ab env done w3).1 with
             | Ret _ =>
                 mapping_file (persist_ab env done w3).2
                 = stamped actual_do_not_map set_actual_synced_datetime
                     (utc_stamp env (clock w3)) done.1 (mapping_file w3)
             | _ => mapping_file (persist_ab env done w3).2 = mapping_file w3
             end).
  { intros done w3. pose proof (persist_ab_run env done w3) as [_ Hp].
    destruct (persist_ab env done w3) as [[n'|e'|] w'']; simpl in *; [apply Hp|exact Hp..]. }
  specialize (H H1 H2).
  destruct (sync_to_ab env fuel dbg w) as [[n|e|] w']; simpl in *; [|exact H..].
  destruct H as (w3 & ids & H). eauto.
Qed.

Lemma sync_to_ynab_file env fuel dbg w :
  match (sync_to_ynab env fuel dbg w).1 with
  | Ret _ =>
      ∃ t ids, mapping_file (sync_to_ynab env fuel dbg w).2
               = stamped ynab_do_not_map set_ynab_synced_datetime t ids (mapping_file w)
  | _ => mapping_file (sync_to_ynab env fuel dbg w).2 = mapping_file w
  end.
Proof.
  pose proof (pass_file env _ _ w _
    (λ w3, stamped ynab_do_not_map set_ynab_synced_datetime (utc_stamp env (clock w3)))
    (sync_to_ynab_run env fuel dbg w)) as H.
  assert (H1 : ∀ l, preserves (quiet nothing) (sync_to_ynab_accounts env fuel dbg l)).
  { intros l. apply quiet_sync_to_ynab_accounts; [reflexivity|]. intros; split; reflexivity. }
  assert (H2 : ∀ done w3,
             match (persist_ynab env done w3).1 with
             | Ret _ =>
                 mapping_file (persist_ynab env done w3).2
                 = stamped ynab_do_not_map set_ynab_synced_datetime
                     (utc_stamp env (clock w3)) done.1 (mapping_file w3)
             | _ => mapping_file (persist_ynab env done w3).2 = mapping_file w3
             end).
  { intros done w3. pose proof (persist_ynab_run env done w3) as [_ Hp].
    destruct (persist_ynab env done w3) as [[n'|e'|] w'']; simpl in *; [apply Hp|exact Hp..]. }
  specialize (H H1 H2).
  destruct (sync_to_ynab env fuel dbg w) as [[n|e|] w']; simpl in *; [|exact H..].
  destruct H as (w3 & ids & H). eauto.
Qed.

Lemma stamped_actual_keeps_ynab t ids (m : gmap string MappingEntry) i :
  ynab_synced_datetime
    <$> stamped actual_do_not_map set_actual_synced_datetime t ids m !! i
  = ynab_synced_datetime <$> m !! i.
Proof.
  rewrite stamped_lookup. destruct (m !! i) as [e|]; [|reflexivity]. simpl.
  unfold stamp_for. destruct (_ && _); reflexivity.
Qed.


Lemma within_view_transactions_account env fuel item acc :
  preserves (within read_only) (view_transactions_account env fuel item acc).
Proof.
  unfold view_transactions_account.
  pose proof (within_get_all_akahu env read_only eq_refl eq_refl fuel). within_tac.
Qed.

Lemma view_transactions_account_outcome env fuel item acc w e :
  (view_transactions_account env fuel item acc w).1 ≠ Raise e.
Proof.
  unfold view_transactions_account. destruct (_ && _); [discriminate|].
  unfold try_except.
  destruct (bind (get_all_akahu env fuel item.1 _) _ w) as [[a|ex|] w1]; discriminate.
Qed.

Lemma for_each_never_raises {A St} (body : A → St → M St) l :
  (∀ x s w e, (body x s w).1 ≠ Raise e) →
  ∀ acc w e, (for_each l body acc w).1 ≠ Raise e.
Proof.
  intros Hbody. induction l as [|x l IH]; intros acc w e; simpl; [discriminate|].
  rewrite bind_unfold. specialize (Hbody x acc w).
  destruct (body x acc w) as [[s|ex|] w1]; simpl in *; [apply IH | | discriminate].
  destruct (Hbody ex). reflexivity.
Qed.

Lemma view_transactions_account_batches env fuel item acc :
  Forall (λ b : string * list AkahuTxn, b.2 ≠ []) acc →
  returns (Forall (λ b : string * list AkahuTxn, b.2 ≠ []))
    (view_transactions_account env fuel item acc).
Proof.
  intros Hacc. unfold view_transactions_account.
  destruct (_ && _); [apply returns_ret, Hacc|].
  apply returns_try_except.
  - apply returns_bind. intros df. destruct df as [|t df]; simpl; apply returns_ret; [exact Hacc|].
    apply Forall_app. split; [exact Hacc|]. constructor; [discriminate | constructor].
  - intros e. apply returns_bind. intros _. apply returns_ret, Hacc.
Qed.

(** X18. The sweep of the endpoint [/transactions] over the accounts
    only reads: it leaves the session of Actual, the budgets of YNAB, the
    mapping file and the mappings in memory as they are, and its requests
    go to Akahu and to the mapping file. A fetch that fails stops nothing:
    the sweep raises only when the mapping file cannot be read. The
    batches it returns are not empty. *)
Theorem view_transactions_fetch_sweep env items_of fuel w :
  let r := view_transactions_fetch env items_of fuel w in
  (actual r.2 = actual w ∧ ynab r.2 = ynab w
   ∧ mapping_file r.2 = mapping_file w ∧ mapping_list r.2 = mapping_list w
   ∧ ∃ evs, trace r.2 = trace w ++ evs
            ∧ Forall (λ ev, kind ev = LogLine ∨ kind ev = AkahuRead ∨ kind ev = FileRead) evs)
  ∧ (∀ e, r.1 = Raise e → e = SessionError ∧ fault env (calls w) = true)
  ∧ (∀ batches, r.1 = Ret batches → Forall (λ b, b.2 ≠ []) batches).
Proof.
  intros r. subst r. split; [|split].
  - assert (W : preserves (within read_only) (view_transactions_fetch env items_of fuel)).
    { unfold view_transactions_fetch.
      pose proof (within_load_existing_mapping env read_only eq_refl).
      pose proof (within_view_transactions_account env fuel). within_tac. }
    destruct (W w) as ((evs & Ht & Hev) & Ha & Hy & Hf & Hl).
    repeat split; [apply Ha | apply Hy | apply Hf | apply Hl |]; try reflexivity.
    exists evs. split; [exact Ht|]. eapply Forall_impl; [exact Hev|]. simpl.
    intros ev Hk. destruct (kind ev); try discriminate; auto.
  - intros e. unfold view_transactions_fetch. rewrite bind_unfold.
    unfold load_existing_mapping, external. rewrite bind_unfold.
    destruct (fault env (calls w)); simpl.
    + intros H. inversion H. auto.
    + intros H. exfalso. revert H.
      apply (for_each_never_raises (view_transactions_account env fuel)).
      intros. apply view_transactions_account_outcome.
  - intros batches. unfold view_transactions_fetch. intros H.
    destruct (bind (load_existing_mapping env) _ w) as [o w'] eqn:E. simpl in H. subst o.
    apply bind_ret_inv in E as (mappings & w1 & _ & E).
    assert (Hloop : ∀ l acc, Forall (λ b : string * list AkahuTxn, b.2 ≠ []) acc →
              returns (Forall (λ b : string * list AkahuTxn, b.2 ≠ []))
                (for_each l (view_transactions_account env fuel) acc)).
    { induction l as [|x l IH]; intros acc Hacc; simpl; [apply returns_ret, Hacc|].
      eapply returns_bind_with; [apply view_transactions_account_batches, Hacc|].
      intros acc1 H1. apply IH, H1. }
    apply (Hloop _ [] (List.Forall_nil _) _ _ _ E).
Qed.

(** ** A balance adjustment whose commit fails *)

(** X19. When the balances of a Tracking account differ and the commit
    of the adjustment fails, [handle_tracking_account_actual] raises the
    [RuntimeError] of a failed commit, after the two error lines of its
    two handlers, and leaves the adjustment in the session as a row that
    is not committed; the rows that were there are as they were. *)
Theorem adjustment_commit_fails env key e a name b akahu_cents w :
  lookup_entry key (mapping_list w) = Some e →
  actual_account_id e = Some a → akahu_name e = Some name → akahu_balance e = Some b →
  cents_of_dollars (decimal_of_str env b) = Some akahu_cents →
  akahu_cents ≠ account_balance a (rows (actual w)) →
  fault env (calls w) = false → fault env (S (calls w)) = false →
  fault env (S (S (calls w))) = true →
  let r := handle_tracking_account_actual env key w in
  r.1 = Raise (RuntimeError "Failed to commit balance adjustment to Actual")
  ∧ rows (actual r.2)
    = rows (actual w)
      ++ [pending_row (adjustment_row env a akahu_cents (account_balance a (rows (actual w))) w)]
  ∧ ∃ tr, trace r.2
          = tr ++ [Log ERROR (Text "Failed to commit balance adjustment to Actual Budget");
                   Log ERROR (Text (String.append "Error handling tracking account " name))].
Proof.
  intros He Ha Hn Hb Hc Hne Hf0 Hf1 Hf2 r. subst r.
  unfold handle_tracking_account_actual, entry_of, get_actual_balance, log_balance_comparison,
    create_transaction, commit, now, actual_call, external, try_except, bind, get_world,
    of_option, log, modify, ret, raise.
  simpl. rewrite He. simpl. rewrite Ha, Hn. simpl. rewrite Hb. simpl. rewrite Hf0. simpl.
  rewrite Hc. simpl. rewrite bool_decide_eq_true_2 by exact Hne.
  simpl. rewrite Hf1. simpl. rewrite Hf2. simpl.
  split; [reflexivity|]. split.
  - unfold adjustment_row, pending_row. simpl. rewrite rescale_same. reflexivity.
  - eexists. rewrite <- app_assoc. reflexivity.
Qed.

Lemma adjustment_commit_fails_witness :
  let e := sample.entry (Some "Tracking") (Some "actual-3") (Some "ynab-3") None
             (Some sample.f100) in
  let w := sample.world [("acc_3", e)] in
  let r := handle_tracking_account_actual (sample.env_failing 2) "acc_3" w in
  r.1 = Raise (RuntimeError "Failed to commit balance adjustment to Actual")
  ∧ map pending (rows (actual r.2)) = [true]
  ∧ map amount (rows (actual r.2)) = [10000].
Proof.
  intros e w r.
  destruct (adjustment_commit_fails (sample.env_failing 2) "acc_3" e "actual-3" "Everyday"
              sample.f100 10000 w) as (H1 & H2 & _); try reflexivity; [discriminate|].
  split; [exact H1|]. fold r in H2. rewrite H2. split; reflexivity.
Defined.
